(** * World Monitor: the desktop sidecar router, its cloud fallback policy,
      the runtime fetch patch and the humanity counters.

    The development embeds, function by function,

    - [src-tauri/sidecar/local-api-server.mjs] (modules [Router], [Headers],
      [Sidecar] and [Startup]),
    - the runtime module that installs the fetch patch (modules [Runtime]
      and [RuntimeUrl]),
    - [src/services/humanity-counters.ts] (module [Counters]),
    - two handlers of the api tree the sidecar serves:
      [api/youtube/embed.js] (module [Embed]) and the cache key of
      [api/country-intel.js] (module [CountryIntel]),

    and proves the properties the specification states about them, and
    further properties the code shows. *)

From Stdlib Require Import ZArith List String Ascii Bool Lia Permutation Sorted.
From Stdlib Require Import Floats.
From stdpp Require Import base strings gmap pretty.
Import ListNotations.

Local Open Scope string_scope.
Local Open Scope list_scope.

(** ** JavaScript string primitives

    A JavaScript string is a finite sequence of code units.  Every
    operation the sources use ([startsWith], [endsWith], [split],
    [slice], anchored [replace]) compares code units with ASCII
    constants, so code units are rendered as [ascii]. *)

Module JsString.

(** [s.startsWith(p)] *)
Definition startsWith (s p : string) : bool := String.prefix p s.

(** [s.endsWith(p)]: [s] is long enough and its last [p.length] units
    are [p]. *)
Definition endsWith (s p : string) : bool :=
  (String.length p <=? String.length s)%nat &&
  String.eqb (String.substring (String.length s - String.length p)
                               (String.length p) s) p.

(** [s.slice(n)] for [n >= 0]. *)
Fixpoint slice (n : nat) (s : string) : string :=
  match n, s with
  | O, _ => s
  | S _, EmptyString => EmptyString
  | S n', String _ rest => slice n' rest
  end.

(** [s.split(sep)] for a one-unit separator: JavaScript keeps the empty
    pieces, and the split of the empty string is [[""]]. *)
Fixpoint split (sep : ascii) (s : string) : list string :=
  match s with
  | EmptyString => [EmptyString]
  | String c rest =>
      if Ascii.eqb c sep then EmptyString :: split sep rest
      else match split sep rest with
           | [] => [String c EmptyString]
           | piece :: pieces => String c piece :: pieces
           end
  end.

(** [Boolean(s)]: a string is truthy when it is not empty. *)
Definition truthy (s : string) : bool :=
  match s with EmptyString => false | String _ _ => true end.

(** [s.replace(/^p/, '')] for a literal pattern [p]. *)
Definition stripPrefix (p s : string) : string :=
  if startsWith s p then slice (String.length p) s else s.

(** [s.replace(/p$/, '')] for a literal pattern [p]. *)
Definition stripSuffix (p s : string) : string :=
  if endsWith s p
  then String.substring 0 (String.length s - String.length p) s
  else s.

(** [s.replace(/a/g, b)] for single code units [a] and [b]. *)
Fixpoint replaceAll (a b : ascii) (s : string) : string :=
  match s with
  | EmptyString => EmptyString
  | String c rest =>
      String (if Ascii.eqb c a then b else c) (replaceAll a b rest)
  end.

(** [s.toLowerCase()] on ASCII text: only [A]..[Z] change. *)
Definition lowerUnit (c : ascii) : ascii :=
  let n := nat_of_ascii c in
  if ((65 <=? n) && (n <=? 90))%nat then ascii_of_nat (n + 32) else c.

Fixpoint toLowerCase (s : string) : string :=
  match s with
  | EmptyString => EmptyString
  | String c rest => String (lowerUnit c) (toLowerCase rest)
  end.

(** [parts.join(sep)] *)
Fixpoint join (sep : string) (parts : list string) : string :=
  match parts with
  | [] => EmptyString
  | [p] => p
  | p :: rest => p ++ sep ++ join sep rest
  end.

End JsString.

(** ** The file-convention router *)

Module Router.
Import JsString.

Definition isBracketSegment (segment : string) : bool :=
  startsWith segment "[" && endsWith segment "]".

(** The two tests [matchRoute] and [routePriority] spell out before
    [isBracketSegment]. *)
Definition isOptionalCatchAll (part : string) : bool :=
  startsWith part "[[..." && endsWith part "]]".

Definition isCatchAll (part : string) : bool :=
  startsWith part "[..." && endsWith part "]".

Definition splitRoutePath (routePath : string) : list string :=
  List.filter truthy (split "/"%char routePath).

(** The reducer of [routePriority]. *)
Definition segmentScore (score : Z) (part : string) : Z :=
  if isOptionalCatchAll part then (score + 0)%Z
  else if isCatchAll part then (score + 1)%Z
  else if isBracketSegment part then (score + 2)%Z
  else (score + 10)%Z.

Definition routePriority (routePath : string) : Z :=
  let parts := splitRoutePath routePath in
  fold_left segmentScore parts 0%Z.

(** The [while] loop of [matchRoute] over the indices [i] and [j]: it
    either executes a [return] or falls through with the indices it
    reached.  Each iteration that continues increments [i], so
    [routeParts.length] iterations exhaust the loop; [fuel] counts
    them. *)
Inductive LoopExit : Type :=
| Returned (b : bool)
| FellThrough (i j : nat).

Fixpoint matchLoop (fuel : nat) (routeParts pathParts : list string)
         (i j : nat) : LoopExit :=
  if ((i <? length routeParts) && (j <? length pathParts))%nat then
    match fuel with
    | O => FellThrough i j
    | S fuel' =>
        let routePart := nth i routeParts "" in
        let pathPart := nth j pathParts "" in
        if isOptionalCatchAll routePart then Returned true
        else if isCatchAll routePart then Returned true
        else if isBracketSegment routePart then
          matchLoop fuel' routeParts pathParts (i + 1) (j + 1)
        else if negb (String.eqb routePart pathPart) then Returned false
        else matchLoop fuel' routeParts pathParts (i + 1) (j + 1)
    end
  else FellThrough i j.

(** [tail?.startsWith(..) && tail.endsWith(..)] on a possibly undefined
    [tail]. *)
Definition optTest (test : string -> bool) (tail : option string) : bool :=
  match tail with Some t => test t | None => false end.

(** The statements after the loop. *)
Definition afterLoop (routeParts pathParts : list string) (i j : nat)
  : bool :=
  if ((i =? length routeParts) && (j =? length pathParts))%nat then true
  else if (Z.of_nat i =? Z.of_nat (length routeParts) - 1)%Z then
    let tail := nth_error routeParts i in
    if optTest isOptionalCatchAll tail then true
    else if optTest isCatchAll tail then (j <? length pathParts)%nat
    else false
  else false.

Definition finish (routeParts pathParts : list string) (e : LoopExit)
  : bool :=
  match e with
  | Returned b => b
  | FellThrough i j => afterLoop routeParts pathParts i j
  end.

Definition matchParts (routeParts pathParts : list string) : bool :=
  finish routeParts pathParts
         (matchLoop (length routeParts) routeParts pathParts 0 0).

(** The same decision read on the parts still ahead of [i] and [j];
    [matchParts_ahead] proves the two equal. *)
Fixpoint matchAhead (route request : list string) : bool :=
  match route, request with
  | [], [] => true
  | [], _ :: _ => false
  | [tail], [] => isOptionalCatchAll tail
  | _ :: _ :: _, [] => false
  | segment :: route', part :: request' =>
      if isOptionalCatchAll segment then true
      else if isCatchAll segment then true
      else if isBracketSegment segment then matchAhead route' request'
      else if negb (String.eqb segment part) then false
      else matchAhead route' request'
  end.

(** The request segments [matchRoute] works on: those of the pathname
    once a leading [/api] is removed. *)
Definition pathPartsOf (pathname : string) : list string :=
  splitRoutePath (stripPrefix "/api" pathname).

Definition matchRoute (routePath pathname : string) : bool :=
  matchParts (splitRoutePath routePath) (pathPartsOf pathname).

Record Route : Type := mkRoute { routePath : string; modulePath : string }.

(** [pathname.startsWith('/api') ? pathname.slice(4) || '/' : pathname] *)
Definition apiPathOf (pathname : string) : string :=
  if startsWith pathname "/api"
  then (if truthy (slice 4 pathname) then slice 4 pathname else "/")
  else pathname.

Fixpoint pickFrom (apiPath : string) (routes : list Route) : option string :=
  match routes with
  | [] => None
  | candidate :: rest =>
      if matchRoute (routePath candidate) apiPath
      then Some (modulePath candidate)
      else pickFrom apiPath rest
  end.

Definition pickModule (pathname : string) (routes : list Route)
  : option string :=
  pickFrom (apiPathOf pathname) routes.

(** *** Building the route table *)

(** What [readdir(dir, { withFileTypes: true })] lists: entries that are
    directories, with their own listing, and entries that are not. *)
#[warnings="-register-all"]
Inductive Dirent : Type :=
| File (name : string)
| Directory (name : string) (entries : list Dirent).

(** [Array.prototype.sort(compare)] is stable, and for a comparator that
    is consistent (here the difference of two integer keys) the stable
    ordering is unique.  Insertion from the right computes it: [x] moves
    behind [y] only when [compare(x, y) > 0]. *)
Section Sort.
Context {A : Type} (compare : A -> A -> Z).

Fixpoint insertSorted (x : A) (sorted : list A) : list A :=
  match sorted with
  | [] => [x]
  | y :: rest =>
      if (0 <? compare x y)%Z then y :: insertSorted x rest
      else x :: sorted
  end.

Fixpoint sort (items : list A) : list A :=
  match items with
  | [] => []
  | x :: rest => insertSorted x (sort rest)
  end.
End Sort.

(** Node's [path] module as the platform provides it: [path.join(a, b)]
    and [path.relative(from, to)].  Both are library functions that
    normalise their arguments in a way that depends on the platform; the
    router is read for whatever they return. *)
Record PathModule : Type := mkPathModule {
  pathJoin : string -> string -> string;
  pathRelative : string -> string -> string
}.

Section RouteTable.
(** The [path] module, and the root directory [buildRouteTable] is
    called with. *)
Variable path : PathModule.
Variable root : string.

Definition routeOfFile (absolute : string) : Route :=
  let relative :=
    replaceAll "\"%char "/"%char (pathRelative path root absolute) in
  let routePath := stripSuffix "/index" (stripSuffix ".js" relative) in
  {| routePath := routePath; modulePath := absolute |}.

(** The body of the [for] loop of [walk] for one entry; [files] is the
    array the closure pushes to, threaded through. *)
Fixpoint walkEntry (dir : string) (entry : Dirent) (files : list Route)
  : list Route :=
  match entry with
  | Directory name entries =>
      fold_left (fun files' e => walkEntry (pathJoin path dir name) e files')
                entries files
  | File name =>
      let absolute := pathJoin path dir name in
      if negb (endsWith name ".js") then files
      else if startsWith name "_" then files
      else files ++ [routeOfFile absolute]
  end.

Definition walk (dir : string) (entries : list Dirent)
           (files : list Route) : list Route :=
  fold_left (fun files' e => walkEntry dir e files') entries files.

Definition compareRoutes (a b : Route) : Z :=
  (routePriority (routePath b) - routePriority (routePath a))%Z.

(** [rootListing] is [None] when [existsSync(root)] is false and
    otherwise the tree below [root]. *)
Definition buildRouteTable (rootListing : option (list Dirent))
  : list Route :=
  match rootListing with
  | None => []
  | Some entries => sort compareRoutes (walk root entries [])
  end.
End RouteTable.

End Router.

(** ** The router as the specification words it

    These definitions follow the sentences of the specification, not the
    code; the theorems compare them with [Router]. *)

Module RouterSpec.
Import JsString Router.

(** The four shapes of a route segment. *)
Inductive SegmentKind : Type :=
| OptionalCatchAll   (* [[...name]] *)
| CatchAll           (* [...name]   *)
| Dynamic            (* [name]      *)
| Literal.

Definition kindOf (segment : string) : SegmentKind :=
  if isOptionalCatchAll segment then OptionalCatchAll
  else if isCatchAll segment then CatchAll
  else if isBracketSegment segment then Dynamic
  else Literal.



(** "the segments align": a literal equals its request segment, a
    dynamic segment takes exactly one, a catch-all takes the remaining
    request segments and needs at least one, an optional catch-all takes
    the remaining ones and accepts none; once the request segments are
    taken, what is left of the route has to match the empty rest; a
    route without catch-all ends together with the request. *)
Fixpoint segmentsAlign (route request : list string) : bool :=
  match route with
  | [] => match request with [] => true | _ :: _ => false end
  | segment :: route' =>
      match kindOf segment with
      | OptionalCatchAll => segmentsAlign route' []
      | CatchAll =>
          match request with
          | [] => false
          | _ :: _ => segmentsAlign route' []
          end
      | Dynamic =>
          match request with
          | [] => false
          | _ :: request' => segmentsAlign route' request'
          end
      | Literal =>
          match request with
          | [] => false
          | part :: request' =>
              String.eqb segment part && segmentsAlign route' request'
          end
      end
  end.

Definition isAnyCatchAll (segment : string) : bool :=
  isOptionalCatchAll segment || isCatchAll segment.

(** A catch-all of either kind occurs, if at all, as the last segment. *)
Fixpoint catchAllOnlyLast (route : list string) : bool :=
  match route with
  | [] => true
  | [_] => true
  | segment :: route' => negb (isAnyCatchAll segment) && catchAllOnlyLast route'
  end.

(** The files below a listing, each as the sequence of names that leads
    to it from the listed directory. *)
Fixpoint filesBelow (entry : Dirent) : list (list string) :=
  match entry with
  | File name => [[name]]
  | Directory name entries =>
      map (cons name) (flat_map filesBelow entries)
  end.

Definition filesUnder (entries : list Dirent) : list (list string) :=
  flat_map filesBelow entries.

(** "whose name ends in .js and does not start with an underscore" *)
Definition isRouteFile (file : list string) : bool :=
  let name := List.last file "" in
  endsWith name ".js" && negb (startsWith name "_").

(** The path of the file reached from [root] by the names [file]: each
    name joined to the directory above it. *)
Definition locate (path : PathModule) (root : string) (file : list string)
  : string :=
  fold_left (pathJoin path) file root.

(** "with backslashes replaced by forward slashes" *)
Definition slashed (text : string) : string :=
  string_of_list_ascii
    (map (fun c => if Ascii.eqb c "\" then "/"%char else c)
         (list_ascii_of_string text)).

(** [text] is some string followed by [ending]. *)
Fixpoint hasEnding (ending text : string) : bool :=
  String.eqb text ending
  || match text with
     | EmptyString => false
     | String _ rest => hasEnding ending rest
     end.

(** "the trailing [ending] removed": what stands before [ending] when
    [text] ends in it, and [text] itself when it does not. *)
Fixpoint withoutEnding (ending text : string) : string :=
  if String.eqb text ending then EmptyString
  else match text with
       | EmptyString => EmptyString
       | String c rest =>
           if hasEnding ending rest then String c (withoutEnding ending rest)
           else text
       end.

(** "the root-relative path with backslashes replaced by forward
    slashes, the trailing .js removed, and a trailing /index removed" *)
Definition routePathOfFile (path : PathModule) (root : string)
           (file : list string) : string :=
  withoutEnding "/index"
    (withoutEnding ".js"
       (slashed (pathRelative path root (locate path root file)))).

Definition routeFor (path : PathModule) (root : string) (file : list string)
  : Route :=
  {| routePath := routePathOfFile path root file;
     modulePath := locate path root file |}.

Definition expectedRoutes (path : PathModule) (root : string)
           (entries : list Dirent) : list Route :=
  map (routeFor path root) (List.filter isRouteFile (filesUnder entries)).


End RouterSpec.

(** ** Effects

    JavaScript code that reads and writes mutable state and may throw is
    rendered in a state-and-exception monad: a computation takes the
    state and returns either a value or the thrown value, with the state
    it leaves behind. *)

Module Effect.

Inductive Outcome (E A : Type) : Type :=
| Ok (value : A)
| Throws (error : E).
Arguments Ok {E A} value.
Arguments Throws {E A} error.

Definition M (S E A : Type) : Type := S -> Outcome E A * S.

#[export] Instance M_ret {S E : Type} : MRet (M S E) :=
  fun A a w => (Ok a, w).

#[export] Instance M_bind {S E : Type} : MBind (M S E) :=
  fun A B k m w =>
    match m w with
    | (Ok a, w') => k a w'
    | (Throws e, w') => (Throws e, w')
    end.

Definition throw {S E A : Type} (e : E) : M S E A := fun w => (Throws e, w).

(** [try { body } catch (error) { handler }] *)
Definition tryCatch {S E A : Type} (body : M S E A) (handler : E -> M S E A)
  : M S E A :=
  fun w =>
    match body w with
    | (Ok a, w') => (Ok a, w')
    | (Throws e, w') => handler e w'
    end.

(** An outcome the environment decides. *)
Definition lift {S E A : Type} (o : Outcome E A) : M S E A := fun w => (o, w).

End Effect.

(** ** Request headers

    [toHeaders] copies Node's [req.headers] into a WHATWG [Headers]
    object. *)

Module Headers.
Import JsString.

(** A value of Node's [IncomingHttpHeaders]: a string, an array of
    strings, or neither. *)
Inductive NodeValue : Type :=
| NodeString (value : string)
| NodeArray (values : list string)
| NodeOther.

(** [Object.entries(nodeHeaders)], in enumeration order. *)
Definition NodeHeaders : Type := list (string * NodeValue).

(** The header list of a [Headers] object.  Names compare
    case-insensitively and are delivered in lower case; the list keeps
    them in that form.  A value is stored normalized: without its leading
    and trailing HTTP whitespace. *)
Definition HeaderList : Type := list (string * string).

(** The characters of a token, the form of a header name. *)
Definition isTokenUnit (c : ascii) : bool :=
  let unit := nat_of_ascii c in
  ((97 <=? unit) && (unit <=? 122))%nat
  || ((65 <=? unit) && (unit <=? 90))%nat
  || ((48 <=? unit) && (unit <=? 57))%nat
  || existsb (Nat.eqb unit)
             [94; 95; 96; 45; 33; 35; 36; 37; 38; 39; 42; 43; 46; 124; 126]%nat.

Definition isToken (name : string) : bool :=
  truthy name && forallb isTokenUnit (list_ascii_of_string name).

(** HTTP whitespace: tab, line feed, carriage return and space. *)
Definition isHttpWhitespace (c : ascii) : bool :=
  let unit := nat_of_ascii c in
  (unit =? 9)%nat || (unit =? 10)%nat || (unit =? 13)%nat || (unit =? 32)%nat.

Fixpoint dropLeading (value : string) : string :=
  match value with
  | EmptyString => EmptyString
  | String c rest => if isHttpWhitespace c then dropLeading rest else value
  end.

Fixpoint dropTrailing (value : string) : string :=
  match value with
  | EmptyString => EmptyString
  | String c rest =>
      match dropTrailing rest with
      | EmptyString => if isHttpWhitespace c then EmptyString
                       else String c EmptyString
      | kept => String c kept
      end
  end.

(** The normalization [append] and [set] apply to a value before they
    store it.  (Both throw a TypeError for a name that is not a token and
    for a value that still holds NUL, CR or LF; the headers Node's parser
    delivers hold neither, see [accepted].) *)
Definition normalizeValue (value : string) : string :=
  dropTrailing (dropLeading value).

Definition named (name : string) (header : string * string) : bool :=
  String.eqb (fst header) (toLowerCase name).

(** [headers.has(name)] *)
Definition has (headers : HeaderList) (name : string) : bool :=
  existsb (named name) headers.

(** [headers.append(name, value)] *)
Definition append (name value : string) (headers : HeaderList) : HeaderList :=
  headers ++ [(toLowerCase name, normalizeValue value)].

(** Replace the value of the first header called [name], drop the later
    ones. *)
Fixpoint setFirst (name value : string) (headers : HeaderList) : HeaderList :=
  match headers with
  | [] => []
  | header :: rest =>
      if named name header
      then (fst header, value) :: List.filter (fun h => negb (named name h)) rest
      else header :: setFirst name value rest
  end.

(** [headers.set(name, value)] *)
Definition set (name value : string) (headers : HeaderList) : HeaderList :=
  if has headers name then setFirst name (normalizeValue value) headers
  else append name value headers.

(** The values recorded under [name], in order. *)
Definition valuesOf (headers : HeaderList) (name : string) : list string :=
  map snd (List.filter (named name) headers).

(** What joins the values of one name: a semicolon and a space for
    [cookie], a comma and a space for every other name. *)
Definition separator (name : string) : string :=
  if String.eqb (toLowerCase name) "cookie" then "; " else ", ".

(** [headers.get(name)]: the values under [name] joined by the name's
    separator, [null] when there is none. *)
Definition get (headers : HeaderList) (name : string) : option string :=
  match valuesOf headers name with
  | [] => None
  | values => Some (join (separator name) values)
  end.

(** The headers [toHeaders] drops. *)
Definition dropped (stripOrigin : bool) (lowerKey : string) : bool :=
  if String.eqb lowerKey "host" then true
  else if stripOrigin
          && (String.eqb lowerKey "origin"
              || String.eqb lowerKey "referer"
              || startsWith lowerKey "sec-fetch-")
       then true
       else false.

(** The callback of [Object.entries(nodeHeaders).forEach]. *)
Definition copyEntry (stripOrigin : bool) (headers : HeaderList)
           (entry : string * NodeValue) : HeaderList :=
  let (key, value) := entry in
  let lowerKey := toLowerCase key in
  if String.eqb lowerKey "host" then headers
  else if stripOrigin
          && (String.eqb lowerKey "origin"
              || String.eqb lowerKey "referer"
              || startsWith lowerKey "sec-fetch-")
       then headers
       else match value with
            | NodeArray values =>
                fold_left (fun h v => append key v h) values headers
            | NodeString v => set key v headers
            | NodeOther => headers
            end.

(** [options.stripOrigin === true] is the boolean [stripOrigin]. *)
Definition toHeaders (nodeHeaders : NodeHeaders) (stripOrigin : bool)
  : HeaderList :=
  fold_left (copyEntry stripOrigin) nodeHeaders [].

(** Node's HTTP parser delivers header names in lower case, each once. *)
Definition distinctNames (nodeHeaders : NodeHeaders) : Prop :=
  List.NoDup (map (fun entry => toLowerCase (fst entry)) nodeHeaders).

(** No NUL, no line feed, no carriage return. *)
Definition plainText (value : string) : bool :=
  forallb (fun c => negb ((nat_of_ascii c =? 0)%nat
                          || (nat_of_ascii c =? 10)%nat
                          || (nat_of_ascii c =? 13)%nat))
          (list_ascii_of_string value).

(** An entry [append] and [set] take without throwing: the name a token,
    no NUL and no line break in a value. *)
Definition acceptedEntry (entry : string * NodeValue) : Prop :=
  isToken (fst entry) = true
  /\ match snd entry with
     | NodeString value => plainText value = true
     | NodeArray values => forallb plainText values = true
     | NodeOther => True
     end.

(** Incoming headers as Node's parser delivers them, and more: each name
    once, whatever the case, and entries the [Headers] class accepts. *)
Definition accepted (nodeHeaders : NodeHeaders) : Prop :=
  distinctNames nodeHeaders /\ Forall acceptedEntry nodeHeaders.

Fixpoint afterWhitespace (units : list ascii) : list ascii :=
  match units with
  | [] => []
  | c :: rest => if isHttpWhitespace c then afterWhitespace rest else units
  end.

(** "without leading and trailing whitespace": the value from its first
    to its last character that is not HTTP whitespace. *)
Definition unpadded (value : string) : string :=
  string_of_list_ascii
    (rev (afterWhitespace
            (rev (afterWhitespace (list_ascii_of_string value))))).

(** What is read back under the name of an incoming entry that was
    copied: a string without the whitespace around it; the values of an
    array, each without the whitespace around it, joined by a semicolon
    and a space under the name cookie and by a comma and a space under
    any other name; nothing for an empty array. *)
Definition readBack (key : string) (value : NodeValue) : option string :=
  match value with
  | NodeString v => Some (unpadded v)
  | NodeArray [] => None
  | NodeArray values =>
      Some (join (if String.eqb (toLowerCase key) "cookie" then "; " else ", ")
                 (map unpadded values))
  | NodeOther => None
  end.

End Headers.

(** ** The sidecar server: dispatch and the cloud fallback *)

Module Sidecar.
Import JsString Router Headers Effect.

#[warnings="-register-all"]
Inductive Json : Type :=
| JNull
| JBool (b : bool)
| JNumber (n : Z)
| JString (s : string)
| JArray (items : list Json)
| JObject (fields : list (string * Json)).

(** A thrown value, by its message; [""] stands for a falsy one. *)
Definition Thrown : Type := string.

(** A response body: the text [JSON.stringify(data)], kept as its data,
    any other content, or a body that cannot be read (one already used,
    or a stream that fails) and rejects with [error]. *)
Inductive Body : Type :=
| Stringified (data : Json)
| Content (bytes : string)
| Failing (error : Thrown).

Record Response : Type := mkResponse {
  status : Z;
  responseHeaders : HeaderList;
  responseBody : Body
}.

(** [response.ok] *)
Definition ok (response : Response) : bool :=
  ((200 <=? status response) && (status response <=? 299))%Z.

(** [json(data, status)]; no caller passes [extraHeaders]. *)
Definition json (data : Json) (status : Z) : Response :=
  {| status := status;
     responseHeaders := [("content-type", "application/json")];
     responseBody := Stringified data |}.

Abbreviation Outcome := (Effect.Outcome Thrown).

(** The arguments of [new Request(url, init)] and of [fetch(url, init)]. *)
Record Request : Type := mkRequest {
  requestUrl : string;
  requestMethod : string;
  requestHeaders : HeaderList;
  requestBody : option string
}.

(** What [mod.default(request)] resolves to. *)
Inductive HandlerValue : Type :=
| IsResponse (response : Response)
| NotResponse.

(** [mod.default] of an imported module. *)
Inductive DefaultExport : Type :=
| NotFunction
| Function (handler : Request -> Outcome HandlerValue).

Record Url : Type := mkUrl {
  origin : string;
  pathname : string;
  search : string
}.

(** [requestUrl.toString()] *)
Definition href (u : Url) : string := origin u ++ pathname u ++ search u.

(** Node's [IncomingMessage], without its body stream. *)
Record IncomingMessage : Type := mkIncoming {
  rawUrl : option string;
  method : string;
  headers : NodeHeaders
}.

Record Context : Type := mkContext {
  port : Z;
  remoteBase : string;
  resourceDir : string;
  apiDir : string;
  mode : string
}.

(** Everything outside the module that a request can observe. *)
Record Env : Type := mkEnv {
  (** [existsSync(path)] *)
  existsSync : string -> bool;
  (** [await import(pathToFileURL(modulePath).href)] *)
  importModule : string -> Outcome DefaultExport;
  (** the k-th drain of the request stream by [readBody] *)
  bodyStream : nat -> Outcome (option string);
  (** [new Request(url, init)] throws on an [init] it refuses *)
  requestAccepted : Request -> bool;
  (** the global [fetch] *)
  fetch : Request -> Outcome Response;
  (** [new URL(raw, base)] *)
  parseUrl : string -> Outcome Url;
  (** [path.basename] *)
  basename : string -> string;
  (** [new Date().toISOString()] *)
  nowIso : string
}.

Inductive Event : Type :=
| Warned (message pathname reason : string)
| Errored (message detail : string)
| Fetched (call : Request)
| Invoked (modulePath : string) (request : Request).

(** The mutable state: the module-level [moduleCache], how often the
    request stream was drained, and the trace of outside effects. *)
Record World : Type := mkWorld {
  moduleCache : gmap string DefaultExport;
  bodyReads : nat;
  log : list Event
}.

(** Computations that read and write the world and may throw. *)
Abbreviation M := (Effect.M World Thrown).

Definition emit (event : Event) : M unit :=
  fun w => (Ok tt, {| moduleCache := moduleCache w;
                      bodyReads := bodyReads w;
                      log := log w ++ [event] |}).

Section Server.
Variable env : Env.
Variable context : Context.

(** [readBody(req)] *)
Definition readBody : M (option string) :=
  fun w => (bodyStream env (bodyReads w),
            {| moduleCache := moduleCache w;
               bodyReads := S (bodyReads w);
               log := log w |}).

(** [['GET', 'HEAD'].includes(req.method) ? undefined : await readBody(req)] *)
Definition bodyFor (req : IncomingMessage) : M (option string) :=
  if String.eqb (method req) "GET" || String.eqb (method req) "HEAD"
  then mret None
  else readBody.

Definition callFetch (call : Request) : M Response :=
  _ ← emit (Fetched call); lift (fetch env call).

Definition proxyToCloud (requestUrl : Url) (req : IncomingMessage)
           (remoteBase : string) : M Response :=
  let target := (remoteBase ++ pathname requestUrl ++ search requestUrl)%string in
  body ← bodyFor req;
  callFetch {| requestUrl := target;
               requestMethod := method req;
               requestHeaders := toHeaders (headers req) true;
               requestBody := body |}.

Definition importHandler (modulePath : string) : M DefaultExport :=
  fun w =>
    match moduleCache w !! modulePath with
    | Some cached => (Ok cached, w)
    | None =>
        match importModule env modulePath with
        | Ok module =>
            (Ok module, {| moduleCache := <[modulePath := module]> (moduleCache w);
                           bodyReads := bodyReads w;
                           log := log w |})
        | Throws e => (Throws e, w)
        end
    end.

Definition handleLocalServiceStatus : M Response :=
  mret (json
    (JObject
       [("success", JBool true);
        ("timestamp", JString (nowIso env));
        ("summary", JObject [("operational", JNumber 2); ("degraded", JNumber 0);
                             ("outage", JNumber 0); ("unknown", JNumber 0)]);
        ("services", JArray
           [JObject [("id", JString "local-api");
                     ("name", JString "Local Desktop API");
                     ("category", JString "dev");
                     ("status", JString "operational");
                     ("description", JString ("Running on 127.0.0.1:" ++ pretty (port context)))];
            JObject [("id", JString "cloud-pass-through");
                     ("name", JString "Cloud pass-through");
                     ("category", JString "cloud");
                     ("status", JString "operational");
                     ("description", JString ("Fallback target " ++ remoteBase context))]]);
        ("local", JObject [("enabled", JBool true);
                           ("mode", JString (mode context));
                           ("port", JNumber (port context));
                           ("remoteBase", JString (remoteBase context))])])
    200).

(** [tryCloudFallback]: never throws; [None] is its [null]. *)
Definition tryCloudFallback (requestUrl : Url) (req : IncomingMessage)
           (reason : string) : M (option Response) :=
  _ ← (if truthy reason
       then emit (Warned "[local-api] local route fallback to cloud"
                         (pathname requestUrl) reason)
       else mret tt);
  tryCatch
    (response ← proxyToCloud requestUrl req (remoteBase context);
     mret (Some response))
    (fun error =>
       _ ← emit (Errored "[local-api] cloud fallback failed" error);
       mret None).

(** [new Request(requestUrl.toString(), init)] *)
Definition newRequest (init : Request) : M Request :=
  if requestAccepted env init then mret init
  else throw "TypeError".

Definition callHandler (modulePath : string)
           (handler : Request -> Outcome HandlerValue) (request : Request)
  : M HandlerValue :=
  _ ← emit (Invoked modulePath request); lift (handler request).

Definition errorBody (message : string) : Json :=
  JObject [("error", JString message)].

(** [if (cloudResponse) return cloudResponse; return fallback;] *)
Definition orElse (cloudResponse : option Response) (fallback : Response)
  : Response :=
  match cloudResponse with
  | Some response => response
  | None => fallback
  end.

(** The cloud's response when the proxy call succeeded, else [fallback]. *)
Definition cloudOr (proxy : Outcome Response) (fallback : Response)
  : Outcome Response :=
  match proxy with
  | Ok response => Ok response
  | Throws _ => Ok fallback
  end.

(** The [try] block of [dispatch]. *)
Definition runLocal (requestUrl : Url) (req : IncomingMessage)
           (modulePath : string) : M Response :=
  module ← importHandler modulePath;
  match module with
  | NotFunction =>
      cloudResponse ← tryCloudFallback requestUrl req
        ("invalid handler module " ++ basename env modulePath);
      mret (orElse cloudResponse
              (json (errorBody ("Invalid handler module: "
                                ++ basename env modulePath)) 500))
  | Function handler =>
      body ← bodyFor req;
      request ← newRequest {| requestUrl := href requestUrl;
                              requestMethod := method req;
                              requestHeaders := toHeaders (headers req) true;
                              requestBody := body |};
      response ← callHandler modulePath handler request;
      match response with
      | NotResponse =>
          cloudResponse ← tryCloudFallback requestUrl req
            "handler returned non-Response";
          mret (orElse cloudResponse
                  (json (errorBody ("Handler returned invalid response for "
                                    ++ pathname requestUrl)) 500))
      | IsResponse response =>
          if negb (ok response) then
            cloudResponse ← tryCloudFallback requestUrl req
              ("local status " ++ pretty (status response));
            mret (orElse cloudResponse response)
          else mret response
      end
  end.

Definition dispatch (requestUrl : Url) (req : IncomingMessage)
           (routes : list Route) : M Response :=
  if String.eqb (pathname requestUrl) "/api/service-status" then
    handleLocalServiceStatus
  else if String.eqb (pathname requestUrl) "/api/local-status" then
    mret (json
      (JObject [("success", JBool true);
                ("mode", JString (mode context));
                ("port", JNumber (port context));
                ("apiDir", JString (apiDir context));
                ("remoteBase", JString (remoteBase context));
                ("routes", JNumber (Z.of_nat (length routes)))])
      200)
  else
    let modulePath := pickModule (pathname requestUrl) routes in
    match modulePath with
    | Some path =>
        if negb (truthy path) || negb (existsSync env path) then
          cloudResponse ← tryCloudFallback requestUrl req "handler missing";
          mret (orElse cloudResponse
                  (json (errorBody
                     "Local handler missing and cloud fallback unavailable") 502))
        else
          tryCatch (runLocal requestUrl req path)
            (fun error =>
               cloudResponse ← tryCloudFallback requestUrl req error;
               mret (orElse cloudResponse
                       (json (errorBody
                          "Local handler failed and cloud fallback unavailable")
                          502)))
    | None =>
        cloudResponse ← tryCloudFallback requestUrl req "handler missing";
        mret (orElse cloudResponse
                (json (errorBody
                   "Local handler missing and cloud fallback unavailable") 502))
    end.

(** What the request listener writes with [res.writeHead] and [res.end]:
    the status, the headers object (a property per name) and the body. *)
Record Reply : Type := mkReply {
  replyStatus : Z;
  replyHeaders : gmap string string;
  replyBody : Body
}.

(** [req.url || '/'] *)
Definition rawOf (req : IncomingMessage) : string :=
  match rawUrl req with
  | Some u => if truthy u then u else "/"
  | None => "/"
  end.

(** [await response.arrayBuffer()] *)
Definition arrayBuffer (response : Response) : M Body :=
  match responseBody response with
  | Failing error => throw error
  | body => mret body
  end.

(** The values a header list holds under a name as it is stored. *)
Definition stored (headers : HeaderList) (name : string) : list string :=
  map snd (List.filter (fun header => String.eqb (fst header) name) headers).

Fixpoint insertName (name : string) (names : list string) : list string :=
  match names with
  | [] => [name]
  | other :: rest =>
      if String.leb name other then name :: names
      else other :: insertName name rest
  end.

(** The names of a header list, each once, sorted. *)
Definition sortedNames (headers : HeaderList) : list string :=
  fold_right insertName [] (nodup String.string_dec (map fst headers)).

(** [headers.entries()]: the names in sorted order, each with its values
    joined, but for [set-cookie], whose values come one by one. *)
Definition entries (headers : HeaderList) : list (string * string) :=
  flat_map
    (fun name =>
       if String.eqb name "set-cookie"
       then map (pair name) (stored headers name)
       else [(name, join (separator name) (stored headers name))])
    (sortedNames headers).

(** [Object.fromEntries(pairs)]: a later pair replaces an earlier one of
    the same name. *)
Definition fromEntries (pairs : list (string * string)) : gmap string string :=
  fold_left (fun object pair => <[fst pair := snd pair]> object) pairs ∅.

(** The characters of a header value Node accepts: the tab and whatever
    is not a control character. *)
Definition isFieldUnit (c : ascii) : bool :=
  let unit := nat_of_ascii c in
  (unit =? 9)%nat || ((32 <=? unit) && (unit <=? 126))%nat || (128 <=? unit)%nat.

Definition isFieldText (value : string) : bool :=
  forallb isFieldUnit (list_ascii_of_string value).

(** [res.writeHead(status, headers)]: a RangeError for a status outside
    100..999, a TypeError for a name or a value Node refuses. *)
Definition writeHead (status : Z) (headers : gmap string string) : M unit :=
  if ((status <? 100) || (999 <? status))%Z then throw "RangeError"
  else if forallb (fun header => isToken (fst header) && isFieldText (snd header))
                  (map_to_list headers)
       then mret tt
       else throw "TypeError".

(** The listener passed to [createServer]. *)
Definition listener (routes : list Route) (req : IncomingMessage) : M Reply :=
  requestUrl ← lift (parseUrl env (rawOf req));
  if negb (startsWith (pathname requestUrl) "/api/") then
    mret {| replyStatus := 404;
            replyHeaders := {[ "content-type" := "application/json" ]};
            replyBody := Stringified (JObject [("error", JString "Not found")]) |}
  else
    tryCatch
      (response ← dispatch requestUrl req routes;
       body ← arrayBuffer response;
       let headers := fromEntries (entries (responseHeaders response)) in
       _ ← writeHead (status response) headers;
       mret {| replyStatus := status response;
               replyHeaders := headers;
               replyBody := body |})
      (fun error =>
         _ ← emit (Errored "[local-api] fatal" error);
         mret {| replyStatus := 500;
                 replyHeaders := {[ "content-type" := "application/json" ]};
                 replyBody := Stringified
                                (JObject [("error",
                                           JString "Internal server error")]) |}).

(** *** What a run observes

    The outcome of the proxy call, read off the environment: [reads] is
    the number of earlier drains of the request stream. *)

Definition isGetOrHead (req : IncomingMessage) : bool :=
  String.eqb (method req) "GET" || String.eqb (method req) "HEAD".

Definition cloudCall (requestUrl : Url) (req : IncomingMessage)
           (body : option string) : Request :=
  {| requestUrl := remoteBase context ++ pathname requestUrl ++ search requestUrl;
     requestMethod := method req;
     requestHeaders := toHeaders (headers req) true;
     requestBody := body |}.

(** The body [proxyToCloud] forwards. *)
Definition proxyBody (req : IncomingMessage) (reads : nat)
  : Outcome (option string) :=
  if isGetOrHead req then Ok None else bodyStream env reads.

Definition proxyOutcome (requestUrl : Url) (req : IncomingMessage)
           (reads : nat) : Outcome Response :=
  match proxyBody req reads with
  | Ok body => fetch env (cloudCall requestUrl req body)
  | Throws e => Throws e
  end.

(** The request a local handler is called with. *)
Definition localRequest (requestUrl : Url) (req : IncomingMessage)
           (body : option string) : Request :=
  {| requestUrl := href requestUrl;
     requestMethod := method req;
     requestHeaders := toHeaders (headers req) true;
     requestBody := body |}.

(** [dispatch] reaches [pickModule]: the path is not a built-in
    endpoint. *)
Definition routed (requestUrl : Url) : Prop :=
  pathname requestUrl <> "/api/service-status"
  /\ pathname requestUrl <> "/api/local-status".

(** The handler of [modulePath] is reached and runs on [request]: the
    file exists, its module loads with a function as default export, the
    body is read and the request is built. *)
Definition handlerRuns (requestUrl : Url) (req : IncomingMessage)
           (routes : list Route) (w : World) (modulePath : string)
           (handler : Request -> Outcome HandlerValue) (request : Request)
  : Prop :=
  routed requestUrl
  /\ pickModule (pathname requestUrl) routes = Some modulePath
  /\ modulePath <> ""
  /\ existsSync env modulePath = true
  /\ fst (importHandler modulePath w) = Ok (Function handler)
  /\ (exists body, fst (bodyFor req w) = Ok body
                   /\ request = localRequest requestUrl req body)
  /\ requestAccepted env request = true.

(** The drains of the request stream once the local handler has its
    body. *)
Definition readsAfterLocal (req : IncomingMessage) (w : World) : nat :=
  if isGetOrHead req then bodyReads w else S (bodyReads w).

(** An event forwards the request with the headers [toHeaders] built
    with [stripOrigin]. *)
Definition forwardsStripped (req : IncomingMessage) (event : Event) : Prop :=
  match event with
  | Fetched call => requestHeaders call = toHeaders (headers req) true
  | Invoked _ request => requestHeaders request = toHeaders (headers req) true
  | _ => True
  end.

Definition isForward (event : Event) : bool :=
  match event with
  | Fetched _ | Invoked _ _ => true
  | _ => false
  end.

End Server.

(** [data.key] of a JSON object. *)
Definition field (key : string) (data : Json) : option Json :=
  match data with
  | JObject fields =>
      option_map snd (find (fun kv => String.eqb (fst kv) key) fields)
  | _ => None
  end.

End Sidecar.

(** ** The runtime fetch patch (browser side) *)

Module Runtime.
Import JsString Effect.

Definition DEFAULT_LOCAL_API_BASE : string := "http://127.0.0.1:46123".

(** [import.meta.env]; an unset variable is [None]. *)
Record BuildEnv : Type := mkBuildEnv {
  VITE_DESKTOP_RUNTIME : option string;
  VITE_TAURI_API_BASE_URL : option string;
  VITE_TAURI_REMOTE_API_BASE_URL : option string;
  VITE_VARIANT : option string
}.

Definition FORCE_DESKTOP_RUNTIME (build : BuildEnv) : bool :=
  match VITE_DESKTOP_RUNTIME build with
  | Some v => String.eqb v "1"
  | None => false
  end.

Definition normalizeBaseUrl (baseUrl : string) : string :=
  stripSuffix "/" baseUrl.

Record RuntimeProbe : Type := mkProbe {
  hasTauriGlobals : bool;
  userAgent : string;
  locationProtocol : string;
  locationHost : string;
  locationOrigin : string
}.

(** [s.includes(sub)] *)
Fixpoint includes (s sub : string) : bool :=
  startsWith s sub
  || match s with
     | EmptyString => false
     | String _ rest => includes rest sub
     end.

Definition detectDesktopRuntime (probe : RuntimeProbe) : bool :=
  let tauriInUserAgent := includes (userAgent probe) "Tauri" in
  let secureLocalhostOrigin :=
    String.eqb (locationProtocol probe) "https:"
    && (String.eqb (locationHost probe) "localhost"
        || startsWith (locationHost probe) "localhost:"
        || String.eqb (locationHost probe) "127.0.0.1"
        || startsWith (locationHost probe) "127.0.0.1:") in
  let tauriLikeLocation :=
    String.eqb (locationProtocol probe) "tauri:"
    || String.eqb (locationProtocol probe) "asset:"
    || String.eqb (locationHost probe) "tauri.localhost"
    || endsWith (locationHost probe) ".tauri.localhost"
    || startsWith (locationOrigin probe) "tauri://"
    || secureLocalhostOrigin in
  hasTauriGlobals probe || tauriInUserAgent || tauriLikeLocation.

(** The function [window.fetch] holds: the browser's own, or the closure
    the patch installs, which captured the function it replaced and the
    two base URLs.  The closure reads [remoteBase] in a template literal
    only; it is kept as the text that literal gives. *)
Inductive FetchImpl : Type :=
| Native
| Patched (nativeFetch : FetchImpl) (localBase remoteBase : string).

(** What [getRemoteApiBaseUrl] returns: a string, or, when the variant
    names a member every object inherits, that member of
    [Object.prototype]. *)
Inductive Value : Type :=
| Text (text : string)
| Member (name : string).

(** The parts of [window] the module reads and writes; a property that
    is missing is [None]. *)
Record Window : Type := mkWindow {
  tauriInternals : bool;
  tauriGlobal : bool;
  navigatorUserAgent : option string;
  protocol : option string;
  host : option string;
  locationOriginOf : option string;
  windowFetch : FetchImpl;
  wmFetchPatched : bool;
  (** the text of [Object.prototype[name]] in a template literal *)
  memberText : string -> string
}.

(** [`${value}`] *)
Definition textOf (w : Window) (value : Value) : string :=
  match value with
  | Text text => text
  | Member name => memberText w name
  end.

(** [value ?? ''] *)
Definition orEmpty (value : option string) : string :=
  match value with Some v => v | None => "" end.

(** [window] is [None] when [typeof window === 'undefined']. *)
Definition isDesktopRuntime (build : BuildEnv) (window : option Window) : bool :=
  if FORCE_DESKTOP_RUNTIME build then true
  else match window with
       | None => false
       | Some w =>
           detectDesktopRuntime
             {| hasTauriGlobals := tauriInternals w || tauriGlobal w;
                userAgent := orEmpty (navigatorUserAgent w);
                locationProtocol := orEmpty (protocol w);
                locationHost := orEmpty (host w);
                locationOrigin := orEmpty (locationOriginOf w) |}
       end.

(** A configured value is used when it is truthy. *)
Definition configured (value : option string) : option string :=
  match value with
  | Some v => if truthy v then Some v else None
  | None => None
  end.

Definition getApiBaseUrl (build : BuildEnv) (window : option Window) : string :=
  if negb (isDesktopRuntime build window) then ""
  else match configured (VITE_TAURI_API_BASE_URL build) with
       | Some configuredBaseUrl => normalizeBaseUrl configuredBaseUrl
       | None => DEFAULT_LOCAL_API_BASE
       end.

(** The names an object literal answers for without holding them. *)
Definition objectPrototypeMembers : list string :=
  ["constructor"; "hasOwnProperty"; "isPrototypeOf"; "propertyIsEnumerable";
   "toLocaleString"; "toString"; "valueOf"; "__proto__";
   "__defineGetter__"; "__defineSetter__"; "__lookupGetter__";
   "__lookupSetter__"].

(** [DEFAULT_REMOTE_HOSTS[variant]]; [None] is [undefined]. *)
Definition DEFAULT_REMOTE_HOSTS (variant : string) : option Value :=
  if String.eqb variant "tech" then Some (Text "https://tech.worldmonitor.app")
  else if String.eqb variant "full" then Some (Text "https://worldmonitor.app")
  else if String.eqb variant "world" then Some (Text "https://worldmonitor.app")
  else if existsb (String.eqb variant) objectPrototypeMembers
       then Some (Member variant)
       else None.

Definition getRemoteApiBaseUrl (build : BuildEnv) : Value :=
  match configured (VITE_TAURI_REMOTE_API_BASE_URL build) with
  | Some configuredRemoteBase => Text (normalizeBaseUrl configuredRemoteBase)
  | None =>
      let variant := match configured (VITE_VARIANT build) with
                     | Some v => v
                     | None => "world"
                     end in
      match DEFAULT_REMOTE_HOSTS variant with
      | Some remote => remote
      | None => match DEFAULT_REMOTE_HOSTS "world" with
                | Some remote => remote
                | None => Text "https://worldmonitor.app"
                end
      end
  end.

Definition installRuntimeFetchPatch (build : BuildEnv) (window : option Window)
  : option Window :=
  if negb (isDesktopRuntime build window) then window
  else match window with
       | None => None
       | Some w =>
           if wmFetchPatched w then window
           else
             let nativeFetch := windowFetch w in
             let localBase := getApiBaseUrl build window in
             let remoteBase := getRemoteApiBaseUrl build in
             Some {| tauriInternals := tauriInternals w;
                     tauriGlobal := tauriGlobal w;
                     navigatorUserAgent := navigatorUserAgent w;
                     protocol := protocol w;
                     host := host w;
                     locationOriginOf := locationOriginOf w;
                     windowFetch :=
                       Patched nativeFetch localBase (textOf w remoteBase);
                     wmFetchPatched := true;
                     memberText := memberText w |}
       end.

(** *** Calling [window.fetch] *)

(** [RequestInfo | URL]: a string, a [URL] by its path and query, or a
    [Request] by its [url]. *)
Inductive RequestInfo : Type :=
| InString (input : string)
| InUrl (pathname search : string)
| InRequest (url : string).

(** [RequestInit]: whether it carries a [signal], and the rest. *)
Record RequestInit : Type := mkInit {
  hasSignal : bool;
  options : string
}.

Record Response : Type := mkResponse {
  ok : bool;
  content : string
}.

(** A thrown value is an [Error] or something else. *)
Inductive Thrown : Type :=
| ErrorObject (message : string)
| OtherValue (description : string).

Inductive Event : Type :=
| Called (input : RequestInfo) (init : option RequestInit)
| Slept (ms : nat)
| ConsoleWarn (message : string).

(** The browser's side: what the network answers to the k-th call, whether
    the caller's signal has aborted by then, and [new URL(s)] as the path
    and query it yields, [None] when it throws. *)
Record Browser : Type := mkBrowser {
  network : nat -> RequestInfo -> option RequestInit ->
            Effect.Outcome Thrown Response;
  signalAborted : nat -> bool;
  parseUrl : string -> option (string * string)
}.

Record World : Type := mkWorld {
  calls : nat;
  log : list Event
}.

Abbreviation M := (Effect.M World Thrown).

Definition emit (event : Event) : M unit :=
  fun w => (Ok tt, {| calls := calls w; log := log w ++ [event] |}).

Section Fetching.
Variable browser : Browser.

(** The browser's own [fetch]. *)
Definition callNative (input : RequestInfo) (init : option RequestInit)
  : M Response :=
  fun w => (network browser (calls w) input init,
            {| calls := S (calls w); log := log w ++ [Called input init] |}).

(** [init?.signal?.aborted] *)
Definition aborted (init : option RequestInit) : M bool :=
  fun w => (Ok (match init with
                | Some i => hasSignal i && signalAborted browser (calls w)
                | None => false
                end), w).

Definition target_of (parsed : option (string * string)) : option string :=
  match parsed with
  | Some (pathname, search) => Some (pathname ++ search)%string
  | None => None
  end.

Definition getApiTargetFromRequestInput (input : RequestInfo) : option string :=
  match input with
  | InString s =>
      if startsWith s "/" then Some s else target_of (parseUrl browser s)
  | InUrl pathname search => Some (pathname ++ search)%string
  | InRequest url => target_of (parseUrl browser url)
  end.

Definition maxAttempts : nat := 4.

(** The [for] loop of [fetchLocalWithStartupRetry] from [attempt] on,
    with [remaining] iterations left. *)
Fixpoint attemptsFrom (nativeFetch : RequestInfo -> option RequestInit -> M Response)
         (localUrl : string) (init : option RequestInit)
         (remaining attempt : nat) : M Response :=
  match remaining with
  | O => throw (ErrorObject "Local API unavailable")
  | S remaining' =>
      tryCatch (nativeFetch (InString localUrl) init)
        (fun error =>
           isAborted ← aborted init;
           if (isAborted : bool) then throw error
           else if (attempt =? maxAttempts)%nat then
             throw (match error with
                    | ErrorObject _ => error
                    | OtherValue _ => ErrorObject "Local API unavailable"
                    end)
           else
             _ ← emit (Slept (125 * attempt));
             attemptsFrom nativeFetch localUrl init remaining' (attempt + 1))
  end.

Definition fetchLocalWithStartupRetry
           (nativeFetch : RequestInfo -> option RequestInit -> M Response)
           (localUrl : string) (init : option RequestInit) : M Response :=
  attemptsFrom nativeFetch localUrl init maxAttempts 1.

(** [target?.startsWith('/api/')], falsy on a missing target. *)
Definition isApiTarget (target : option string) : bool :=
  match target with
  | Some t => startsWith t "/api/"
  | None => false
  end.

(** The closure [installRuntimeFetchPatch] assigns to [window.fetch]. *)
Definition patchedFetch
           (nativeFetch : RequestInfo -> option RequestInit -> M Response)
           (localBase remoteBase : string)
           (input : RequestInfo) (init : option RequestInit) : M Response :=
  let target := getApiTargetFromRequestInput input in
  if negb (isApiTarget target) then nativeFetch input init
  else
    let localUrl := (localBase ++ orEmpty target)%string in
    let remoteUrl := (remoteBase ++ orEmpty target)%string in
    tryCatch
      (localResponse ← fetchLocalWithStartupRetry nativeFetch localUrl init;
       if ok localResponse then mret localResponse
       else
         remote ← tryCatch
                    (remoteResponse ← nativeFetch (InString remoteUrl) init;
                     mret (if ok remoteResponse then Some remoteResponse
                           else None))
                    (fun remoteError =>
                       _ ← emit (ConsoleWarn "[runtime] Remote API fallback failed");
                       mret None);
         match remote with
         | Some remoteResponse => mret remoteResponse
         | None => mret localResponse
         end)
      (fun error =>
         _ ← emit (ConsoleWarn "[runtime] Local API fetch failed, falling back to cloud");
         nativeFetch (InString remoteUrl) init).

(** Calling whatever [window.fetch] holds. *)
Fixpoint runFetch (impl : FetchImpl)
  : RequestInfo -> option RequestInit -> M Response :=
  match impl with
  | Native => callNative
  | Patched nativeFetch localBase remoteBase =>
      patchedFetch (runFetch nativeFetch) localBase remoteBase
  end.

End Fetching.

End Runtime.

(** ** Time values

    The date arithmetic of ECMAScript that [getCounterValue] goes
    through: [getUTCFullYear], [getUTCMonth] and [getUTCDate] are
    [YearFromTime], [MonthFromTime] and [DateFromTime] of the time value,
    and [Date.UTC] rebuilds a time value with [MakeDay] and [MakeDate].
    A time value is an integral number of milliseconds since the epoch,
    of magnitude at most 8.64e15. *)

Module TimeValue.
Local Open Scope Z_scope.

Definition msPerDay : Z := 86400000.
Definition maxTime : Z := 8640000000000000.

Definition Day (t : Z) : Z := t / msPerDay.

Definition DaysInYear (y : Z) : Z :=
  if negb (y mod 4 =? 0) then 365
  else if negb (y mod 100 =? 0) then 366
  else if negb (y mod 400 =? 0) then 365
  else 366.

Definition DayFromYear (y : Z) : Z :=
  365 * (y - 1970) + (y - 1969) / 4 - (y - 1901) / 100 + (y - 1601) / 400.

(** The largest [y] whose first day is not after [t]: the estimate from
    the mean length of a year is off by at most one. *)
Definition YearFromTime (t : Z) : Z :=
  let day := Day t in
  let estimate := 1970 + (400 * day) / 146097 in
  if day <? DayFromYear estimate then estimate - 1
  else if DayFromYear (estimate + 1) <=? day then estimate + 1
  else estimate.

(** 1 in a leap year, 0 otherwise. *)
Definition leapOf (y : Z) : Z := if DaysInYear y =? 366 then 1 else 0.

Definition InLeapYear (t : Z) : Z := leapOf (YearFromTime t).

Definition DayWithinYear (t : Z) : Z := Day t - DayFromYear (YearFromTime t).

(** The table of [MonthFromTime], on the day within the year. *)
Definition monthOf (d leap : Z) : Z :=
  if d <? 31 then 0
  else if d <? 59 + leap then 1
  else if d <? 90 + leap then 2
  else if d <? 120 + leap then 3
  else if d <? 151 + leap then 4
  else if d <? 181 + leap then 5
  else if d <? 212 + leap then 6
  else if d <? 243 + leap then 7
  else if d <? 273 + leap then 8
  else if d <? 304 + leap then 9
  else if d <? 334 + leap then 10
  else 11.

Definition MonthFromTime (t : Z) : Z :=
  monthOf (DayWithinYear t) (InLeapYear t).

(** The table of [DateFromTime]. *)
Definition dateOf (month d leap : Z) : Z :=
  match month with
  | 0 => d + 1
  | 1 => d - 30
  | 2 => d - 58 - leap
  | 3 => d - 89 - leap
  | 4 => d - 119 - leap
  | 5 => d - 150 - leap
  | 6 => d - 180 - leap
  | 7 => d - 211 - leap
  | 8 => d - 242 - leap
  | 9 => d - 272 - leap
  | 10 => d - 303 - leap
  | _ => d - 333 - leap
  end.

Definition DateFromTime (t : Z) : Z :=
  dateOf (MonthFromTime t) (DayWithinYear t) (InLeapYear t).

(** The day within the year on which month [mn] starts. *)
Definition monthStart (leap mn : Z) : Z :=
  match mn with
  | 0 => 0
  | 1 => 31
  | 2 => 59 + leap
  | 3 => 90 + leap
  | 4 => 120 + leap
  | 5 => 151 + leap
  | 6 => 181 + leap
  | 7 => 212 + leap
  | 8 => 243 + leap
  | 9 => 273 + leap
  | 10 => 304 + leap
  | _ => 334 + leap
  end.

(** [MakeDay]: the day number of the first day of month [mn] of year
    [ym], then the date. *)
Definition firstDayOfMonth (ym mn : Z) : Z :=
  DayFromYear ym + monthStart (leapOf ym) mn.

Definition MakeDay (year month date : Z) : Z :=
  let ym := year + month / 12 in
  let mn := month mod 12 in
  firstDayOfMonth ym mn + date - 1.

Definition MakeDate (day time : Z) : Z := day * msPerDay + time.

(** [TimeClip]: [None] is [NaN]. *)
Definition TimeClip (t : Z) : option Z :=
  if Z.abs t <=? maxTime then Some t else None.

(** [Date.UTC(year, month, date)] for integral arguments. *)
Definition DateUTC (year month date : Z) : option Z :=
  let yr := if (0 <=? year) && (year <=? 99) then 1900 + year else year in
  TimeClip (MakeDate (MakeDay yr month date) 0).

(** "the most recent midnight UTC" before the instant [t]. *)
Definition lastMidnightUTC (t : Z) : Z := msPerDay * (t / msPerDay).

End TimeValue.

(** ** The humanity counters

    A JavaScript number is an IEEE 754 binary64 value, and so is a
    primitive [float]; the arithmetic operators round to nearest, ties
    to even, on both sides. *)

Module Counters.
Import TimeValue.

Record CounterMetric : Type := mkMetric {
  id : string;
  label : string;
  annualTotal : float;
  source : string;
  perSecondRate : float;
  icon : string;
  formatPrecision : Z
}.

Definition SECONDS_PER_YEAR : float := 31536000%float.

Definition COUNTER_METRICS : list CounterMetric :=
  [ {| id := "births";
       label := "Babies Born Today";
       annualTotal := 135600000%float;
       source := "UN Population Division";
       perSecondRate := (135600000 / SECONDS_PER_YEAR)%float;
       icon := "👶";
       formatPrecision := 0 |};
    {| id := "trees";
       label := "Trees Planted Today";
       annualTotal := 15300000000%float;
       source := "Global Forest Watch / FAO";
       perSecondRate := (15300000000 / SECONDS_PER_YEAR)%float;
       icon := "🌳";
       formatPrecision := 0 |};
    {| id := "vaccines";
       label := "Vaccines Administered Today";
       annualTotal := 4600000000%float;
       source := "WHO / UNICEF";
       perSecondRate := (4600000000 / SECONDS_PER_YEAR)%float;
       icon := "💉";
       formatPrecision := 0 |};
    {| id := "graduates";
       label := "Students Graduated Today";
       annualTotal := 70000000%float;
       source := "UNESCO Institute for Statistics";
       perSecondRate := (70000000 / SECONDS_PER_YEAR)%float;
       icon := "🎓";
       formatPrecision := 0 |};
    {| id := "books";
       label := "Books Published Today";
       annualTotal := 2200000%float;
       source := "UNESCO / Bowker";
       perSecondRate := (2200000 / SECONDS_PER_YEAR)%float;
       icon := "📚";
       formatPrecision := 0 |};
    {| id := "renewable";
       label := "Renewable MW Installed Today";
       annualTotal := 510000%float;
       source := "IRENA / IEA";
       perSecondRate := (510000 / SECONDS_PER_YEAR)%float;
       icon := "⚡";
       formatPrecision := 2 |} ].

(** The number with the integral value [z], rounded to nearest when
    [z] has more than 53 bits. *)
Definition numberOfZ (z : Z) : float :=
  if (z <? 0)%Z then (- of_uint63 (Uint63.of_Z (- z)))%float
  else of_uint63 (Uint63.of_Z z).

(** [now.getTime() - midnightUTC.getTime()]: both are integral time
    values, so the difference of the numbers is the rounded difference of
    the integers; an invalid date has the time value [NaN]. *)
Definition elapsedMs (now : Z) (midnightUTC : option Z) : float :=
  match midnightUTC with
  | Some midnight => numberOfZ (now - midnight)
  | None => nan
  end.

(** [getCounterValue(metric)] when [new Date()] has the time value
    [now]. *)
Definition getCounterValue (metric : CounterMetric) (now : Z) : float :=
  let midnightUTC :=
    match DateUTC (YearFromTime now) (MonthFromTime now) (DateFromTime now) with
    | Some value => TimeClip value
    | None => None
    end in
  let elapsedSeconds := (elapsedMs now midnightUTC / 1000)%float in
  (perSecondRate metric * elapsedSeconds)%float.

(** [new Date()] reads the system clock, which counts from the epoch.
    (Before the year 100 [Date.UTC] would not give the day back: it reads
    the years 0 to 99 as 1900 to 1999.) *)
Definition wallClock (now : Z) : Prop := (0 <= now <= maxTime)%Z.

End Counters.

(** ** A sample installation

    A small api directory, a desktop request and environments in which
    the cloud answers or is unreachable; the theorems are exercised on
    them. *)

Module Scenario.
Import JsString Router Headers Effect Sidecar.

Definition context : Context :=
  {| port := 46123;
     remoteBase := "https://worldmonitor.app";
     resourceDir := "/app";
     apiDir := "/app/api";
     mode := "desktop-sidecar" |}.

Definition apiTree : list Dirent :=
  [File "rss-proxy.js";
   File "_cors.js";
   Directory "youtube" [File "embed.js"; File "embed.test.mjs"];
   Directory "news" [File "index.js"; File "[id].js"; File "[...rest].js"]].

(** [dir] followed by one separator, the one it ends in when it has
    one. *)
Definition withSeparator (separator dir : string) : string :=
  if endsWith dir separator then dir else (dir ++ separator)%string.

(** [path.join] and [path.relative] of a POSIX and of a Windows
    platform, on the paths of the samples: an absolute directory, given
    with or without a separator at its end, and the names below it. *)
Definition posix : PathModule :=
  {| pathJoin := fun dir name => (withSeparator "/" dir ++ name)%string;
     pathRelative := fun from to => stripPrefix (withSeparator "/" from) to |}.

Definition win32 : PathModule :=
  {| pathJoin := fun dir name => (withSeparator "\" dir ++ name)%string;
     pathRelative := fun from to => stripPrefix (withSeparator "\" from) to |}.

Definition routes : list Route :=
  buildRouteTable posix "/app/api" (Some apiTree).

Definition cloudAnswer : Response :=
  {| status := 200;
     responseHeaders := [("content-type", "application/json")];
     responseBody := Content "{}" |}.

Definition keyMissing : Response :=
  {| status := 401;
     responseHeaders := [("content-type", "application/json")];
     responseBody := Content "{}" |}.

Definition env (module : DefaultExport) (cloud : Outcome Response) : Env :=
  {| existsSync := fun path => negb (String.eqb path "/app/api/youtube/embed.js");
     importModule := fun _ => Ok module;
     bodyStream := fun _ => Ok None;
     requestAccepted := fun _ => true;
     fetch := fun _ => cloud;
     parseUrl := fun raw => Ok {| origin := "http://127.0.0.1:46123";
                                  pathname := raw;
                                  search := "" |};
     basename := fun path => List.last (split "/"%char path) "";
     nowIso := "2026-01-01T00:00:00.000Z" |}.

Definition browserHeaders : NodeHeaders :=
  [("host", NodeString "127.0.0.1:46123");
   ("accept", NodeString "*/*");
   ("origin", NodeString "tauri://localhost");
   ("sec-fetch-mode", NodeString "cors");
   ("cookie", NodeString "a=1; b=2")].

Definition request (path : string) : IncomingMessage :=
  {| rawUrl := Some path; method := "GET"; headers := browserHeaders |}.

Definition urlOf (path : string) : Url :=
  {| origin := "http://127.0.0.1:46123"; pathname := path; search := "" |}.

Definition idle : World :=
  {| moduleCache := ∅; bodyReads := 0; log := [] |}.

Definition answers (value : Outcome HandlerValue) : DefaultExport :=
  Function (fun _ => value).

(** The first counter, and an instant on 2 November 2026, one hour and
    half a second after midnight UTC. *)
Definition births : Counters.CounterMetric :=
  {| Counters.id := "births";
     Counters.label := "Babies Born Today";
     Counters.annualTotal := 135600000%float;
     Counters.source := "UN Population Division";
     Counters.perSecondRate := (135600000 / Counters.SECONDS_PER_YEAR)%float;
     Counters.icon := "👶";
     Counters.formatPrecision := 0 |}.

Definition instant : Z := 1793581200500%Z.

(** How an engine prints the members of [Object.prototype]. *)
Definition printed (name : string) : string :=
  if String.eqb name "__proto__" then "[object Object]"
  else if String.eqb name "constructor"
       then "function Object() { [native code] }"
       else ("function " ++ name ++ "() { [native code] }")%string.

(** A Tauri window before the patch, and a production build. *)
Definition desktopWindow : Runtime.Window :=
  {| Runtime.tauriInternals := true;
     Runtime.tauriGlobal := false;
     Runtime.navigatorUserAgent := Some "Mozilla/5.0";
     Runtime.protocol := Some "tauri:";
     Runtime.host := Some "localhost";
     Runtime.locationOriginOf := Some "tauri://localhost";
     Runtime.windowFetch := Runtime.Native;
     Runtime.wmFetchPatched := false;
     Runtime.memberText := printed |}.

Definition browserWindow : Runtime.Window :=
  {| Runtime.tauriInternals := false;
     Runtime.tauriGlobal := false;
     Runtime.navigatorUserAgent := Some "Mozilla/5.0";
     Runtime.protocol := Some "https:";
     Runtime.host := Some "worldmonitor.app";
     Runtime.locationOriginOf := Some "https://worldmonitor.app";
     Runtime.windowFetch := Runtime.Native;
     Runtime.wmFetchPatched := false;
     Runtime.memberText := printed |}.

Definition production : Runtime.BuildEnv :=
  {| Runtime.VITE_DESKTOP_RUNTIME := None;
     Runtime.VITE_TAURI_API_BASE_URL := None;
     Runtime.VITE_TAURI_REMOTE_API_BASE_URL := None;
     Runtime.VITE_VARIANT := Some "full" |}.

(** A browser whose network refuses every call. *)
Definition offline : Runtime.Browser :=
  {| Runtime.network := fun _ _ _ => Throws (Runtime.ErrorObject "Failed to fetch");
     Runtime.signalAborted := fun _ => false;
     Runtime.parseUrl := fun _ => None |}.

Definition quiet : Runtime.World :=
  {| Runtime.calls := 0; Runtime.log := [] |}.

End Scenario.

(** ** Shapes of whole routes *)

Module RouteShape.
Import JsString Router RouterSpec.





End RouteShape.

(** ** Configuration and start-up of the sidecar *)

Module Startup.
Import JsString Router Headers Effect Sidecar.

(** The [options] of [createLocalApiServer]; a missing property is
    [None].  [logger] only receives messages. *)
Record Options : Type := mkOptions {
  optPort : option Z;
  optRemoteBase : option string;
  optResourceDir : option string;
  optApiDir : option string;
  optMode : option string
}.

(** [process.env] and [process.cwd()]. *)
Record Process : Type := mkProcess {
  LOCAL_API_PORT : option string;
  LOCAL_API_REMOTE_BASE : option string;
  LOCAL_API_RESOURCE_DIR : option string;
  LOCAL_API_MODE : option string;
  cwd : string
}.

(** [a ?? b] *)
Definition nullish {A : Type} (a : option A) (b : A) : A :=
  match a with Some v => v | None => b end.

Section Platform.
(** The [path] module, [Number(text)] on the text of a port, and the
    listing of a directory of the disk. *)
Variable path : PathModule.
Variable numberOfText : string -> Z.
Variable tree : string -> list Dirent.
Variable env : Env.
Variable process : Process.

(** [[a, b].find(candidate => existsSync(candidate))] *)
Definition findExisting (candidates : list string) : option string :=
  find (existsSync env) candidates.

Definition resolveConfig (options : Options) : Context :=
  let port := match optPort options with
              | Some n => n
              | None => match LOCAL_API_PORT process with
                        | Some text => numberOfText text
                        | None => 46123%Z
                        end
              end in
  let remoteBase :=
    stripSuffix "/" (nullish (optRemoteBase options)
                       (nullish (LOCAL_API_REMOTE_BASE process)
                                "https://worldmonitor.app")) in
  let resourceDir :=
    nullish (optResourceDir options)
      (nullish (LOCAL_API_RESOURCE_DIR process) (cwd process)) in
  let apiDir :=
    match optApiDir options with
    | Some dir =>
        if truthy dir then dir
        else nullish (findExisting
                        [pathJoin path resourceDir "api";
                         pathJoin path (pathJoin path resourceDir "_up_") "api"])
                     (pathJoin path resourceDir "api")
    | None =>
        nullish (findExisting
                   [pathJoin path resourceDir "api";
                    pathJoin path (pathJoin path resourceDir "_up_") "api"])
                (pathJoin path resourceDir "api")
    end in
  let mode := nullish (optMode options)
                (nullish (LOCAL_API_MODE process) "desktop-sidecar") in
  {| port := port;
     remoteBase := remoteBase;
     resourceDir := resourceDir;
     apiDir := apiDir;
     mode := mode |}.

(** [await buildRouteTable(context.apiDir)] on the disk. *)
Definition routesOf (context : Context) : list Route :=
  buildRouteTable path (apiDir context)
    (if existsSync env (apiDir context) then Some (tree (apiDir context))
     else None).

(** The server [createLocalApiServer] returns, as its request listener. *)
Definition createLocalApiServer (options : Options)
  : IncomingMessage -> M Reply :=
  let context := resolveConfig options in
  let routes := routesOf context in
  listener env context routes.

End Platform.

End Startup.

(** ** More sample worlds *)

Module Cases.
Import JsString Router Headers Effect Sidecar Startup.

(** A disk whose modules fail to load. *)
Definition brokenImport : Env :=
  {| existsSync := fun _ => true;
     importModule := fun _ => Throws "SyntaxError";
     bodyStream := fun _ => Ok None;
     requestAccepted := fun _ => true;
     fetch := fun _ => Throws "ECONNREFUSED";
     parseUrl := fun raw => Ok (Scenario.urlOf raw);
     basename := fun path => path;
     nowIso := "2026-01-01T00:00:00.000Z" |}.

(** Headers as a caller other than Node's parser may pass them: names in
    any case, arrays, whitespace around a value. *)
Definition looseHeaders : NodeHeaders :=
  [("Host", NodeString "127.0.0.1:46123");
   ("Accept", NodeArray ["text/html"; "*/*"]);
   ("Cookie", NodeArray ["a=1"; "b=2"]);
   ("X-Note", NodeString " padded value ");
   ("Origin", NodeString "tauri://localhost")].

Definition looseRequest : IncomingMessage :=
  {| rawUrl := Some "/api/rss-proxy"; method := "GET"; headers := looseHeaders |}.

(** A disk without any api directory, and a cloud that answers. *)
Definition emptyDisk : Env :=
  {| existsSync := fun _ => false;
     importModule := fun _ => Throws "ERR_MODULE_NOT_FOUND";
     bodyStream := fun _ => Ok None;
     requestAccepted := fun _ => true;
     fetch := fun _ => Ok Scenario.cloudAnswer;
     parseUrl := fun raw => Ok (Scenario.urlOf raw);
     basename := fun path => path;
     nowIso := "2026-01-01T00:00:00.000Z" |}.

(** The sidecar started by [createLocalApiServer()] in [/app], with no
    option and no environment variable set. *)
Definition noOptions : Options :=
  {| optPort := None;
     optRemoteBase := None;
     optResourceDir := None;
     optApiDir := None;
     optMode := None |}.

Definition bareProcess : Process :=
  {| LOCAL_API_PORT := None;
     LOCAL_API_REMOTE_BASE := None;
     LOCAL_API_RESOURCE_DIR := None;
     LOCAL_API_MODE := None;
     cwd := "/app" |}.

Definition noListing (dir : string) : list Dirent := [].

Definition decimalPort (text : string) : Z := 46123%Z.

End Cases.

(** ** Runtime URLs *)

Module RuntimeUrl.
Import JsString Runtime.

Definition toRuntimeUrl (build : BuildEnv) (window : option Window)
           (path : string) : string :=
  if negb (startsWith path "/") then path
  else
    let baseUrl := getApiBaseUrl build window in
    if negb (truthy baseUrl) then path
    else (baseUrl ++ path)%string.

End RuntimeUrl.

(** ** More sample browsers *)

Module Browsers.
Import JsString Effect Runtime.

Definition fine : Response := {| ok := true; content := "{}" |}.

(** A sidecar that is still starting: it refuses the first two calls. *)
Definition lateSidecar : Browser :=
  {| network := fun k _ _ =>
       if (k <? 2)%nat then Throws (ErrorObject "Failed to fetch") else Ok fine;
     signalAborted := fun _ => false;
     parseUrl := fun _ => None |}.

(** A caller that has aborted; the network throws an abort reason that
    is not an [Error]. *)
Definition abortedCaller : Browser :=
  {| network := fun _ _ _ => Throws (OtherValue "cancelled");
     signalAborted := fun _ => true;
     parseUrl := fun _ => None |}.

Definition withSignal : option RequestInit :=
  Some {| hasSignal := true; options := "" |}.

(** A browser whose URL parser splits the local base off. *)
Definition parsing : Browser :=
  {| network := fun _ _ _ => Ok fine;
     signalAborted := fun _ => false;
     parseUrl := fun s =>
       if startsWith s DEFAULT_LOCAL_API_BASE
       then Some (slice (String.length DEFAULT_LOCAL_API_BASE) s, "")
       else None |}.

(** A build that forces the desktop runtime. *)
Definition forced : BuildEnv :=
  {| VITE_DESKTOP_RUNTIME := Some "1";
     VITE_TAURI_API_BASE_URL := None;
     VITE_TAURI_REMOTE_API_BASE_URL := None;
     VITE_VARIANT := None |}.

(** A build whose variant is none of the three hosts, but the name of a
    member every object inherits. *)
Definition misnamed : BuildEnv :=
  {| VITE_DESKTOP_RUNTIME := Some "1";
     VITE_TAURI_API_BASE_URL := None;
     VITE_TAURI_REMOTE_API_BASE_URL := None;
     VITE_VARIANT := Some "constructor" |}.

(** A build with a remote base that ends in a slash. *)
Definition staging : BuildEnv :=
  {| VITE_DESKTOP_RUNTIME := Some "1";
     VITE_TAURI_API_BASE_URL := Some "http://127.0.0.1:5174/";
     VITE_TAURI_REMOTE_API_BASE_URL := Some "https://staging.worldmonitor.app/";
     VITE_VARIANT := Some "tech" |}.

End Browsers.

(** ** A handler of the api tree: /api/youtube/embed

    [api/youtube/embed.js], one of the modules the sidecar routes to. *)

Module Embed.
Import JsString Headers Effect Sidecar.
Local Open Scope string_scope.

(** The list of a [URLSearchParams] object. *)
Definition Params : Type := list (string * string).

Definition isParam (name : string) (entry : string * string) : bool :=
  String.eqb (fst entry) name.

(** [searchParams.get(name)]: the first value under [name], [None] for
    [null]. *)
Definition getParam (params : Params) (name : string) : option string :=
  option_map snd (find (isParam name) params).

(** [searchParams.set(name, value)]: the first entry called [name] takes
    the value and the later ones go; without one the entry is appended. *)
Fixpoint replaceFirst (name value : string) (params : Params) : Params :=
  match params with
  | [] => []
  | entry :: rest =>
      if isParam name entry
      then (name, value) :: List.filter (fun p => negb (isParam name p)) rest
      else entry :: replaceFirst name value rest
  end.

Definition setParam (name value : string) (params : Params) : Params :=
  if existsb (isParam name) params then replaceFirst name value params
  else (params ++ [(name, value)])%list.

(** The class [[A-Za-z0-9_-]]. *)
Definition isIdChar (c : ascii) : bool :=
  let n := nat_of_ascii c in
  ((65 <=? n) && (n <=? 90) || (97 <=? n) && (n <=? 122)
   || (48 <=? n) && (n <=? 57) || (n =? 95) || (n =? 45))%nat.

Fixpoint allIdChars (s : string) : bool :=
  match s with
  | EmptyString => true
  | String c rest => isIdChar c && allIdChars rest
  end.

(** [/^[A-Za-z0-9_-]{11}$/.test(value)] *)
Definition isVideoId (value : string) : bool :=
  (String.length value =? 11)%nat && allIdChars value.

(** [value] is [None] when it is not a string ([get] returned [null]). *)
Definition sanitizeVideoId (value : option string) : option string :=
  match value with
  | None => None
  | Some v => if isVideoId v then Some v else None
  end.

Definition parseFlag (value : option string) (fallback : string) : string :=
  match value with
  | Some v => if String.eqb v "0" || String.eqb v "1" then v else fallback
  | None => fallback
  end.

(** *** Serialising the query

    The application/x-www-form-urlencoded serialiser, on ASCII text (all
    the handler puts in the query): letters, digits and [*-._] stay, a
    space becomes [+], any other character its code in upper-case
    hexadecimal after a [%]. *)

Definition isFormSafe (c : ascii) : bool :=
  let n := nat_of_ascii c in
  ((65 <=? n) && (n <=? 90) || (97 <=? n) && (n <=? 122)
   || (48 <=? n) && (n <=? 57)
   || (n =? 42) || (n =? 45) || (n =? 46) || (n =? 95))%nat.

Definition hexDigit (n : nat) : ascii :=
  nth n ["0"; "1"; "2"; "3"; "4"; "5"; "6"; "7"; "8"; "9";
         "A"; "B"; "C"; "D"; "E"; "F"]%char "0"%char.

Definition formEncodeChar (c : ascii) : string :=
  if isFormSafe c then String c EmptyString
  else if Ascii.eqb c " " then "+"
       else String "%" (String (hexDigit (nat_of_ascii c / 16))
                          (String (hexDigit (nat_of_ascii c mod 16))
                                  EmptyString)).

Fixpoint formEncode (s : string) : string :=
  match s with
  | EmptyString => EmptyString
  | String c rest => formEncodeChar c ++ formEncode rest
  end.

Definition serialize (params : Params) : string :=
  join "&" (map (fun entry => formEncode (fst entry) ++ "="
                                        ++ formEncode (snd entry))
                params).

(** A [URL] whose path needs no encoding, with its [searchParams]. *)
Record EmbedUrl : Type := mkEmbedUrl {
  location : string;
  searchParams : Params
}.

(** [url.toString()] *)
Definition hrefOf (url : EmbedUrl) : string :=
  match searchParams url with
  | [] => location url
  | params => location url ++ "?" ++ serialize params
  end.

Definition setOn (name value : string) (url : EmbedUrl) : EmbedUrl :=
  {| location := location url;
     searchParams := setParam name value (searchParams url) |}.

(** *** The page *)

Definition quote : string := String (ascii_of_nat 34) EmptyString.

Definition newline : string := String (ascii_of_nat 10) EmptyString.

(** [name="value"] *)
Definition attribute (name value : string) : string :=
  name ++ "=" ++ quote ++ value ++ quote.

(** The template up to the value of [src], and after it. *)
Definition pageHead : string :=
  join newline
    ["<!doctype html>";
     "<html " ++ attribute "lang" "en" ++ ">";
     "<head>";
     "  <meta " ++ attribute "charset" "utf-8" ++ " />";
     "  <meta " ++ attribute "name" "viewport" ++ " "
       ++ attribute "content" "width=device-width,initial-scale=1" ++ " />";
     "  <meta " ++ attribute "name" "referrer" ++ " "
       ++ attribute "content" "strict-origin-when-cross-origin" ++ " />";
     "  <style>";
     "    html,body{margin:0;padding:0;width:100%;height:100%;background:#000;overflow:hidden}";
     "    iframe{display:block;border:0;width:100%;height:100%}";
     "  </style>";
     "</head>";
     "<body>";
     "  <iframe";
     "    src=" ++ quote].

Definition pageTail : string :=
  join newline
    [quote;
     "    " ++ attribute "title" "YouTube live";
     "    " ++ attribute "allow"
                "autoplay; encrypted-media; picture-in-picture; fullscreen";
     "    " ++ attribute "referrerpolicy" "strict-origin-when-cross-origin";
     "    allowfullscreen";
     "  ></iframe>";
     "</body>";
     "</html>"].

Definition embedSrc (videoId autoplay mute : string) : EmbedUrl :=
  setOn "widget_referrer" "https://worldmonitor.app"
    (setOn "origin" "https://worldmonitor.app"
       (setOn "enablejsapi" "1"
          (setOn "controls" "1"
             (setOn "rel" "0"
                (setOn "playsinline" "1"
                   (setOn "mute" mute
                      (setOn "autoplay" autoplay
                         {| location := "https://www.youtube.com/embed/" ++ videoId;
                            searchParams := [] |}))))))).

(** [handler(request)], on the [searchParams] of [new URL(request.url)]. *)
Definition handler (query : Params) : Response :=
  match sanitizeVideoId (getParam query "videoId") with
  | None =>
      {| status := 400;
         responseHeaders := [("content-type", "text/plain; charset=utf-8")];
         responseBody := Content "Missing or invalid videoId" |}
  | Some videoId =>
      if negb (truthy videoId) then
        {| status := 400;
           responseHeaders := [("content-type", "text/plain; charset=utf-8")];
           responseBody := Content "Missing or invalid videoId" |}
      else
        let autoplay := parseFlag (getParam query "autoplay") "1" in
        let mute := parseFlag (getParam query "mute") "1" in
        {| status := 200;
           responseHeaders :=
             [("content-type", "text/html; charset=utf-8");
              ("cache-control",
               "public, s-maxage=60, stale-while-revalidate=300")];
           responseBody :=
             Content (pageHead ++ hrefOf (embedSrc videoId autoplay mute)
                               ++ pageTail) |}
  end.

(** The module's default export, given how [new URL(request.url)] reads
    the query of a request. *)
Definition module (queryOf : string -> Params) : DefaultExport :=
  Function (fun request => Ok (IsResponse (handler (queryOf (requestUrl request))))).

End Embed.

(** A disk that holds the embed module, a request for a video and how
    its URL reads. *)

Module EmbedSample.
Import JsString Headers Effect Sidecar Embed.

Definition watch : Url :=
  {| origin := "http://127.0.0.1:46123";
     pathname := "/api/youtube/embed";
     search := "?videoId=iEpJwprxDdk&autoplay=0" |}.

Definition incoming : IncomingMessage :=
  {| rawUrl := Some "/api/youtube/embed?videoId=iEpJwprxDdk&autoplay=0";
     method := "GET";
     headers := Scenario.browserHeaders |}.

Definition queryOf (url : string) : Params :=
  if endsWith url "?videoId=iEpJwprxDdk&autoplay=0"
  then [("videoId", "iEpJwprxDdk"); ("autoplay", "0")]
  else [].

Definition disk : Env :=
  {| existsSync := fun _ => true;
     importModule := fun _ => Ok (Embed.module queryOf);
     bodyStream := fun _ => Ok None;
     requestAccepted := fun _ => true;
     fetch := fun _ => Throws "ECONNREFUSED";
     parseUrl := fun _ => Ok watch;
     basename := fun path => path;
     nowIso := "2026-01-01T00:00:00.000Z" |}.

End EmbedSample.

(** ** A handler of the api tree: the cache key of /api/country-intel

    [hashString] of [api/country-intel.js] and the key built from it.  A
    string is the list of its UTF-16 code units, as [charCodeAt] reads
    them. *)

Module CountryIntel.
Local Open Scope Z_scope.

(** [ToInt32] *)
Definition toInt32 (z : Z) : Z := (z + 2 ^ 31) mod 2 ^ 32 - 2 ^ 31.

(** One turn of the loop: [hash = ((hash << 5) - hash) + c; hash |= 0]. *)
Definition mix (hash c : Z) : Z :=
  toInt32 (toInt32 (Z.shiftl hash 5) - hash + c).

(** [hash] after the loop. *)
Definition hashOf (str : list Z) : Z := fold_left mix str 0.

(** The digit [d] in base 36: [0-9] then [a-z]. *)
Definition digit36 (d : Z) : ascii :=
  if d <? 10 then ascii_of_nat (48 + Z.to_nat d)
  else ascii_of_nat (87 + Z.to_nat d).

(** The digits of [n] in base 36, the least significant first. *)
Fixpoint digits36 (fuel : nat) (n : Z) : list Z :=
  match fuel with
  | O => []
  | S fuel' =>
      n mod 36 :: (if n / 36 =? 0 then [] else digits36 fuel' (n / 36))
  end.

(** [n.toString(36)] for an integer [n >= 0]; a number has no more
    digits in base 36 than bits. *)
Definition toString36 (n : Z) : string :=
  string_of_list_ascii
    (map digit36 (rev (digits36 (S (Z.to_nat (Z.log2 n))) n))).

Definition hashString (str : list Z) : string :=
  toString36 (Z.abs (hashOf str)).

Definition CACHE_VERSION : string := "ci-v1".

(** [context ? hashString(JSON.stringify(context)).slice(0, 8) : 'no-ctx'];
    [context] is [None] when it is falsy, and otherwise the code units
    of its JSON text. *)
Definition contextHash (context : option (list Z)) : string :=
  match context with
  | Some text => String.substring 0 8 (hashString text)
  | None => "no-ctx"
  end.

Definition cacheKey (code : string) (context : option (list Z)) : string :=
  (CACHE_VERSION ++ ":" ++ code ++ ":" ++ contextHash context)%string.

End CountryIntel.

(** * Theorems *)

(** ** Effects *)

Module EffectFacts.
Import Effect.

Section Laws.
Context {S E : Type}.

Lemma bind_run {A B : Type} (m : M S E A) (k : A -> M S E B) (w : S) :
  (m ≫= k) w
  = match m w with
    | (Ok a, w') => k a w'
    | (Throws e, w') => (Throws e, w')
    end.
Proof. reflexivity. Qed.

Lemma ret_run {A : Type} (a : A) (w : S) : (mret a : M S E A) w = (Ok a, w).
Proof. reflexivity. Qed.

(** *** Traces

    [trace] reads the list of events off the state; [extends trace P m]
    says that [m] only appends to it, and only events that satisfy [P]. *)
Context {Ev : Type} (trace : S -> list Ev).

Definition extends (P : Ev -> Prop) {A : Type} (m : M S E A) : Prop :=
  forall w, exists events,
      trace (snd (m w)) = trace w ++ events /\ Forall P events.

Lemma extends_silent P {A : Type} (m : M S E A) :
  (forall w, trace (snd (m w)) = trace w) -> extends P m.
Proof.
  intros Hsame w. exists []. rewrite app_nil_r.
  split; [apply Hsame|constructor].
Qed.

Lemma extends_ret P {A : Type} (a : A) : extends P (mret a : M S E A).
Proof. apply extends_silent. reflexivity. Qed.

Lemma extends_throw P {A : Type} e : extends P (throw e : M S E A).
Proof. apply extends_silent. reflexivity. Qed.

Lemma extends_lift P {A : Type} (o : Outcome E A) : extends P (lift o : M S E A).
Proof. apply extends_silent. reflexivity. Qed.

Lemma extends_bind P {A B : Type} (m : M S E A) (k : A -> M S E B) :
  extends P m -> (forall a, extends P (k a)) -> extends P (m ≫= k).
Proof.
  intros Hm Hk w. rewrite bind_run.
  destruct (Hm w) as (events & Hlog & Hall).
  destruct (m w) as [[a|e] w1]; simpl in Hlog.
  - destruct (Hk a w1) as (events' & Hlog' & Hall').
    exists (events ++ events'). rewrite Hlog', Hlog, app_assoc.
    split; [reflexivity|]. apply List.Forall_app. auto.
  - exists events. auto.
Qed.

Lemma extends_tryCatch P {A : Type} (body : M S E A) (handler : E -> M S E A) :
  extends P body -> (forall e, extends P (handler e)) ->
  extends P (tryCatch body handler).
Proof.
  intros Hm Hk w. unfold tryCatch.
  destruct (Hm w) as (events & Hlog & Hall).
  destruct (body w) as [[a|e] w1]; simpl in Hlog.
  - exists events. auto.
  - destruct (Hk e w1) as (events' & Hlog' & Hall').
    exists (events ++ events'). rewrite Hlog', Hlog, app_assoc.
    split; [reflexivity|]. apply List.Forall_app. auto.
Qed.

End Laws.

End EffectFacts.

(** ** The router *)

Module RouterFacts.
Import JsString Router RouterSpec.

Lemma nth_middle_default (pre : list string) x rest d :
  nth (length pre) (pre ++ x :: rest) d = x.
Proof. induction pre; simpl; auto. Qed.

Lemma nth_error_middle (pre : list string) x rest :
  nth_error (pre ++ x :: rest) (length pre) = Some x.
Proof. induction pre; simpl; auto. Qed.

Lemma matchAhead_cons segment route' part request' :
  matchAhead (segment :: route') (part :: request')
  = if isOptionalCatchAll segment then true
    else if isCatchAll segment then true
    else if isBracketSegment segment then matchAhead route' request'
    else if negb (String.eqb segment part) then false
    else matchAhead route' request'.
Proof. destruct route'; reflexivity. Qed.

Lemma matchLoop_ahead route :
  forall request pre_r pre_p fuel,
    (length route <= fuel)%nat ->
    finish (pre_r ++ route) (pre_p ++ request)
           (matchLoop fuel (pre_r ++ route) (pre_p ++ request)
                      (length pre_r) (length pre_p))
    = matchAhead route request.
Proof.
  induction route as [|segment route' IH]; intros request pre_r pre_p fuel Hfuel.
  - rewrite app_nil_r.
    assert (Hloop : matchLoop fuel pre_r (pre_p ++ request)
                      (length pre_r) (length pre_p)
                    = FellThrough (length pre_r) (length pre_p)).
    { destruct fuel; simpl; rewrite Nat.ltb_irrefl; reflexivity. }
    rewrite Hloop. simpl. unfold afterLoop.
    rewrite Nat.eqb_refl, length_app. simpl.
    destruct request as [|part request']; simpl.
    + rewrite Nat.add_0_r, Nat.eqb_refl. reflexivity.
    + replace (length pre_p =? length pre_p + S (length request'))%nat
        with false by (symmetry; apply Nat.eqb_neq; lia).
      replace (Z.of_nat (length pre_r) =? Z.of_nat (length pre_r) - 1)%Z
        with false by (symmetry; apply Z.eqb_neq; lia).
      reflexivity.
  - destruct request as [|part request'].
    + rewrite app_nil_r.
      assert (Hloop : matchLoop fuel (pre_r ++ segment :: route') pre_p
                        (length pre_r) (length pre_p)
                      = FellThrough (length pre_r) (length pre_p)).
      { destruct fuel; simpl; rewrite Nat.ltb_irrefl, andb_false_r;
          reflexivity. }
      rewrite Hloop. simpl finish. unfold afterLoop.
      rewrite length_app. simpl length.
      replace (length pre_r =? length pre_r + S (length route'))%nat
        with false by (symmetry; apply Nat.eqb_neq; lia).
      simpl andb. rewrite nth_error_middle. simpl optTest.
      rewrite Nat.ltb_irrefl.
      destruct route' as [|next route'']; simpl length; simpl matchAhead.
      * destruct (Z.eqb_spec (Z.of_nat (length pre_r))
                             (Z.of_nat (length pre_r + 1) - 1)) as [_|Hne];
          [|exfalso; lia].
        destruct (isOptionalCatchAll segment); [reflexivity|].
        destruct (isCatchAll segment); reflexivity.
      * destruct (Z.eqb_spec (Z.of_nat (length pre_r))
                   (Z.of_nat (length pre_r + S (S (length route''))) - 1))
          as [Heq|_]; [exfalso; lia|].
        reflexivity.
    + destruct fuel as [|fuel']; [simpl in Hfuel; lia|].
      simpl in Hfuel.
      assert (Hstep : forall e,
                 finish (pre_r ++ segment :: route')
                        (pre_p ++ part :: request') e
                 = finish ((pre_r ++ [segment]) ++ route')
                          ((pre_p ++ [part]) ++ request') e).
      { intros e. rewrite <- !app_assoc. reflexivity. }
      assert (Hnext : matchLoop fuel' (pre_r ++ segment :: route')
                        (pre_p ++ part :: request')
                        (length pre_r + 1) (length pre_p + 1)
                      = matchLoop fuel' ((pre_r ++ [segment]) ++ route')
                          ((pre_p ++ [part]) ++ request')
                          (length (pre_r ++ [segment]))
                          (length (pre_p ++ [part]))).
      { rewrite <- !app_assoc, !length_app. reflexivity. }
      cbn [matchLoop].
      replace ((length pre_r <? length (pre_r ++ segment :: route'))%nat)
        with true by (symmetry; apply Nat.ltb_lt; rewrite length_app; simpl; lia).
      replace ((length pre_p <? length (pre_p ++ part :: request'))%nat)
        with true by (symmetry; apply Nat.ltb_lt; rewrite length_app; simpl; lia).
      cbn [andb finish]. rewrite !nth_middle_default.
      rewrite matchAhead_cons.
      destruct (isOptionalCatchAll segment); [reflexivity|].
      destruct (isCatchAll segment); [reflexivity|].
      destruct (isBracketSegment segment).
      * rewrite Hnext, Hstep. apply IH. lia.
      * destruct (negb (String.eqb segment part)); [reflexivity|].
        rewrite Hnext, Hstep. apply IH. lia.
Qed.

Lemma matchParts_ahead route request :
  matchParts route request = matchAhead route request.
Proof.
  pose proof (matchLoop_ahead route request [] [] (length route)
                              (Nat.le_refl _)) as H.
  simpl in H. exact H.
Qed.

Lemma matchRoute_ahead routePath pathname :
  matchRoute routePath pathname
  = matchAhead (splitRoutePath routePath) (pathPartsOf pathname).
Proof. apply matchParts_ahead. Qed.

Lemma kindOf_not_catchAll segment :
  isAnyCatchAll segment = false ->
  kindOf segment = Dynamic \/ kindOf segment = Literal.
Proof.
  unfold isAnyCatchAll, kindOf. intros H.
  apply orb_false_iff in H. destruct H as [-> ->].
  destruct (isBracketSegment segment); auto.
Qed.

Lemma catchAllOnlyLast_tail segment route' :
  catchAllOnlyLast (segment :: route') = true ->
  catchAllOnlyLast route' = true
  /\ (isAnyCatchAll segment = true -> route' = []).
Proof.
  destruct route' as [|next route'']; [auto|].
  cbn [catchAllOnlyLast]. intros H.
  apply andb_true_iff in H. destruct H as [Hseg Hrest].
  apply negb_true_iff in Hseg. split; [exact Hrest|congruence].
Qed.

Lemma matchAhead_aligns route :
  forall request,
    catchAllOnlyLast route = true ->
    matchAhead route request = segmentsAlign route request.
Proof.
  induction route as [|segment route' IH]; intros request Hlast.
  - destruct request; reflexivity.
  - apply catchAllOnlyLast_tail in Hlast. destruct Hlast as [Htail Hseg].
    unfold isAnyCatchAll in Hseg.
    destruct request as [|part request'].
    + cbn [segmentsAlign]. unfold kindOf.
      destruct (isOptionalCatchAll segment) eqn:Hopt.
      { rewrite (Hseg eq_refl). simpl. exact Hopt. }
      destruct (isCatchAll segment) eqn:Hcatch.
      { rewrite (Hseg eq_refl). simpl. exact Hopt. }
      destruct route'; simpl; rewrite ?Hopt;
        destruct (isBracketSegment segment); reflexivity.
    + rewrite matchAhead_cons. cbn [segmentsAlign]. unfold kindOf.
      destruct (isOptionalCatchAll segment) eqn:Hopt.
      { rewrite (Hseg eq_refl). reflexivity. }
      destruct (isCatchAll segment) eqn:Hcatch.
      { rewrite (Hseg eq_refl). reflexivity. }
      destruct (isBracketSegment segment); [apply IH, Htail|].
      destruct (String.eqb segment part); simpl; [apply IH, Htail|reflexivity].
Qed.

(** C1 (as stated) fails: matchRoute does not return true exactly when
    the segments align.  The route [[...rest]/b] is matched by the
    request [/x], whose single segment leaves nothing for the literal
    [b]. *)
Lemma matchRoute_midroute_catchAll :
  ~ (forall routePath pathname,
        matchRoute routePath pathname
        = segmentsAlign (splitRoutePath routePath) (pathPartsOf pathname)).
Proof.
  intros H. specialize (H "[...rest]/b" "/x").
  vm_compute in H. discriminate H.
Qed.

(** C1 (amended): for every route path whose catch-all segment, of
    either kind, is its last segment when it has one, and every request
    pathname, matchRoute returns true exactly when the route segments
    and the request segments (those of the pathname after a leading /api)
    align: literals equal, [name] takes one segment, a final [...name]
    takes one or more, a final [[...name]] takes zero or more, and a
    route without catch-all ends together with the request. *)
Theorem matchRoute_aligns routePath pathname :
  catchAllOnlyLast (splitRoutePath routePath) = true ->
  matchRoute routePath pathname
  = segmentsAlign (splitRoutePath routePath) (pathPartsOf pathname).
Proof.
  intros Hlast. rewrite matchRoute_ahead. apply matchAhead_aligns, Hlast.
Qed.

Lemma matchRoute_aligns_witness :
  matchRoute "news/[id]/[...rest]" "/api/news/7/a/b"
  = segmentsAlign (splitRoutePath "news/[id]/[...rest]")
                  (pathPartsOf "/api/news/7/a/b").
Proof. apply (matchRoute_aligns "news/[id]/[...rest]" "/api/news/7/a/b"). reflexivity. Defined.

(** *** Priorities and the order of the table *)




Section SortFacts.
Context {A : Type} (compare : A -> A -> Z).

Lemma insertSorted_perm x sorted :
  Permutation (insertSorted compare x sorted) (x :: sorted).
Proof.
  induction sorted as [|y rest IH]; simpl.
  - apply Permutation_refl.
  - destruct (0 <? compare x y)%Z.
    + eapply Permutation_trans; [apply perm_skip, IH|apply perm_swap].
    + apply Permutation_refl.
Qed.

Lemma sort_perm items : Permutation (sort compare items) items.
Proof.
  induction items as [|x rest IH]; simpl.
  - apply perm_nil.
  - eapply Permutation_trans; [apply insertSorted_perm|].
    apply perm_skip, IH.
Qed.
End SortFacts.







(** *** The walk over the api directory *)

Section DirentInduction.
Variable P : Dirent -> Prop.
Hypothesis P_file : forall name, P (File name).
Hypothesis P_dir :
  forall name entries, Forall P entries -> P (Directory name entries).

Fixpoint Dirent_nested_ind (entry : Dirent) : P entry :=
  match entry with
  | File name => P_file name
  | Directory name entries =>
      P_dir name entries
        ((fix all (l : list Dirent) : Forall P l :=
            match l with
            | [] => @List.Forall_nil _ P
            | e :: l' => @List.Forall_cons _ P e l' (Dirent_nested_ind e) (all l')
            end) entries)
  end.
End DirentInduction.

Lemma append_cons ch (a b : string) :
  (String ch a ++ b)%string = String ch (a ++ b)%string.
Proof. reflexivity. Qed.

Lemma string_app_assoc (a b c : string) :
  ((a ++ b) ++ c = a ++ (b ++ c))%string.
Proof.
  induction a as [|ch a IH]; [reflexivity|].
  rewrite !append_cons, IH. reflexivity.
Qed.

Lemma startsWith_app p x : startsWith (p ++ x) p = true.
Proof.
  unfold startsWith. induction p as [|ch p IH].
  - destruct x; reflexivity.
  - rewrite append_cons. simpl.
    destruct (ascii_dec ch ch); [exact IH|congruence].
Qed.

Lemma slice_app p x : slice (String.length p) (p ++ x) = x.
Proof.
  induction p as [|ch p IH]; [destruct x; reflexivity|].
  rewrite append_cons. simpl. exact IH.
Qed.

Lemma stripPrefix_app p x : stripPrefix p (p ++ x) = x.
Proof. unfold stripPrefix. rewrite startsWith_app. apply slice_app. Qed.

Lemma length_app_string (a b : string) :
  String.length (a ++ b) = (String.length a + String.length b)%nat.
Proof.
  induction a as [|ch a IH]; [reflexivity|].
  rewrite append_cons. simpl. rewrite IH. reflexivity.
Qed.

Lemma substring_app_tail (a b : string) :
  String.substring (String.length a) (String.length b) (a ++ b) = b.
Proof.
  induction a as [|ch a IH].
  - change (String.substring 0 (String.length b) b = b).
    induction b as [|ch b IHb]; [reflexivity|].
    simpl. rewrite IHb. reflexivity.
  - rewrite append_cons. simpl. exact IH.
Qed.

Lemma substring_app_head (a b : string) :
  String.substring 0 (String.length a) (a ++ b) = a.
Proof.
  induction a as [|ch a IH].
  - change (String.substring 0 0 b = ""). destruct b; reflexivity.
  - rewrite append_cons. simpl. rewrite IH. reflexivity.
Qed.

Lemma endsWith_app (a p : string) : endsWith (a ++ p) p = true.
Proof.
  unfold endsWith. rewrite length_app_string.
  replace (String.length a + String.length p - String.length p)%nat
    with (String.length a) by lia.
  rewrite substring_app_tail, String.eqb_refl.
  apply andb_true_iff. split; [apply Nat.leb_le; lia|reflexivity].
Qed.

(** Stripping a suffix that was appended gives the string back. *)
Lemma stripSuffix_app (a p : string) : stripSuffix p (a ++ p) = a.
Proof.
  unfold stripSuffix. rewrite endsWith_app, length_app_string.
  replace (String.length a + String.length p - String.length p)%nat
    with (String.length a) by lia.
  apply substring_app_head.
Qed.

Lemma stripSuffix_none (a p : string) :
  endsWith a p = false -> stripSuffix p a = a.
Proof. unfold stripSuffix. intros ->. reflexivity. Qed.

Lemma length_app_cons ch (a b : string) :
  String.length (String ch a ++ b) = S (String.length (a ++ b)).
Proof. reflexivity. Qed.

Lemma substring_whole (s : string) :
  String.substring 0 (String.length s) s = s.
Proof. induction s as [|ch s IH]; [reflexivity|]. simpl. rewrite IH. reflexivity. Qed.

Lemma substring_split (s : string) :
  forall n, (n <= String.length s)%nat ->
            s = (String.substring 0 n s
                 ++ String.substring n (String.length s - n) s)%string.
Proof.
  induction s as [|ch s IH]; intros n Hn.
  - destruct n; [reflexivity|simpl in Hn; lia].
  - destruct n as [|n].
    + rewrite Nat.sub_0_r, substring_whole. reflexivity.
    + simpl in Hn. simpl. rewrite append_cons. f_equal. apply IH. lia.
Qed.

(** A string that ends in [p] is some string followed by [p]. *)
Lemma endsWith_split (s p : string) :
  endsWith s p = true -> exists t, s = (t ++ p)%string.
Proof.
  unfold endsWith. intros H. apply andb_true_iff in H. destruct H as [Hlen Heq].
  apply Nat.leb_le in Hlen. apply String.eqb_eq in Heq.
  exists (String.substring 0 (String.length s - String.length p) s).
  rewrite (substring_split s (String.length s - String.length p)) at 1 by lia.
  replace (String.length s - (String.length s - String.length p))%nat
    with (String.length p) by lia.
  rewrite Heq. reflexivity.
Qed.

(** *** The convention as the specification words it, and the code *)

Lemma replaceAll_slashed (text : string) :
  replaceAll "\"%char "/"%char text = slashed text.
Proof.
  unfold slashed. induction text as [|c text IH]; [reflexivity|].
  simpl. rewrite IH. reflexivity.
Qed.

Lemma hasEnding_app (t ending : string) : hasEnding ending (t ++ ending) = true.
Proof.
  induction t as [|c t IH].
  - change (hasEnding ending ending = true).
    destruct ending as [|a ending]; [reflexivity|].
    cbn [hasEnding]. rewrite String.eqb_refl. reflexivity.
  - rewrite append_cons. cbn [hasEnding]. rewrite IH. apply orb_true_r.
Qed.

Lemma hasEnding_split (ending text : string) :
  hasEnding ending text = true -> exists t, text = (t ++ ending)%string.
Proof.
  induction text as [|c text IH]; cbn [hasEnding]; intros H.
  - apply orb_true_iff in H. destruct H as [H|H]; [|discriminate H].
    apply String.eqb_eq in H. exists EmptyString. rewrite <- H. reflexivity.
  - apply orb_true_iff in H. destruct H as [H|H].
    + apply String.eqb_eq in H. exists EmptyString. rewrite <- H. reflexivity.
    + destruct (IH H) as [t ->]. exists (String c t). reflexivity.
Qed.

Lemma withoutEnding_app (t ending : string) :
  withoutEnding ending (t ++ ending) = t.
Proof.
  induction t as [|c t IH].
  - change (withoutEnding ending ending = EmptyString).
    destruct ending as [|a ending]; [reflexivity|].
    cbn [withoutEnding]. rewrite String.eqb_refl. reflexivity.
  - rewrite append_cons. cbn [withoutEnding].
    assert (Hlonger : String.eqb (String c (t ++ ending)) ending = false).
    { apply String.eqb_neq. intros Heq.
      apply (f_equal String.length) in Heq. simpl in Heq.
      rewrite length_app_string in Heq. lia. }
    rewrite Hlonger, hasEnding_app, IH. reflexivity.
Qed.

Lemma withoutEnding_none (ending text : string) :
  hasEnding ending text = false -> withoutEnding ending text = text.
Proof.
  destruct text as [|c text]; cbn [hasEnding withoutEnding]; intros H.
  - apply orb_false_iff in H. destruct H as [H _]. rewrite H. reflexivity.
  - apply orb_false_iff in H. destruct H as [H Hrest]. rewrite H, Hrest.
    reflexivity.
Qed.

(** The anchored [replace] of the code removes an ending exactly as the
    specification says. *)
Lemma stripSuffix_withoutEnding (ending text : string) :
  stripSuffix ending text = withoutEnding ending text.
Proof.
  destruct (endsWith text ending) eqn:Hends.
  - destruct (endsWith_split _ _ Hends) as [t ->].
    rewrite stripSuffix_app, withoutEnding_app. reflexivity.
  - rewrite (stripSuffix_none _ _ Hends).
    destruct (hasEnding ending text) eqn:Hhas.
    + destruct (hasEnding_split _ _ Hhas) as [t ->].
      rewrite endsWith_app in Hends. discriminate Hends.
    + rewrite (withoutEnding_none _ _ Hhas). reflexivity.
Qed.

Section WalkFacts.
Variable path : PathModule.
Variable root : string.

(** The route [walk] pushes for the file reached from [dir] by the
    names [file]. *)
Definition pushed (dir : string) (file : list string) : Route :=
  routeOfFile path root (fold_left (pathJoin path) file dir).

Definition pushedBelow (dir : string) (entry : Dirent) : list Route :=
  map (pushed dir) (List.filter isRouteFile (filesBelow entry)).

Lemma filesBelow_nonempty entry :
  Forall (fun file => file <> []) (filesBelow entry).
Proof.
  destruct entry as [name|name entries]; simpl.
  - constructor; [discriminate|constructor].
  - apply List.Forall_forall. intros file Hin.
    apply in_map_iff in Hin. destruct Hin as [f [<- _]]. discriminate.
Qed.

Lemma pushed_below_directory dir name files :
  Forall (fun file => file <> []) files ->
  map (pushed dir) (List.filter isRouteFile (map (cons name) files))
  = map (pushed (pathJoin path dir name)) (List.filter isRouteFile files).
Proof.
  induction 1 as [|file files Hne _ IH]; simpl; [reflexivity|].
  assert (Hlast : isRouteFile (name :: file) = isRouteFile file).
  { unfold isRouteFile. destruct file; [contradiction|reflexivity]. }
  assert (Hpush : pushed dir (name :: file)
                  = pushed (pathJoin path dir name) file) by reflexivity.
  rewrite Hlast. destruct (isRouteFile file); simpl; rewrite ?Hpush, IH;
    reflexivity.
Qed.

Lemma flat_map_pushedBelow dir entries :
  flat_map (pushedBelow dir) entries
  = map (pushed dir) (List.filter isRouteFile (flat_map filesBelow entries)).
Proof.
  induction entries as [|e entries IH]; simpl; [reflexivity|].
  rewrite List.filter_app, List.map_app, IH. reflexivity.
Qed.

Lemma fold_walkEntry entries :
  Forall (fun e => forall dir files,
              walkEntry path root dir e files = files ++ pushedBelow dir e)
         entries ->
  forall dir files,
    fold_left (fun files' e => walkEntry path root dir e files') entries files
    = files ++ flat_map (pushedBelow dir) entries.
Proof.
  induction 1 as [|e entries He _ IH]; intros dir files; simpl.
  - rewrite app_nil_r. reflexivity.
  - rewrite He, IH, <- app_assoc. reflexivity.
Qed.

Lemma walkEntry_pushes entry :
  forall dir files,
    walkEntry path root dir entry files = files ++ pushedBelow dir entry.
Proof.
  induction entry as [name|name entries IH] using Dirent_nested_ind;
    intros dir files.
  - unfold pushedBelow. simpl. unfold isRouteFile. simpl.
    destruct (endsWith name ".js"); simpl;
      [|rewrite app_nil_r; reflexivity].
    destruct (startsWith name "_"); simpl;
      [rewrite app_nil_r; reflexivity|].
    reflexivity.
  - cbn [walkEntry]. rewrite (fold_walkEntry entries IH).
    rewrite flat_map_pushedBelow. unfold pushedBelow. cbn [filesBelow].
    rewrite pushed_below_directory; [reflexivity|].
    apply List.Forall_forall. intros file Hin.
    apply in_flat_map in Hin. destruct Hin as [e [_ Hin]].
    pose proof (filesBelow_nonempty e) as Hne.
    rewrite List.Forall_forall in Hne. apply Hne, Hin.
Qed.

Lemma pushed_root file : pushed root file = routeFor path root file.
Proof.
  unfold pushed, routeFor, routeOfFile, routePathOfFile, locate.
  rewrite replaceAll_slashed, !stripSuffix_withoutEnding. reflexivity.
Qed.

Lemma walk_expected entries :
  walk path root root entries [] = expectedRoutes path root entries.
Proof.
  unfold walk, expectedRoutes, filesUnder.
  rewrite fold_walkEntry.
  - simpl. rewrite flat_map_pushedBelow.
    apply map_ext. intros file. apply pushed_root.
  - apply List.Forall_forall. intros e _. apply walkEntry_pushes.
Qed.
End WalkFacts.

(** C6: buildRouteTable(root) is empty when root does not exist, and
    otherwise holds exactly one entry per file below root whose name ends
    in .js and does not start with an underscore (it is a permutation of
    the routes of those files), each with the path of the file as its
    module and with the route path the convention gives: the path of
    the file relative to root, with backslashes turned into slashes and
    a final .js, then a final /index, removed.  This holds for every
    root and whatever path.join and path.relative do on the platform. *)
Theorem buildRouteTable_convention (path : PathModule) (root : string) :
  buildRouteTable path root None = []
  /\ forall entries,
      Permutation (buildRouteTable path root (Some entries))
                  (expectedRoutes path root entries).
Proof.
  split; [reflexivity|]. intros entries. simpl.
  rewrite walk_expected. apply sort_perm.
Qed.

Lemma buildRouteTable_convention_witness :
  Permutation
    (buildRouteTable Scenario.win32 "C:\app\api" (Some Scenario.apiTree))
    [ {| routePath := "rss-proxy";
         modulePath := "C:\app\api\rss-proxy.js" |};
      {| routePath := "youtube/embed";
         modulePath := "C:\app\api\youtube\embed.js" |};
      {| routePath := "news";
         modulePath := "C:\app\api\news\index.js" |};
      {| routePath := "news/[id]";
         modulePath := "C:\app\api\news\[id].js" |};
      {| routePath := "news/[...rest]";
         modulePath := "C:\app\api\news\[...rest].js" |} ]
  /\ Permutation
       (buildRouteTable Scenario.posix "/app/api/" (Some Scenario.apiTree))
       [ {| routePath := "rss-proxy";
            modulePath := "/app/api/rss-proxy.js" |};
         {| routePath := "youtube/embed";
            modulePath := "/app/api/youtube/embed.js" |};
         {| routePath := "news";
            modulePath := "/app/api/news/index.js" |};
         {| routePath := "news/[id]";
            modulePath := "/app/api/news/[id].js" |};
         {| routePath := "news/[...rest]";
            modulePath := "/app/api/news/[...rest].js" |} ]
  /\ buildRouteTable Scenario.posix "/app/api/" None = [].
Proof.
  split; [|split].
  - exact (proj2 (buildRouteTable_convention Scenario.win32 "C:\app\api")
                 Scenario.apiTree).
  - exact (proj2 (buildRouteTable_convention Scenario.posix "/app/api/")
                 Scenario.apiTree).
  - exact (proj1 (buildRouteTable_convention Scenario.posix "/app/api/")).
Defined.



End RouterFacts.


(** ** Request headers *)

Module HeadersFacts.
Import JsString Headers.

Lemma lowerUnit_idempotent c : lowerUnit (lowerUnit c) = lowerUnit c.
Proof. destruct c as [[] [] [] [] [] [] [] []]; reflexivity. Qed.

Lemma toLowerCase_idempotent s : toLowerCase (toLowerCase s) = toLowerCase s.
Proof.
  induction s as [|c s IH]; simpl; [reflexivity|].
  rewrite lowerUnit_idempotent, IH. reflexivity.
Qed.

(** *** No dropped name is ever stored *)

Definition kept (stripOrigin : bool) (header : string * string) : Prop :=
  dropped stripOrigin (fst header) = false
  /\ toLowerCase (fst header) = fst header.

Lemma setFirst_kept strip name value headers :
  Forall (kept strip) headers ->
  Forall (kept strip) (setFirst name value headers).
Proof.
  induction 1 as [|header rest Hh Hrest IH]; simpl; [constructor|].
  destruct (named name header).
  - constructor; [exact Hh|].
    apply List.Forall_forall. intros h Hin.
    apply filter_In in Hin. destruct Hin as [Hin _].
    rewrite List.Forall_forall in Hrest. apply Hrest, Hin.
  - constructor; assumption.
Qed.

Lemma append_kept strip name value headers :
  dropped strip (toLowerCase name) = false ->
  Forall (kept strip) headers ->
  Forall (kept strip) (append name value headers).
Proof.
  intros Hname Hall. unfold append. apply List.Forall_app. split; [exact Hall|].
  constructor; [|constructor]. split; simpl; [exact Hname|].
  apply toLowerCase_idempotent.
Qed.

Lemma copyEntry_kept strip headers entry :
  Forall (kept strip) headers ->
  Forall (kept strip) (copyEntry strip headers entry).
Proof.
  intros Hall. destruct entry as [key value]. unfold copyEntry.
  assert (Hdropped : dropped strip (toLowerCase key)
                     = if String.eqb (toLowerCase key) "host" then true
                       else if strip
                               && (String.eqb (toLowerCase key) "origin"
                                   || String.eqb (toLowerCase key) "referer"
                                   || startsWith (toLowerCase key) "sec-fetch-")
                            then true else false) by reflexivity.
  destruct (String.eqb (toLowerCase key) "host"); [exact Hall|].
  destruct (strip && (String.eqb (toLowerCase key) "origin"
                      || String.eqb (toLowerCase key) "referer"
                      || startsWith (toLowerCase key) "sec-fetch-"));
    [exact Hall|].
  destruct value as [v|values|]; [| |exact Hall].
  - unfold set. destruct (has headers key);
      [apply setFirst_kept|apply append_kept]; assumption.
  - revert headers Hall.
    induction values as [|v values IH]; intros headers Hall; simpl;
      [exact Hall|].
    apply IH. apply append_kept; assumption.
Qed.

Lemma toHeaders_kept nodeHeaders strip :
  Forall (kept strip) (toHeaders nodeHeaders strip).
Proof.
  unfold toHeaders.
  assert (Hgen : forall acc, Forall (kept strip) acc ->
                             Forall (kept strip)
                                    (fold_left (copyEntry strip) nodeHeaders acc)).
  { induction nodeHeaders as [|entry rest IH]; intros acc Hacc; simpl;
      [exact Hacc|].
    apply IH, copyEntry_kept, Hacc. }
  apply Hgen. constructor.
Qed.

Lemma dropped_true_names lowerKey :
  dropped true lowerKey = false ->
  lowerKey <> "host" /\ lowerKey <> "origin" /\ lowerKey <> "referer"
  /\ startsWith lowerKey "sec-fetch-" = false.
Proof.
  unfold dropped. simpl andb.
  destruct (String.eqb_spec lowerKey "host"); [discriminate|].
  destruct (String.eqb_spec lowerKey "origin"); [discriminate|].
  destruct (String.eqb_spec lowerKey "referer"); [discriminate|].
  destruct (startsWith lowerKey "sec-fetch-"); [discriminate|].
  auto.
Qed.

(** *** Every other header keeps its value *)

Lemma named_same name name' header :
  named name header = true -> named name' header = true ->
  toLowerCase name = toLowerCase name'.
Proof.
  unfold named. intros H H'.
  apply String.eqb_eq in H. apply String.eqb_eq in H'. congruence.
Qed.

Lemma named_other name name' header :
  toLowerCase name <> toLowerCase name' ->
  named name header = true -> named name' header = false.
Proof.
  intros Hne H. destruct (named name' header) eqn:H'; [|reflexivity].
  exfalso. apply Hne. eapply named_same; eassumption.
Qed.

Lemma valuesOf_app headers headers' name :
  valuesOf (headers ++ headers') name
  = valuesOf headers name ++ valuesOf headers' name.
Proof. unfold valuesOf. rewrite List.filter_app, List.map_app. reflexivity. Qed.

Lemma valuesOf_append key value headers name :
  valuesOf (append key value headers) name
  = valuesOf headers name
    ++ (if String.eqb (toLowerCase key) (toLowerCase name)
        then [normalizeValue value] else []).
Proof.
  unfold append. rewrite valuesOf_app. f_equal.
  unfold valuesOf, named. simpl.
  destruct (String.eqb (toLowerCase key) (toLowerCase name)); reflexivity.
Qed.

Lemma has_false_valuesOf headers name :
  has headers name = false -> valuesOf headers name = [].
Proof.
  unfold has, valuesOf. induction headers as [|h rest IH]; simpl;
    [reflexivity|].
  destruct (named name h); simpl; [discriminate|exact IH].
Qed.

Lemma filter_named_removed name headers :
  List.filter (named name) (List.filter (fun h => negb (named name h)) headers)
  = [].
Proof.
  induction headers as [|h rest IH]; simpl; [reflexivity|].
  destruct (named name h) eqn:Hn; simpl; [exact IH|].
  rewrite Hn. exact IH.
Qed.

Lemma filter_named_other name name' headers :
  toLowerCase name <> toLowerCase name' ->
  List.filter (named name') (List.filter (fun h => negb (named name h)) headers)
  = List.filter (named name') headers.
Proof.
  intros Hne. induction headers as [|h rest IH]; simpl; [reflexivity|].
  destruct (named name h) eqn:Hn; simpl.
  - rewrite (named_other _ _ _ Hne Hn). exact IH.
  - destruct (named name' h); [rewrite IH|]; auto.
Qed.

Lemma valuesOf_setFirst_same name value headers :
  has headers name = true ->
  valuesOf (setFirst name value headers) name = [value].
Proof.
  unfold has, valuesOf. induction headers as [|h rest IH]; simpl;
    [discriminate|].
  destruct (named name h) eqn:Hn; simpl.
  - intros _.
    assert (Hhead : named name (fst h, value) = true) by exact Hn.
    rewrite Hhead. simpl. rewrite filter_named_removed. reflexivity.
  - intros Hrest. rewrite Hn. apply IH, Hrest.
Qed.

Lemma valuesOf_setFirst_other name name' value headers :
  toLowerCase name <> toLowerCase name' ->
  valuesOf (setFirst name value headers) name' = valuesOf headers name'.
Proof.
  intros Hne. unfold valuesOf.
  induction headers as [|h rest IH]; simpl; [reflexivity|].
  destruct (named name h) eqn:Hn; simpl.
  - assert (Hhead : named name' (fst h, value) = false)
      by exact (named_other _ _ _ Hne Hn).
    rewrite Hhead, (named_other _ _ _ Hne Hn).
    rewrite filter_named_other by exact Hne. reflexivity.
  - destruct (named name' h); simpl; rewrite IH; reflexivity.
Qed.

Lemma valuesOf_set key value headers name :
  valuesOf (set key value headers) name
  = if String.eqb (toLowerCase key) (toLowerCase name)
    then [normalizeValue value]
    else valuesOf headers name.
Proof.
  unfold set. destruct (String.eqb_spec (toLowerCase key) (toLowerCase name))
    as [Heq|Hne].
  - assert (Hsame : forall hs, valuesOf hs name = valuesOf hs key
                               /\ has hs name = has hs key).
    { intros hs. unfold valuesOf, has, named. rewrite Heq. auto. }
    destruct (has headers key) eqn:Hhas.
    + rewrite (proj1 (Hsame _)). apply valuesOf_setFirst_same, Hhas.
    + rewrite valuesOf_append, Heq, String.eqb_refl.
      rewrite (proj1 (Hsame _)), (has_false_valuesOf _ _ Hhas). reflexivity.
  - destruct (has headers key).
    + apply valuesOf_setFirst_other, Hne.
    + rewrite valuesOf_append.
      destruct (String.eqb_spec (toLowerCase key) (toLowerCase name));
        [contradiction|apply app_nil_r].
Qed.

Lemma valuesOf_appendAll key values headers name :
  valuesOf (fold_left (fun h v => append key v h) values headers) name
  = valuesOf headers name
    ++ (if String.eqb (toLowerCase key) (toLowerCase name)
        then map normalizeValue values else []).
Proof.
  revert headers. induction values as [|v values IH]; intros headers; simpl.
  - destruct (String.eqb (toLowerCase key) (toLowerCase name));
      rewrite app_nil_r; reflexivity.
  - rewrite IH, valuesOf_append.
    destruct (String.eqb (toLowerCase key) (toLowerCase name));
      rewrite <- app_assoc; reflexivity.
Qed.

(** The values an incoming entry contributes under its own name. *)
Definition contributed (value : NodeValue) : list string :=
  match value with
  | NodeString v => [v]
  | NodeArray values => values
  | NodeOther => []
  end.

Lemma copyEntry_other strip headers key value name :
  toLowerCase key <> toLowerCase name ->
  valuesOf (copyEntry strip headers (key, value)) name = valuesOf headers name.
Proof.
  intros Hne. unfold copyEntry.
  destruct (String.eqb (toLowerCase key) "host"); [reflexivity|].
  destruct (strip && _); [reflexivity|].
  apply String.eqb_neq in Hne.
  destruct value as [v|values|]; [| |reflexivity].
  - rewrite valuesOf_set, Hne. reflexivity.
  - rewrite valuesOf_appendAll, Hne. apply app_nil_r.
Qed.

Lemma copyEntry_same strip headers key value :
  dropped strip (toLowerCase key) = false ->
  valuesOf headers key = [] ->
  valuesOf (copyEntry strip headers (key, value)) key
  = map normalizeValue (contributed value).
Proof.
  unfold dropped, copyEntry. intros Hkept Hfresh.
  destruct (String.eqb (toLowerCase key) "host"); [discriminate|].
  destruct (strip && _); [discriminate|].
  destruct value as [v|values|]; simpl contributed.
  - rewrite valuesOf_set, String.eqb_refl. reflexivity.
  - rewrite valuesOf_appendAll, String.eqb_refl, Hfresh. reflexivity.
  - exact Hfresh.
Qed.

Lemma fold_copyEntry_other strip entries name :
  (forall entry, In entry entries ->
                 toLowerCase (fst entry) <> toLowerCase name) ->
  forall headers,
    valuesOf (fold_left (copyEntry strip) entries headers) name
    = valuesOf headers name.
Proof.
  induction entries as [|[key value] rest IH]; intros Hother headers; simpl;
    [reflexivity|].
  rewrite IH by (intros entry Hin; apply Hother; right; exact Hin).
  apply copyEntry_other. apply (Hother (key, value)). left; reflexivity.
Qed.

Lemma toHeaders_values nodeHeaders strip key value :
  distinctNames nodeHeaders ->
  In (key, value) nodeHeaders ->
  dropped strip (toLowerCase key) = false ->
  valuesOf (toHeaders nodeHeaders strip) key
  = map normalizeValue (contributed value).
Proof.
  intros Hdistinct Hin Hkept.
  apply in_split in Hin. destruct Hin as (before & after & ->).
  unfold distinctNames in Hdistinct.
  rewrite List.map_app in Hdistinct. simpl in Hdistinct.
  pose proof (NoDup_remove_2 _ _ _ Hdistinct) as Hfresh.
  unfold toHeaders. rewrite fold_left_app. simpl.
  rewrite fold_copyEntry_other.
  - apply copyEntry_same; [exact Hkept|].
    rewrite fold_copyEntry_other; [reflexivity|].
    intros entry Hentry Heq. apply Hfresh, in_or_app. left.
    apply in_map_iff. exists entry. auto.
  - intros entry Hentry Heq. apply Hfresh, in_or_app. right.
    apply in_map_iff. exists entry. auto.
Qed.

Lemma dropLeading_units value :
  dropLeading value
  = string_of_list_ascii (afterWhitespace (list_ascii_of_string value)).
Proof.
  induction value as [|c rest IH]; simpl; [reflexivity|].
  destruct (isHttpWhitespace c); [exact IH|].
  simpl. rewrite string_of_list_ascii_of_string. reflexivity.
Qed.

Lemma afterWhitespace_last units c :
  afterWhitespace (units ++ [c])
  = match afterWhitespace units with
    | [] => if isHttpWhitespace c then [] else [c]
    | kept => kept ++ [c]
    end.
Proof.
  induction units as [|first rest IH]; simpl; [reflexivity|].
  destruct (isHttpWhitespace first); [exact IH|reflexivity].
Qed.

Lemma dropTrailing_units value :
  dropTrailing value
  = string_of_list_ascii
      (rev (afterWhitespace (rev (list_ascii_of_string value)))).
Proof.
  induction value as [|c rest IH]; [reflexivity|].
  cbn [dropTrailing list_ascii_of_string rev]. rewrite IH.
  rewrite afterWhitespace_last.
  destruct (afterWhitespace (rev (list_ascii_of_string rest)))
    as [|unit kept]; cbn [rev string_of_list_ascii].
  - destruct (isHttpWhitespace c); reflexivity.
  - rewrite rev_app_distr. cbn [rev app string_of_list_ascii].
    destruct (rev kept ++ [unit])%list as [|unit' kept'] eqn:Hkept;
      [|reflexivity].
    destruct (rev kept); discriminate Hkept.
Qed.

Lemma normalizeValue_unpadded value : normalizeValue value = unpadded value.
Proof.
  unfold normalizeValue, unpadded.
  rewrite dropTrailing_units, dropLeading_units.
  rewrite list_ascii_of_string_of_list_ascii. reflexivity.
Qed.

Lemma map_normalizeValue values :
  map normalizeValue values = map unpadded values.
Proof. apply map_ext, normalizeValue_unpadded. Qed.

Lemma get_readBack headers key value :
  valuesOf headers key = map normalizeValue (contributed value) ->
  get headers key = readBack key value.
Proof.
  unfold get, separator. intros ->. rewrite map_normalizeValue.
  destruct value as [v|[|v values]|]; reflexivity.
Qed.

Lemma toHeaders_get nodeHeaders strip key value :
  accepted nodeHeaders ->
  In (key, value) nodeHeaders ->
  dropped strip (toLowerCase key) = false ->
  get (toHeaders nodeHeaders strip) key = readBack key value.
Proof.
  intros [Hdistinct _] Hin Hkept.
  apply get_readBack, toHeaders_values; assumption.
Qed.

End HeadersFacts.

(** ** The sidecar *)

Module SidecarFacts.
Import JsString Router Headers Effect EffectFacts Sidecar.

(** *** The headers of a reply *)

(** The values of the headers called exactly [name], in order. *)
Fixpoint valuesUnder (name : string) (headers : list (string * string))
  : list string :=
  match headers with
  | [] => []
  | (key, value) :: rest =>
      if String.eqb key name then value :: valuesUnder name rest
      else valuesUnder name rest
  end.

(** What a reply holds under [name] for a response with these headers:
    nothing when the response has no header of that name, the last value
    for Set-Cookie, and for any other name its values joined, those of
    Cookie by a semicolon and the others by a comma. *)
Definition written (headers : HeaderList) (name : string) : option string :=
  match valuesUnder name headers with
  | [] => None
  | values =>
      Some (if String.eqb name "set-cookie" then List.last values ""
            else join (if String.eqb (toLowerCase name) "cookie"
                       then "; " else ", ") values)
  end.

(** The body of the response can be read. *)
Definition readable (response : Response) : Prop :=
  forall error, responseBody response <> Failing error.

(** Node accepts the status and the headers of the response. *)
Definition sendable (response : Response) : Prop :=
  (100 <= status response <= 999)%Z
  /\ forall name value,
      written (responseHeaders response) name = Some value ->
      isToken name = true /\ isFieldText value = true.

Lemma stored_valuesUnder headers name :
  stored headers name = valuesUnder name headers.
Proof.
  unfold stored. induction headers as [|[key value] rest IH]; simpl;
    [reflexivity|].
  destruct (String.eqb key name); simpl; rewrite IH; reflexivity.
Qed.

Lemma valuesUnder_app name xs ys :
  valuesUnder name (xs ++ ys) = valuesUnder name xs ++ valuesUnder name ys.
Proof.
  induction xs as [|[key value] rest IH]; simpl; [reflexivity|].
  destruct (String.eqb key name); simpl; rewrite IH; reflexivity.
Qed.

Lemma valuesUnder_nil name headers :
  valuesUnder name headers = [] <-> ~ In name (map fst headers).
Proof.
  induction headers as [|[key value] rest IH]; simpl; [tauto|].
  destruct (String.eqb_spec key name) as [->|Hne].
  - split; [discriminate|]. intros H. exfalso. apply H. left. reflexivity.
  - rewrite IH. tauto.
Qed.

Lemma insertName_In name names other :
  In other (insertName name names) <-> other = name \/ In other names.
Proof.
  induction names as [|first rest IH]; simpl; [intuition|].
  destruct (String.leb name first); simpl; [intuition|].
  rewrite IH. intuition.
Qed.

Lemma insertName_NoDup name names :
  ~ In name names -> List.NoDup names -> List.NoDup (insertName name names).
Proof.
  intros Hnew. induction 1 as [|first rest Hfresh Hrest IH]; simpl.
  - constructor; [intros []|constructor].
  - destruct (String.leb name first).
    + constructor; [exact Hnew|constructor; assumption].
    + constructor.
      * rewrite insertName_In. intros [Heq|Hin]; [|exact (Hfresh Hin)].
        apply Hnew. left. exact Heq.
      * apply IH. intros Hin. apply Hnew. right. exact Hin.
Qed.

Lemma sorted_In names name :
  In name (fold_right insertName [] names) <-> In name names.
Proof.
  induction names as [|first rest IH]; simpl; [tauto|].
  rewrite insertName_In, IH. intuition.
Qed.

Lemma sorted_NoDup names :
  List.NoDup names -> List.NoDup (fold_right insertName [] names).
Proof.
  induction 1 as [|first rest Hfresh Hrest IH]; simpl; [constructor|].
  apply insertName_NoDup; [|exact IH].
  rewrite sorted_In. exact Hfresh.
Qed.

Lemma sortedNames_In headers name :
  In name (sortedNames headers) <-> In name (map fst headers).
Proof. unfold sortedNames. rewrite sorted_In. apply nodup_In. Qed.

Lemma sortedNames_NoDup headers : List.NoDup (sortedNames headers).
Proof. apply sorted_NoDup, NoDup_nodup. Qed.

Lemma fromEntries_lookup pairs (object : gmap string string) name :
  fold_left (fun object pair => <[fst pair := snd pair]> object) pairs object
  !! name
  = match valuesUnder name pairs with
    | [] => object !! name
    | values => Some (List.last values "")
    end.
Proof.
  revert object. induction pairs as [|[key value] rest IH]; intros object;
    simpl; [reflexivity|].
  rewrite IH. destruct (String.eqb_spec key name) as [->|Hne].
  - destruct (valuesUnder name rest); [|reflexivity].
    apply lookup_insert_eq.
  - destruct (valuesUnder name rest); [|reflexivity].
    apply lookup_insert_ne, Hne.
Qed.

(** The pairs [entries] yields for one name. *)
Definition entriesOf (headers : HeaderList) (name : string)
  : list (string * string) :=
  if String.eqb name "set-cookie"
  then map (pair name) (stored headers name)
  else [(name, join (separator name) (stored headers name))].

Lemma valuesUnder_entriesOf_other headers name other :
  other <> name -> valuesUnder name (entriesOf headers other) = [].
Proof.
  intros Hne. apply String.eqb_neq in Hne. unfold entriesOf.
  destruct (String.eqb other "set-cookie").
  - induction (stored headers other) as [|v vs IH]; simpl; [reflexivity|].
    rewrite Hne. exact IH.
  - simpl. rewrite Hne. reflexivity.
Qed.

Lemma valuesUnder_entriesOf_same headers name :
  valuesUnder name (entriesOf headers name)
  = if String.eqb name "set-cookie" then stored headers name
    else [join (separator name) (stored headers name)].
Proof.
  unfold entriesOf. destruct (String.eqb name "set-cookie").
  - induction (stored headers name) as [|v vs IH]; simpl; [reflexivity|].
    rewrite String.eqb_refl, IH. reflexivity.
  - simpl. rewrite String.eqb_refl. reflexivity.
Qed.

Lemma valuesUnder_flat_map headers name names :
  List.NoDup names ->
  valuesUnder name (flat_map (entriesOf headers) names)
  = if in_dec String.string_dec name names
    then valuesUnder name (entriesOf headers name) else [].
Proof.
  induction 1 as [|first rest Hfresh Hrest IH]; simpl; [reflexivity|].
  rewrite valuesUnder_app, IH.
  destruct (String.string_dec first name) as [->|Hne].
  - destruct (in_dec String.string_dec name rest) as [Hin|_];
      [contradiction|apply app_nil_r].
  - rewrite (valuesUnder_entriesOf_other _ _ _ Hne).
    destruct (in_dec String.string_dec name rest); reflexivity.
Qed.

Lemma entries_lookup headers name :
  fromEntries (entries headers) !! name = written headers name.
Proof.
  unfold fromEntries. rewrite fromEntries_lookup.
  change (entries headers)
    with (flat_map (entriesOf headers) (sortedNames headers)).
  rewrite valuesUnder_flat_map by apply sortedNames_NoDup.
  unfold written.
  destruct (in_dec String.string_dec name (sortedNames headers)) as [Hin|Hout].
  - rewrite valuesUnder_entriesOf_same, stored_valuesUnder.
    rewrite sortedNames_In in Hin.
    destruct (valuesUnder name headers) as [|v vs] eqn:Hvalues.
    + apply valuesUnder_nil in Hvalues. contradiction.
    + unfold separator. destruct (String.eqb name "set-cookie"); reflexivity.
  - rewrite sortedNames_In in Hout. apply valuesUnder_nil in Hout.
    rewrite Hout. apply lookup_empty.
Qed.

Lemma accepted_headers (headers : gmap string string) :
  forallb (fun header => isToken (fst header) && isFieldText (snd header))
          (map_to_list headers) = true
  <-> forall name value,
      headers !! name = Some value ->
      isToken name = true /\ isFieldText value = true.
Proof.
  rewrite forallb_forall. split.
  - intros Hall name value Hlookup.
    apply andb_prop, (Hall (name, value)).
    apply list_elem_of_In, elem_of_map_to_list, Hlookup.
  - intros Hall [name value] Hin.
    apply list_elem_of_In, elem_of_map_to_list in Hin.
    destruct (Hall _ _ Hin) as [Hname Hvalue]. cbn [fst snd].
    rewrite Hname, Hvalue. reflexivity.
Qed.

Lemma writeHead_accepts response w :
  sendable response ->
  writeHead (status response) (fromEntries (entries (responseHeaders response)))
            w
  = (Ok tt, w).
Proof.
  intros [[Hlow Hhigh] Hheaders]. unfold writeHead.
  assert (Hrange : ((status response <? 100) || (999 <? status response))%Z
                   = false).
  { apply orb_false_intro; apply Z.ltb_ge; assumption. }
  rewrite Hrange.
  assert (Hall : forallb (fun header => isToken (fst header)
                                        && isFieldText (snd header))
                         (map_to_list
                            (fromEntries (entries (responseHeaders response))))
                 = true).
  { apply accepted_headers. intros name value. rewrite entries_lookup.
    apply Hheaders. }
  rewrite Hall. reflexivity.
Qed.

Lemma writeHead_refuses response w :
  ~ sendable response ->
  exists error,
    writeHead (status response)
              (fromEntries (entries (responseHeaders response))) w
    = (Throws error, w).
Proof.
  intros Hnot. unfold writeHead.
  destruct ((status response <? 100) || (999 <? status response))%Z
    eqn:Hrange; [eexists; reflexivity|].
  destruct (forallb _ _) eqn:Hall; [|eexists; reflexivity].
  exfalso. apply Hnot. split.
  - apply orb_false_elim in Hrange. destruct Hrange as [Hlow Hhigh].
    apply Z.ltb_ge in Hlow. apply Z.ltb_ge in Hhigh. lia.
  - intros name value Hwritten. rewrite <- entries_lookup in Hwritten.
    revert name value Hwritten. apply accepted_headers, Hall.
Qed.

Section Runs.
Variable env : Env.
Variable context : Context.

Lemma bodyFor_run req w :
  bodyFor env req w
  = ((if isGetOrHead req then Ok None else bodyStream env (bodyReads w)),
     {| moduleCache := moduleCache w;
        bodyReads := readsAfterLocal req w;
        log := log w |}).
Proof.
  unfold bodyFor, readsAfterLocal, isGetOrHead.
  destruct (String.eqb (method req) "GET" || String.eqb (method req) "HEAD");
    [destruct w|]; reflexivity.
Qed.

Lemma proxyToCloud_outcome requestUrl req w :
  fst (proxyToCloud env requestUrl req (remoteBase context) w)
  = proxyOutcome env context requestUrl req (bodyReads w).
Proof.
  unfold proxyToCloud, proxyOutcome, proxyBody. rewrite bind_run, bodyFor_run.
  destruct (if isGetOrHead req then Ok None else bodyStream env (bodyReads w));
    reflexivity.
Qed.

Lemma tryCloudFallback_outcome requestUrl req reason w :
  fst (tryCloudFallback env context requestUrl req reason w)
  = Ok (match proxyOutcome env context requestUrl req (bodyReads w) with
        | Ok response => Some response
        | Throws _ => None
        end).
Proof.
  unfold tryCloudFallback. rewrite bind_run.
  assert (Hwarn : exists w0,
             (if truthy reason
              then emit (Warned "[local-api] local route fallback to cloud"
                                (pathname requestUrl) reason)
              else mret ()) w = (Ok tt, w0)
             /\ bodyReads w0 = bodyReads w).
  { destruct (truthy reason); eexists; split; reflexivity. }
  destruct Hwarn as [w0 [-> Hreads]].
  unfold tryCatch. rewrite bind_run.
  rewrite <- Hreads, <- proxyToCloud_outcome.
  destruct (proxyToCloud env requestUrl req (remoteBase context) w0)
    as [[response|e] w1]; reflexivity.
Qed.

Lemma fallback_run requestUrl req reason fallback w :
  fst ((cloudResponse ← tryCloudFallback env context requestUrl req reason;
        mret (orElse cloudResponse fallback)) w)
  = cloudOr (proxyOutcome env context requestUrl req (bodyReads w)) fallback.
Proof.
  rewrite bind_run.
  pose proof (tryCloudFallback_outcome requestUrl req reason w) as H.
  destruct (tryCloudFallback env context requestUrl req reason w)
    as [[cloudResponse|e] w1]; simpl in H; [|discriminate H].
  injection H as ->.
  destruct (proxyOutcome env context requestUrl req (bodyReads w));
    reflexivity.
Qed.

Lemma importHandler_reads modulePath w :
  bodyReads (snd (importHandler env modulePath w)) = bodyReads w.
Proof.
  unfold importHandler.
  destruct (moduleCache w !! modulePath); [reflexivity|].
  destruct (importModule env modulePath); reflexivity.
Qed.

(** The rest of the [try] block once the handler has answered. *)
Definition afterHandler (requestUrl : Url) (req : IncomingMessage)
           (answer : Outcome HandlerValue) : M Response :=
  match answer with
  | Throws e => throw e
  | Ok NotResponse =>
      cloudResponse ← tryCloudFallback env context requestUrl req
        "handler returned non-Response";
      mret (orElse cloudResponse
              (json (errorBody ("Handler returned invalid response for "
                                ++ pathname requestUrl)) 500))
  | Ok (IsResponse response) =>
      if negb (ok response) then
        cloudResponse ← tryCloudFallback env context requestUrl req
          ("local status " ++ pretty (status response));
        mret (orElse cloudResponse response)
      else mret response
  end.

Lemma runLocal_handler requestUrl req routes w modulePath handler request :
  handlerRuns env requestUrl req routes w modulePath handler request ->
  exists w',
    bodyReads w' = readsAfterLocal req w
    /\ runLocal env context requestUrl req modulePath w
       = afterHandler requestUrl req (handler request) w'.
Proof.
  intros (_ & _ & _ & _ & Himport & (body & Hbody & ->) & Haccepted).
  unfold runLocal. rewrite bind_run.
  pose proof (importHandler_reads modulePath w) as Hreads.
  destruct (importHandler env modulePath w) as [[module|e] w1];
    simpl in Himport, Hreads; [|discriminate Himport].
  injection Himport as ->.
  rewrite bind_run, bodyFor_run. rewrite bodyFor_run in Hbody.
  simpl in Hbody. rewrite Hreads, Hbody.
  rewrite bind_run. unfold newRequest.
  change (requestAccepted env (localRequest requestUrl req body) = true)
    in Haccepted.
  change {| requestUrl := href requestUrl;
            requestMethod := method req;
            requestHeaders := toHeaders (headers req) true;
            requestBody := body |}
    with (localRequest requestUrl req body).
  rewrite Haccepted, ret_run, bind_run.
  unfold callHandler. rewrite bind_run. unfold emit, lift.
  eexists. split; [|destruct (handler (localRequest requestUrl req body))
                      as [[response|]|e]; reflexivity].
  unfold readsAfterLocal. simpl. rewrite Hreads. reflexivity.
Qed.

Lemma dispatch_routed requestUrl req routes w :
  routed requestUrl ->
  dispatch env context requestUrl req routes w
  = match pickModule (pathname requestUrl) routes with
    | Some path =>
        if negb (truthy path) || negb (existsSync env path) then
          (cloudResponse ← tryCloudFallback env context requestUrl req
                                            "handler missing";
           mret (orElse cloudResponse
                   (json (errorBody
                      "Local handler missing and cloud fallback unavailable")
                      502))) w
        else
          tryCatch (runLocal env context requestUrl req path)
            (fun error =>
               cloudResponse ← tryCloudFallback env context requestUrl req error;
               mret (orElse cloudResponse
                       (json (errorBody
                          "Local handler failed and cloud fallback unavailable")
                          502))) w
    | None =>
        (cloudResponse ← tryCloudFallback env context requestUrl req
                                          "handler missing";
         mret (orElse cloudResponse
                 (json (errorBody
                    "Local handler missing and cloud fallback unavailable")
                    502))) w
    end.
Proof.
  intros [Hservice Hlocal]. unfold dispatch.
  apply String.eqb_neq in Hservice. apply String.eqb_neq in Hlocal.
  rewrite Hservice, Hlocal.
  destruct (pickModule (pathname requestUrl) routes) as [path|]; [|reflexivity].
  destruct (negb (truthy path) || negb (existsSync env path)); reflexivity.
Qed.

Lemma truthy_nonempty (s : string) : s <> "" -> truthy s = true.
Proof. destruct s; [congruence|reflexivity]. Qed.

Lemma dispatch_handler requestUrl req routes w modulePath handler request :
  handlerRuns env requestUrl req routes w modulePath handler request ->
  exists w',
    bodyReads w' = readsAfterLocal req w
    /\ dispatch env context requestUrl req routes w
       = tryCatch (afterHandler requestUrl req (handler request))
           (fun error =>
              cloudResponse ← tryCloudFallback env context requestUrl req error;
              mret (orElse cloudResponse
                      (json (errorBody
                         "Local handler failed and cloud fallback unavailable")
                         502))) w'.
Proof.
  intros Hruns.
  destruct (runLocal_handler _ _ _ _ _ _ _ Hruns) as (w' & Hreads & Hrun).
  destruct Hruns as (Hrouted & Hpick & Hpath & Hexists & _).
  exists w'. split; [exact Hreads|].
  rewrite dispatch_routed by exact Hrouted.
  rewrite Hpick, Hexists, (truthy_nonempty _ Hpath). simpl.
  unfold tryCatch. rewrite Hrun. reflexivity.
Qed.

Lemma proxyToCloud_log requestUrl req w body :
  proxyBody env req (bodyReads w) = Ok body ->
  log (snd (proxyToCloud env requestUrl req (remoteBase context) w))
  = log w ++ [Fetched (cloudCall context requestUrl req body)].
Proof.
  unfold proxyToCloud, proxyBody. intros Hbody.
  rewrite bind_run, bodyFor_run, Hbody.
  unfold callFetch. rewrite bind_run. unfold emit, lift. reflexivity.
Qed.

Lemma fallback_log requestUrl req reason fallback w body :
  proxyBody env req (bodyReads w) = Ok body ->
  In (Fetched (cloudCall context requestUrl req body))
     (log (snd ((cloudResponse ← tryCloudFallback env context requestUrl req reason;
                 mret (orElse cloudResponse fallback)) w))).
Proof.
  intros Hbody. rewrite bind_run. unfold tryCloudFallback. rewrite bind_run.
  assert (Hwarn : exists w0,
             (if truthy reason
              then emit (Warned "[local-api] local route fallback to cloud"
                                (pathname requestUrl) reason)
              else mret ()) w = (Ok tt, w0)
             /\ bodyReads w0 = bodyReads w).
  { destruct (truthy reason); eexists; split; reflexivity. }
  destruct Hwarn as [w0 [-> Hreads]].
  rewrite <- Hreads in Hbody.
  pose proof (proxyToCloud_log requestUrl req w0 body Hbody) as Hlog.
  unfold tryCatch. rewrite bind_run.
  destruct (proxyToCloud env requestUrl req (remoteBase context) w0)
    as [[response|e] w1]; simpl in Hlog |- *.
  - rewrite Hlog. apply in_or_app. right. left. reflexivity.
  - rewrite Hlog. apply in_or_app. left. apply in_or_app. right. left.
    reflexivity.
Qed.

(** C3: when the matched local handler returns a Response whose status
    is not 2xx, dispatch attempts the cloud proxy; the proxy's response is
    returned when the call succeeds, and the handler's failure Response,
    unchanged, when the call throws. *)
Theorem failure_status_falls_back
        requestUrl req routes w modulePath handler request response :
  handlerRuns env requestUrl req routes w modulePath handler request ->
  handler request = Ok (IsResponse response) ->
  ok response = false ->
  fst (dispatch env context requestUrl req routes w)
  = cloudOr (proxyOutcome env context requestUrl req (readsAfterLocal req w))
            response
  /\ forall body,
      proxyBody env req (readsAfterLocal req w) = Ok body ->
      In (Fetched (cloudCall context requestUrl req body))
         (log (snd (dispatch env context requestUrl req routes w))).
Proof.
  intros Hruns Hanswer Hok.
  destruct (dispatch_handler _ _ _ _ _ _ _ Hruns) as (w' & Hreads & ->).
  rewrite Hanswer. unfold afterHandler. rewrite Hok. simpl negb. cbv iota.
  rewrite <- Hreads. unfold tryCatch. split.
  - pose proof (fallback_run requestUrl req
                  ("local status " ++ pretty (status response)) response w')
      as Hrun.
    destruct ((cloudResponse ← tryCloudFallback env context requestUrl req
                 ("local status " ++ pretty (status response));
               mret (orElse cloudResponse response)) w')
      as [[cloud|e] w1]; simpl in Hrun |- *; [exact Hrun|].
    destruct (proxyOutcome env context requestUrl req (bodyReads w'));
      discriminate Hrun.
  - intros body Hbody.
    pose proof (fallback_log requestUrl req
                  ("local status " ++ pretty (status response)) response w'
                  body Hbody) as Hlog.
    pose proof (fallback_run requestUrl req
                  ("local status " ++ pretty (status response)) response w')
      as Hrun.
    destruct ((cloudResponse ← tryCloudFallback env context requestUrl req
                 ("local status " ++ pretty (status response));
               mret (orElse cloudResponse response)) w')
      as [[cloud|e] w1]; simpl in Hrun, Hlog |- *; [exact Hlog|].
    destruct (proxyOutcome env context requestUrl req (bodyReads w'));
      discriminate Hrun.
Qed.

(** C4: for a request that is not a built-in status endpoint and for
    which pickModule finds no route, or whose matched module file does not
    exist on disk, dispatch proxies the request to the cloud remote base
    and returns the proxy's response; if the proxy attempt throws it
    returns a JSON error with status 502. *)
Theorem missing_handler_falls_back requestUrl req routes w :
  routed requestUrl ->
  (pickModule (pathname requestUrl) routes = None
   \/ exists modulePath,
       pickModule (pathname requestUrl) routes = Some modulePath
       /\ existsSync env modulePath = false) ->
  fst (dispatch env context requestUrl req routes w)
  = cloudOr (proxyOutcome env context requestUrl req (bodyReads w))
            {| status := 502;
               responseHeaders := [("content-type", "application/json")];
               responseBody :=
                 Stringified
                   (JObject
                      [("error",
                        JString "Local handler missing and cloud fallback unavailable")]) |}
  /\ forall body,
      proxyBody env req (bodyReads w) = Ok body ->
      In (Fetched (cloudCall context requestUrl req body))
         (log (snd (dispatch env context requestUrl req routes w))).
Proof.
  intros Hrouted Hmissing.
  rewrite dispatch_routed by exact Hrouted.
  assert (Hbranch :
    match pickModule (pathname requestUrl) routes with
    | Some path => negb (truthy path) || negb (existsSync env path) = true
    | None => True
    end).
  { destruct Hmissing as [->|(modulePath & -> & ->)]; [exact I|].
    apply orb_true_r. }
  destruct (pickModule (pathname requestUrl) routes) as [path|];
    [rewrite Hbranch|]; (split; [apply fallback_run|intros body; apply fallback_log]).
Qed.

Lemma tryCatch_fallback requestUrl req reason fallback handler w :
  tryCatch
    (cloudResponse ← tryCloudFallback env context requestUrl req reason;
     mret (orElse cloudResponse fallback)) handler w
  = (cloudOr (proxyOutcome env context requestUrl req (bodyReads w)) fallback,
     snd ((cloudResponse ← tryCloudFallback env context requestUrl req reason;
           mret (orElse cloudResponse fallback)) w)).
Proof.
  unfold tryCatch.
  pose proof (fallback_run requestUrl req reason fallback w) as Hrun.
  destruct ((cloudResponse ← tryCloudFallback env context requestUrl req reason;
             mret (orElse cloudResponse fallback)) w)
    as [[cloud|e] w1]; simpl in Hrun |- *; [rewrite Hrun; reflexivity|].
  destruct (proxyOutcome env context requestUrl req (bodyReads w));
    discriminate Hrun.
Qed.

(** C5: when the matched module's default export is not a function, or
    its handler returns a value that is not a Response, or its handler
    throws, dispatch attempts the cloud proxy and returns the proxy's
    response when the call succeeds; when it fails, the first two cases
    return a JSON error with status 500 and the third a JSON error with
    status 502. *)
Theorem invalid_handler_falls_back requestUrl req routes w :
  (forall modulePath,
      routed requestUrl ->
      pickModule (pathname requestUrl) routes = Some modulePath ->
      modulePath <> "" ->
      existsSync env modulePath = true ->
      fst (importHandler env modulePath w) = Ok NotFunction ->
      fst (dispatch env context requestUrl req routes w)
      = cloudOr (proxyOutcome env context requestUrl req (bodyReads w))
                {| status := 500;
                   responseHeaders := [("content-type", "application/json")];
                   responseBody :=
                     Stringified
                       (JObject
                          [("error",
                            JString ("Invalid handler module: "
                                     ++ basename env modulePath))]) |})
  /\ (forall modulePath handler request,
         handlerRuns env requestUrl req routes w modulePath handler request ->
         handler request = Ok NotResponse ->
         fst (dispatch env context requestUrl req routes w)
         = cloudOr (proxyOutcome env context requestUrl req
                                 (readsAfterLocal req w))
                   {| status := 500;
                      responseHeaders := [("content-type", "application/json")];
                      responseBody :=
                        Stringified
                          (JObject
                             [("error",
                               JString ("Handler returned invalid response for "
                                        ++ pathname requestUrl))]) |})
  /\ (forall modulePath handler request error,
         handlerRuns env requestUrl req routes w modulePath handler request ->
         handler request = Throws error ->
         fst (dispatch env context requestUrl req routes w)
         = cloudOr (proxyOutcome env context requestUrl req
                                 (readsAfterLocal req w))
                   {| status := 502;
                      responseHeaders := [("content-type", "application/json")];
                      responseBody :=
                        Stringified
                          (JObject
                             [("error",
                               JString "Local handler failed and cloud fallback unavailable")]) |}).
Proof.
  split; [|split].
  - intros modulePath Hrouted Hpick Hpath Hexists Himport.
    rewrite dispatch_routed by exact Hrouted.
    rewrite Hpick, Hexists, (truthy_nonempty _ Hpath). simpl orb. cbv iota.
    pose proof (importHandler_reads modulePath w) as Hreads.
    unfold tryCatch at 1, runLocal. rewrite bind_run.
    destruct (importHandler env modulePath w) as [[module|e] w1];
      simpl in Himport, Hreads; [|discriminate Himport].
    injection Himport as ->. rewrite <- Hreads.
    pose proof (fallback_run requestUrl req
                  ("invalid handler module " ++ basename env modulePath)
                  (json (errorBody ("Invalid handler module: "
                                    ++ basename env modulePath)) 500) w1)
      as Hrun.
    destruct ((cloudResponse ← tryCloudFallback env context requestUrl req
                 ("invalid handler module " ++ basename env modulePath);
               mret (orElse cloudResponse
                       (json (errorBody ("Invalid handler module: "
                                         ++ basename env modulePath)) 500))) w1)
      as [[cloud|e] w2]; simpl in Hrun |- *; [exact Hrun|].
    destruct (proxyOutcome env context requestUrl req (bodyReads w1));
      discriminate Hrun.
  - intros modulePath handler request Hruns Hanswer.
    destruct (dispatch_handler _ _ _ _ _ _ _ Hruns) as (w' & Hreads & ->).
    rewrite Hanswer. unfold afterHandler.
    rewrite tryCatch_fallback, Hreads. reflexivity.
  - intros modulePath handler request error Hruns Hanswer.
    destruct (dispatch_handler _ _ _ _ _ _ _ Hruns) as (w' & Hreads & ->).
    rewrite Hanswer. unfold afterHandler, tryCatch at 1, throw.
    rewrite fallback_run, Hreads. reflexivity.
Qed.

(** *** The trace of a run *)

Abbreviation extends := (EffectFacts.extends log).

Lemma extends_emit (P : Event -> Prop) event : P event -> extends P (emit event).
Proof.
  intros HP w. exists [event]. split; [reflexivity|].
  constructor; [exact HP|constructor].
Qed.

Lemma extends_readBody P : extends P (readBody env).
Proof. intros w. exists []. rewrite app_nil_r. split; [reflexivity|constructor]. Qed.

Lemma extends_bodyFor P req : extends P (bodyFor env req).
Proof.
  unfold bodyFor. destruct (_ || _); [apply extends_ret|apply extends_readBody].
Qed.

Lemma extends_importHandler P modulePath :
  extends P (importHandler env modulePath).
Proof.
  intros w. exists []. rewrite app_nil_r. split; [|constructor].
  unfold importHandler. destruct (moduleCache w !! modulePath); [reflexivity|].
  destruct (importModule env modulePath); reflexivity.
Qed.

Section Forwarding.
Variable req : IncomingMessage.

Lemma extends_proxyToCloud requestUrl base :
  extends (forwardsStripped req) (proxyToCloud env requestUrl req base).
Proof.
  unfold proxyToCloud. apply extends_bind; [apply extends_bodyFor|].
  intros body. unfold callFetch. apply extends_bind.
  - apply extends_emit. reflexivity.
  - intros _. apply extends_lift.
Qed.

Lemma extends_tryCloudFallback requestUrl reason :
  extends (forwardsStripped req)
          (tryCloudFallback env context requestUrl req reason).
Proof.
  unfold tryCloudFallback. apply extends_bind.
  - destruct (truthy reason); [apply extends_emit; exact I|apply extends_ret].
  - intros _. apply extends_tryCatch.
    + apply extends_bind; [apply extends_proxyToCloud|].
      intros response. apply extends_ret.
    + intros e. apply extends_bind; [apply extends_emit; exact I|].
      intros _. apply extends_ret.
Qed.

Lemma extends_fallback requestUrl reason fallback :
  extends (forwardsStripped req)
          (cloudResponse ← tryCloudFallback env context requestUrl req reason;
           mret (orElse cloudResponse fallback)).
Proof.
  apply extends_bind; [apply extends_tryCloudFallback|].
  intros cloudResponse. apply extends_ret.
Qed.

Lemma extends_newRequest_bind {B : Type} init (k : Request -> M B) :
  extends (forwardsStripped req) (k init) ->
  extends (forwardsStripped req) (newRequest env init ≫= k).
Proof.
  intros Hk w. unfold newRequest. rewrite bind_run.
  destruct (requestAccepted env init).
  - rewrite ret_run. apply Hk.
  - exists []. rewrite app_nil_r. split; [reflexivity|constructor].
Qed.

Lemma extends_runLocal requestUrl modulePath :
  extends (forwardsStripped req)
          (runLocal env context requestUrl req modulePath).
Proof.
  unfold runLocal. apply extends_bind; [apply extends_importHandler|].
  intros [|handler]; [apply extends_fallback|].
  apply extends_bind; [apply extends_bodyFor|]. intros body.
  apply extends_newRequest_bind. apply extends_bind.
  - unfold callHandler. apply extends_bind; [|intros _; apply extends_lift].
    apply extends_emit. reflexivity.
  - intros [response|]; [|apply extends_fallback].
    destruct (negb (ok response)); [apply extends_fallback|apply extends_ret].
Qed.

Lemma extends_dispatch requestUrl routes :
  extends (forwardsStripped req)
          (dispatch env context requestUrl req routes).
Proof.
  unfold dispatch.
  destruct (String.eqb (pathname requestUrl) "/api/service-status");
    [apply extends_ret|].
  destruct (String.eqb (pathname requestUrl) "/api/local-status");
    [apply extends_ret|].
  destruct (pickModule (pathname requestUrl) routes) as [path|];
    [|apply extends_fallback].
  destruct (negb (truthy path) || negb (existsSync env path));
    [apply extends_fallback|].
  apply extends_tryCatch; [apply extends_runLocal|].
  intros e. apply extends_fallback.
Qed.

End Forwarding.

(** *** The reply of the listener *)

(** What the [catch] block of the listener does. *)
Definition caught (error : Thrown) (w : World) : Outcome Reply * World :=
  (Ok {| replyStatus := 500;
         replyHeaders := {[ "content-type" := "application/json" ]};
         replyBody := Stringified
                        (JObject [("error", JString "Internal server error")]) |},
   {| moduleCache := moduleCache w;
      bodyReads := bodyReads w;
      log := log w ++ [Errored "[local-api] fatal" error] |}).

Lemma listener_api routes req w requestUrl :
  parseUrl env (rawOf req) = Ok requestUrl ->
  startsWith (pathname requestUrl) "/api/" = true ->
  listener env context routes req w
  = match dispatch env context requestUrl req routes w with
    | (Ok response, w1) =>
        match responseBody response with
        | Failing error => caught error w1
        | body =>
            match writeHead (status response)
                            (fromEntries (entries (responseHeaders response)))
                            w1 with
            | (Ok _, w2) =>
                (Ok {| replyStatus := status response;
                       replyHeaders :=
                         fromEntries (entries (responseHeaders response));
                       replyBody := body |}, w2)
            | (Throws error, w2) => caught error w2
            end
        end
    | (Throws error, w1) => caught error w1
    end.
Proof.
  intros Hparse Hapi. unfold listener. rewrite bind_run. unfold lift.
  rewrite Hparse, Hapi. change (negb true) with false. cbv beta iota.
  unfold tryCatch. rewrite bind_run.
  destruct (dispatch env context requestUrl req routes w) as [[response|e] w1];
    [|reflexivity].
  rewrite bind_run. unfold arrayBuffer.
  destruct (responseBody response) as [data|bytes|error]; [| |reflexivity];
    rewrite ret_run, bind_run;
    destruct (writeHead _ _ w1) as [[[]|error] w2]; reflexivity.
Qed.

Lemma listener_sends routes req w requestUrl response w1 :
  parseUrl env (rawOf req) = Ok requestUrl ->
  startsWith (pathname requestUrl) "/api/" = true ->
  dispatch env context requestUrl req routes w = (Ok response, w1) ->
  readable response ->
  sendable response ->
  listener env context routes req w
  = (Ok {| replyStatus := status response;
           replyHeaders := fromEntries (entries (responseHeaders response));
           replyBody := responseBody response |}, w1).
Proof.
  intros Hparse Hapi Hdispatch Hreadable Hsendable.
  rewrite (listener_api _ _ _ _ Hparse Hapi), Hdispatch.
  rewrite (writeHead_accepts _ _ Hsendable).
  destruct (responseBody response) as [data|bytes|error] eqn:Hbody;
    [reflexivity|reflexivity|].
  exfalso. exact (Hreadable error Hbody).
Qed.

Lemma listener_catches routes req w requestUrl response w1 :
  parseUrl env (rawOf req) = Ok requestUrl ->
  startsWith (pathname requestUrl) "/api/" = true ->
  dispatch env context requestUrl req routes w = (Ok response, w1) ->
  ~ (readable response /\ sendable response) ->
  exists error, listener env context routes req w = caught error w1.
Proof.
  intros Hparse Hapi Hdispatch Hnot.
  rewrite (listener_api _ _ _ _ Hparse Hapi), Hdispatch.
  assert (Hrefused : readable response ->
                     exists error,
                       writeHead (status response)
                                 (fromEntries
                                    (entries (responseHeaders response))) w1
                       = (Throws error, w1)).
  { intros Hreadable. apply writeHead_refuses. intros Hsendable.
    apply Hnot. split; assumption. }
  destruct (responseBody response) as [data|bytes|error] eqn:Hbody;
    [| |exists error; reflexivity];
    (destruct Hrefused as [error ->];
     [intros e; rewrite Hbody; discriminate|exists error; reflexivity]).
Qed.

Lemma sendable_json data code :
  (100 <= code <= 999)%Z -> sendable (json data code).
Proof.
  intros Hrange. split; [exact Hrange|].
  intros name value. unfold written. cbn [json responseHeaders valuesUnder].
  destruct (String.eqb_spec "content-type" name) as [<-|_]; [|discriminate].
  intros [= <-]. split; reflexivity.
Qed.

Lemma listener_json routes req w requestUrl data code w1 :
  parseUrl env (rawOf req) = Ok requestUrl ->
  startsWith (pathname requestUrl) "/api/" = true ->
  dispatch env context requestUrl req routes w = (Ok (json data code), w1) ->
  (100 <= code <= 999)%Z ->
  listener env context routes req w
  = (Ok {| replyStatus := code;
           replyHeaders := {[ "content-type" := "application/json" ]};
           replyBody := Stringified data |}, w1).
Proof.
  intros Hparse Hapi Hdispatch Hrange.
  rewrite (listener_sends _ _ _ _ _ _ Hparse Hapi Hdispatch).
  - reflexivity.
  - intros error. discriminate.
  - apply sendable_json, Hrange.
Qed.

(** C9: a request whose pathname does not start with /api/ receives
    status 404 with the JSON content type and the JSON body
    {error: Not found}, whatever the route table and the cloud are, and
    leaves the world untouched; /api/service-status and /api/local-status
    are answered locally with status 200 and a JSON body whose success
    field is true, with no effect on the world (nothing is fetched,
    nothing imported) and the same reply for every route table of that
    length. *)
Theorem listener_short_circuits routes req w requestUrl :
  parseUrl env (rawOf req) = Ok requestUrl ->
  (startsWith (pathname requestUrl) "/api/" = false ->
   listener env context routes req w
   = (Ok {| replyStatus := 404;
            replyHeaders := {[ "content-type" := "application/json" ]};
            replyBody := Stringified (JObject [("error", JString "Not found")]) |},
      w))
  /\ (pathname requestUrl = "/api/service-status"
      \/ pathname requestUrl = "/api/local-status" ->
      (exists data,
          listener env context routes req w
          = (Ok {| replyStatus := 200;
                   replyHeaders := {[ "content-type" := "application/json" ]};
                   replyBody := Stringified data |}, w)
          /\ field "success" data = Some (JBool true))
      /\ forall routes',
          length routes' = length routes ->
          listener env context routes' req w
          = listener env context routes req w).
Proof.
  intros Hparse. split.
  - intros Hnot. unfold listener. rewrite bind_run. unfold lift.
    rewrite Hparse, Hnot. reflexivity.
  - intros Hbuiltin.
    assert (Hapi : startsWith (pathname requestUrl) "/api/" = true)
      by (destruct Hbuiltin as [-> | ->]; reflexivity).
    assert (Hrun : forall table,
               exists data,
                 dispatch env context requestUrl req table w
                 = (Ok (json data 200), w)
                 /\ field "success" data = Some (JBool true)
                 /\ forall table',
                     length table' = length table ->
                     dispatch env context requestUrl req table' w
                     = (Ok (json data 200), w)).
    { intros table. unfold dispatch.
      destruct Hbuiltin as [-> | ->]; cbn [String.eqb Ascii.eqb Bool.eqb].
      - eexists. split; [reflexivity|]. split; [reflexivity|].
        intros table' _. reflexivity.
      - eexists. split; [reflexivity|]. split; [reflexivity|].
        intros table' ->. reflexivity. }
    destruct (Hrun routes) as (data & Hdispatch & Hsuccess & Hsame).
    assert (Hrange : (100 <= 200 <= 999)%Z) by lia.
    split.
    + exists data. split; [|exact Hsuccess].
      exact (listener_json _ _ _ _ _ _ _ Hparse Hapi Hdispatch Hrange).
    + intros routes' Hlen.
      rewrite (listener_json _ _ _ _ _ _ _ Hparse Hapi Hdispatch Hrange).
      exact (listener_json _ _ _ _ _ _ _ Hparse Hapi (Hsame _ Hlen) Hrange).
Qed.

(** C10: the header list that toHeaders builds with stripOrigin holds no
    host, origin or referer header and no header whose lower-cased name
    starts with sec-fetch-; every other incoming header (each name once,
    names and values ones the Headers class accepts) is read back from
    it with its value, without the whitespace around it, the values of
    an array joined by a comma, or a semicolon under the name cookie; in
    particular a string with no whitespace around it, as Node's parser
    delivers it, is read back as it is; and every request that dispatch
    forwards, to a local handler or to the cloud, carries exactly that
    list. *)
Theorem forwarded_headers_stripped requestUrl req routes w :
  (forall name value,
      In (name, value) (toHeaders (headers req) true) ->
      toLowerCase name <> "host"
      /\ toLowerCase name <> "origin"
      /\ toLowerCase name <> "referer"
      /\ startsWith (toLowerCase name) "sec-fetch-" = false)
  /\ (accepted (headers req) ->
      forall key value,
        In (key, value) (headers req) ->
        dropped true (toLowerCase key) = false ->
        get (toHeaders (headers req) true) key = readBack key value)
  /\ (accepted (headers req) ->
      forall key value,
        In (key, NodeString value) (headers req) ->
        dropped true (toLowerCase key) = false ->
        unpadded value = value ->
        get (toHeaders (headers req) true) key = Some value)
  /\ (exists events,
         log (snd (dispatch env context requestUrl req routes w))
         = log w ++ events
         /\ Forall (forwardsStripped req) events).
Proof.
  split; [|split; [|split]].
  - intros name value Hin.
    pose proof (HeadersFacts.toHeaders_kept (headers req) true) as Hkept.
    rewrite List.Forall_forall in Hkept.
    destruct (Hkept _ Hin) as [Hdropped Hlower]. simpl in Hdropped, Hlower.
    rewrite Hlower. apply HeadersFacts.dropped_true_names, Hdropped.
  - intros Haccepted key value Hin Hkept.
    apply HeadersFacts.toHeaders_get; assumption.
  - intros Haccepted key value Hin Hkept Hplain.
    rewrite (HeadersFacts.toHeaders_get _ _ _ _ Haccepted Hin Hkept).
    cbn [readBack]. rewrite Hplain. reflexivity.
  - apply extends_dispatch.
Qed.

End Runs.

(** *** The theorems on the sample installation *)

Import Scenario.

Lemma routes_sample :
  routes
  = [ {| routePath := "youtube/embed"; modulePath := "/app/api/youtube/embed.js" |};
      {| routePath := "news/[id]"; modulePath := "/app/api/news/[id].js" |};
      {| routePath := "news/[...rest]"; modulePath := "/app/api/news/[...rest].js" |};
      {| routePath := "rss-proxy"; modulePath := "/app/api/rss-proxy.js" |};
      {| routePath := "news"; modulePath := "/app/api/news/index.js" |} ].
Proof. vm_compute. reflexivity. Qed.

Lemma handlerRuns_sample value cloud :
  handlerRuns (env (answers value) cloud)
              (urlOf "/api/rss-proxy") (request "/api/rss-proxy") routes idle
              "/app/api/rss-proxy.js" (fun _ => value)
              (localRequest (urlOf "/api/rss-proxy") (request "/api/rss-proxy")
                            None).
Proof.
  split; [split; discriminate|].
  split; [vm_compute; reflexivity|].
  split; [discriminate|].
  split; [reflexivity|].
  split; [reflexivity|].
  split; [exists None; split; reflexivity|reflexivity].
Defined.

Lemma failure_status_falls_back_witness :
  fst (dispatch (env (answers (Ok (IsResponse keyMissing))) (Ok cloudAnswer))
                context (urlOf "/api/rss-proxy") (request "/api/rss-proxy")
                routes idle)
  = Ok cloudAnswer
  /\ fst (dispatch (env (answers (Ok (IsResponse keyMissing))) (Throws "ECONNREFUSED"))
                   context (urlOf "/api/rss-proxy") (request "/api/rss-proxy")
                   routes idle)
     = Ok keyMissing.
Proof.
  split.
  - exact (proj1 (failure_status_falls_back
                    (env (answers (Ok (IsResponse keyMissing))) (Ok cloudAnswer))
                    context _ _ _ _ _ _ _ keyMissing
                    (handlerRuns_sample _ _) eq_refl eq_refl)).
  - exact (proj1 (failure_status_falls_back
                    (env (answers (Ok (IsResponse keyMissing)))
                         (Throws "ECONNREFUSED"))
                    context _ _ _ _ _ _ _ keyMissing
                    (handlerRuns_sample _ _) eq_refl eq_refl)).
Defined.

Lemma missing_handler_falls_back_witness :
  fst (dispatch (env NotFunction (Throws "ECONNREFUSED")) context
                (urlOf "/api/unknown") (request "/api/unknown") routes idle)
  = Ok {| status := 502;
          responseHeaders := [("content-type", "application/json")];
          responseBody :=
            Stringified
              (JObject
                 [("error",
                   JString "Local handler missing and cloud fallback unavailable")]) |}
  /\ fst (dispatch (env NotFunction (Ok cloudAnswer)) context
                   (urlOf "/api/youtube/embed") (request "/api/youtube/embed")
                   routes idle)
     = Ok cloudAnswer.
Proof.
  split.
  - refine (proj1 (missing_handler_falls_back
                     (env NotFunction (Throws "ECONNREFUSED")) context
                     (urlOf "/api/unknown") (request "/api/unknown") routes idle
                     _ _)).
    + split; discriminate.
    + left. vm_compute. reflexivity.
  - refine (proj1 (missing_handler_falls_back
                     (env NotFunction (Ok cloudAnswer)) context
                     (urlOf "/api/youtube/embed") (request "/api/youtube/embed")
                     routes idle _ _)).
    + split; discriminate.
    + right. exists "/app/api/youtube/embed.js".
      split; vm_compute; reflexivity.
Defined.

Lemma invalid_handler_falls_back_witness :
  fst (dispatch (env NotFunction (Throws "ECONNREFUSED")) context
                (urlOf "/api/rss-proxy") (request "/api/rss-proxy") routes idle)
  = Ok {| status := 500;
          responseHeaders := [("content-type", "application/json")];
          responseBody :=
            Stringified
              (JObject
                 [("error",
                   JString "Invalid handler module: rss-proxy.js")]) |}
  /\ fst (dispatch (env (answers (Ok NotResponse)) (Throws "ECONNREFUSED"))
                   context (urlOf "/api/rss-proxy") (request "/api/rss-proxy")
                   routes idle)
     = Ok {| status := 500;
             responseHeaders := [("content-type", "application/json")];
             responseBody :=
               Stringified
                 (JObject
                    [("error",
                      JString "Handler returned invalid response for /api/rss-proxy")]) |}
  /\ fst (dispatch (env (answers (Throws "boom")) (Throws "ECONNREFUSED"))
                   context (urlOf "/api/rss-proxy") (request "/api/rss-proxy")
                   routes idle)
     = Ok {| status := 502;
             responseHeaders := [("content-type", "application/json")];
             responseBody :=
               Stringified
                 (JObject
                    [("error",
                      JString "Local handler failed and cloud fallback unavailable")]) |}.
Proof.
  split; [|split].
  - refine (proj1 (invalid_handler_falls_back
                     (env NotFunction (Throws "ECONNREFUSED")) context
                     (urlOf "/api/rss-proxy") (request "/api/rss-proxy")
                     routes idle)
                  "/app/api/rss-proxy.js" _ _ _ _ _).
    + split; discriminate.
    + vm_compute. reflexivity.
    + discriminate.
    + reflexivity.
    + reflexivity.
  - exact (proj1 (proj2 (invalid_handler_falls_back
                           (env (answers (Ok NotResponse)) (Throws "ECONNREFUSED"))
                           context (urlOf "/api/rss-proxy")
                           (request "/api/rss-proxy") routes idle))
                 _ _ _ (handlerRuns_sample _ _) eq_refl).
  - exact (proj2 (proj2 (invalid_handler_falls_back
                           (env (answers (Throws "boom")) (Throws "ECONNREFUSED"))
                           context (urlOf "/api/rss-proxy")
                           (request "/api/rss-proxy") routes idle))
                 _ _ _ "boom" (handlerRuns_sample _ _) eq_refl).
Defined.

Lemma listener_short_circuits_witness :
  listener (env NotFunction (Throws "ECONNREFUSED")) context routes
           (request "/index.html") idle
  = (Ok {| replyStatus := 404;
           replyHeaders := {[ "content-type" := "application/json" ]};
           replyBody := Stringified (JObject [("error", JString "Not found")]) |},
     idle)
  /\ exists data,
      listener (env NotFunction (Throws "ECONNREFUSED")) context routes
               (request "/api/local-status") idle
      = (Ok {| replyStatus := 200;
               replyHeaders := {[ "content-type" := "application/json" ]};
               replyBody := Stringified data |}, idle)
      /\ field "success" data = Some (JBool true).
Proof.
  split.
  - exact (proj1 (listener_short_circuits
                    (env NotFunction (Throws "ECONNREFUSED")) context routes
                    (request "/index.html") idle (urlOf "/index.html") eq_refl)
                 eq_refl).
  - exact (proj1 (proj2 (listener_short_circuits
                           (env NotFunction (Throws "ECONNREFUSED")) context
                           routes (request "/api/local-status") idle
                           (urlOf "/api/local-status") eq_refl)
                        (or_intror eq_refl))).
Defined.

Lemma browserHeaders_accepted : accepted browserHeaders.
Proof.
  split.
  - unfold distinctNames. simpl.
    repeat (constructor; [simpl; intuition discriminate|]). constructor.
  - repeat (constructor; [split; reflexivity|]). constructor.
Defined.

Lemma looseHeaders_accepted : accepted Cases.looseHeaders.
Proof.
  split.
  - unfold distinctNames. simpl.
    repeat (constructor; [simpl; intuition discriminate|]). constructor.
  - repeat (constructor; [split; reflexivity|]). constructor.
Defined.

Lemma forwarded_headers_stripped_witness :
  get (toHeaders browserHeaders true) "cookie" = Some "a=1; b=2"
  /\ get (toHeaders Cases.looseHeaders true) "Cookie" = Some "a=1; b=2"
  /\ get (toHeaders Cases.looseHeaders true) "Accept" = Some "text/html, */*"
  /\ get (toHeaders Cases.looseHeaders true) "X-Note" = Some "padded value".
Proof.
  pose proof (proj1 (proj2 (proj2 (forwarded_headers_stripped
                              (env NotFunction (Throws "ECONNREFUSED")) context
                              (urlOf "/api/rss-proxy") (request "/api/rss-proxy")
                              routes idle)))
                    browserHeaders_accepted) as H.
  pose proof (proj1 (proj2 (forwarded_headers_stripped
                              (env NotFunction (Throws "ECONNREFUSED")) context
                              (urlOf "/api/rss-proxy") Cases.looseRequest
                              routes idle))
                    looseHeaders_accepted) as H'.
  split; [|split; [|split]].
  - exact (H "cookie" "a=1; b=2"
             (or_intror (or_intror (or_intror (or_intror (or_introl eq_refl)))))
             eq_refl eq_refl).
  - exact (H' "Cookie" (NodeArray ["a=1"; "b=2"])
              (or_intror (or_intror (or_introl eq_refl))) eq_refl).
  - exact (H' "Accept" (NodeArray ["text/html"; "*/*"])
              (or_intror (or_introl eq_refl)) eq_refl).
  - exact (H' "X-Note" (NodeString " padded value ")
              (or_intror (or_intror (or_intror (or_introl eq_refl)))) eq_refl).
Defined.

End SidecarFacts.

(** ** The runtime fetch patch *)

Module RuntimeFacts.
Import JsString Effect EffectFacts Runtime.

Abbreviation grows := (EffectFacts.extends log (fun _ => True)).

Lemma grows_emit event : grows (emit event).
Proof.
  intros w. exists [event]. split; [reflexivity|].
  constructor; [exact I|constructor].
Qed.

Section Fetching.
Variable browser : Browser.

Lemma grows_callNative input init : grows (callNative browser input init).
Proof.
  intros w. exists [Called input init]. split; [reflexivity|].
  constructor; [exact I|constructor].
Qed.

Lemma grows_aborted init : grows (aborted browser init).
Proof. apply extends_silent. reflexivity. Qed.

Lemma grows_attemptsFrom nativeFetch localUrl init remaining :
  (forall input init', grows (nativeFetch input init')) ->
  forall attempt,
    grows (attemptsFrom browser nativeFetch localUrl init remaining attempt).
Proof.
  intros Hnative. induction remaining as [|remaining IH]; intros attempt; simpl.
  - apply extends_throw.
  - apply extends_tryCatch; [apply Hnative|]. intros error.
    apply extends_bind; [apply grows_aborted|]. intros [|].
    + apply extends_throw.
    + destruct (attempt =? maxAttempts)%nat; [apply extends_throw|].
      apply extends_bind; [apply grows_emit|]. intros _. apply IH.
Qed.

Lemma grows_patchedFetch nativeFetch localBase remoteBase input init :
  (forall input' init', grows (nativeFetch input' init')) ->
  grows (patchedFetch browser nativeFetch localBase remoteBase input init).
Proof.
  intros Hnative. unfold patchedFetch.
  destruct (negb (isApiTarget (getApiTargetFromRequestInput browser input)));
    [apply Hnative|].
  apply extends_tryCatch.
  - apply extends_bind.
    + apply grows_attemptsFrom, Hnative.
    + intros localResponse. destruct (ok localResponse); [apply extends_ret|].
      apply extends_bind.
      * apply extends_tryCatch.
        -- apply extends_bind; [apply Hnative|]. intros r. apply extends_ret.
        -- intros e. apply extends_bind; [apply grows_emit|].
           intros _. apply extends_ret.
      * intros [remote|]; apply extends_ret.
  - intros error. apply extends_bind; [apply grows_emit|].
    intros _. apply Hnative.
Qed.

Lemma grows_runFetch impl :
  forall input init, grows (runFetch browser impl input init).
Proof.
  induction impl as [|nativeFetch IH localBase remoteBase]; intros input init.
  - apply grows_callNative.
  - simpl. apply grows_patchedFetch, IH.
Qed.

(** [m] adds [event] to the trace before anything else. *)
Definition opensWith (event : Event) {A : Type} (m : M A) : Prop :=
  forall w, exists rest, log (snd (m w)) = log w ++ event :: rest.

Lemma opensWith_callNative input init :
  opensWith (Called input init) (callNative browser input init).
Proof. intros w. exists []. reflexivity. Qed.

Lemma opensWith_bind event {A B : Type} (m : M A) (k : A -> M B) :
  opensWith event m -> (forall a, grows (k a)) -> opensWith event (m ≫= k).
Proof.
  intros Hm Hk w. rewrite bind_run.
  destruct (Hm w) as (rest & Hlog).
  destruct (m w) as [[a|e] w1]; simpl in Hlog.
  - destruct (Hk a w1) as (events & Hlog' & _).
    exists (rest ++ events). rewrite Hlog', Hlog, <- app_assoc. reflexivity.
  - exists rest. exact Hlog.
Qed.

Lemma opensWith_tryCatch event {A : Type} (body : M A) (handler : Thrown -> M A) :
  opensWith event body -> (forall e, grows (handler e)) ->
  opensWith event (tryCatch body handler).
Proof.
  intros Hm Hk w. unfold tryCatch.
  destruct (Hm w) as (rest & Hlog).
  destruct (body w) as [[a|e] w1]; simpl in Hlog.
  - exists rest. exact Hlog.
  - destruct (Hk e w1) as (events & Hlog' & _).
    exists (rest ++ events). rewrite Hlog', Hlog, <- app_assoc. reflexivity.
Qed.

Lemma fetchLocalWithStartupRetry_first nativeFetch localUrl init :
  fetchLocalWithStartupRetry browser nativeFetch localUrl init
  = tryCatch (nativeFetch (InString localUrl) init)
      (fun error =>
         isAborted ← aborted browser init;
         if (isAborted : bool) then throw error
         else if (1 =? maxAttempts)%nat then
           throw (match error with
                  | ErrorObject _ => error
                  | OtherValue _ => ErrorObject "Local API unavailable"
                  end)
         else
           _ ← emit (Slept (125 * 1));
           attemptsFrom browser nativeFetch localUrl init 3 (1 + 1)).
Proof. reflexivity. Qed.

Lemma opensWith_retry localUrl init :
  opensWith (Called (InString localUrl) init)
            (fetchLocalWithStartupRetry browser (callNative browser) localUrl init).
Proof.
  rewrite fetchLocalWithStartupRetry_first.
  apply opensWith_tryCatch; [apply opensWith_callNative|].
  intros error. apply extends_bind; [apply grows_aborted|]. intros [|].
  - apply extends_throw.
  - destruct (1 =? maxAttempts)%nat; [apply extends_throw|].
    apply extends_bind; [apply grows_emit|]. intros _.
    apply grows_attemptsFrom. intros; apply grows_callNative.
Qed.

Lemma patchedFetch_passes nativeFetch localBase remoteBase input init :
  isApiTarget (getApiTargetFromRequestInput browser input) = false ->
  patchedFetch browser nativeFetch localBase remoteBase input init
  = nativeFetch input init.
Proof. intros Hnot. unfold patchedFetch. rewrite Hnot. reflexivity. Qed.

Lemma patchedFetch_redirects localBase remoteBase input init target :
  getApiTargetFromRequestInput browser input = Some target ->
  startsWith target "/api/" = true ->
  opensWith (Called (InString (localBase ++ target)) init)
            (patchedFetch browser (callNative browser) localBase remoteBase
                          input init).
Proof.
  intros Htarget Hapi. unfold patchedFetch. rewrite Htarget. simpl isApiTarget.
  rewrite Hapi. simpl negb. cbv iota. simpl orEmpty.
  apply opensWith_tryCatch.
  - apply opensWith_bind; [apply opensWith_retry|].
    intros localResponse. destruct (ok localResponse); [apply extends_ret|].
    apply extends_bind.
    + apply extends_tryCatch.
      * apply extends_bind; [apply grows_callNative|]. intros r.
        apply extends_ret.
      * intros e. apply extends_bind; [apply grows_emit|].
        intros _. apply extends_ret.
    + intros [remote|]; apply extends_ret.
  - intros error. apply extends_bind; [apply grows_emit|].
    intros _. apply grows_callNative.
Qed.

End Fetching.

Lemma install_unchanged build window :
  isDesktopRuntime build window = false
  \/ window = None
  \/ (exists w, window = Some w /\ wmFetchPatched w = true) ->
  installRuntimeFetchPatch build window = window.
Proof.
  unfold installRuntimeFetchPatch. intros [Hnot|[->|(w & -> & Hpatched)]].
  - rewrite Hnot. reflexivity.
  - destruct (negb (isDesktopRuntime build None)); reflexivity.
  - destruct (negb (isDesktopRuntime build (Some w))); [reflexivity|].
    rewrite Hpatched. reflexivity.
Qed.

(** The probe [isDesktopRuntime] takes of [window]. *)
Definition probeOf (w : Window) : RuntimeProbe :=
  {| hasTauriGlobals := tauriInternals w || tauriGlobal w;
     userAgent := orEmpty (navigatorUserAgent w);
     locationProtocol := orEmpty (protocol w);
     locationHost := orEmpty (host w);
     locationOrigin := orEmpty (locationOriginOf w) |}.

(** C8 (as stated) fails: window.fetch is not replaced only when the
    desktop runtime is detected.  In a build with VITE_DESKTOP_RUNTIME=1
    the patch is installed in a plain browser window, of which
    detectDesktopRuntime is false. *)
Lemma fetch_patched_without_detection :
  ~ (forall build w w',
        installRuntimeFetchPatch build (Some w) = Some w' ->
        windowFetch w' <> windowFetch w ->
        detectDesktopRuntime (probeOf w) = true).
Proof.
  intros H.
  assert (Hchanged : Patched Native "http://127.0.0.1:46123"
                             "https://worldmonitor.app"
                     <> windowFetch Scenario.browserWindow)
    by discriminate.
  pose proof (H Browsers.forced Scenario.browserWindow _ eq_refl Hchanged)
    as Hdetected.
  vm_compute in Hdetected. discriminate Hdetected.
Qed.

(** C8 (amended): installRuntimeFetchPatch replaces window.fetch only
    when isDesktopRuntime() holds, that is when the build flag
    VITE_DESKTOP_RUNTIME is 1 or detectDesktopRuntime holds of the probe
    of window, and the patch flag is not set; otherwise it leaves window
    (and so window.fetch) as it is.  With the build flag
    isDesktopRuntime() holds whatever window is, and without it
    isDesktopRuntime() is detectDesktopRuntime of the probe.  When it does replace it, it installs
    the patched fetch over the previous one with the sidecar base of
    getApiBaseUrl() and the text of the remote base.  The patched fetch
    hands a request whose target does not start with /api/ (or has no
    target) to the native fetch with the same input and init, and for a
    target that starts with /api/ its first call goes to the local base
    followed by the target. *)
Theorem fetch_patch_desktop_only build window :
  (isDesktopRuntime build window = false
   \/ window = None
   \/ (exists w, window = Some w /\ wmFetchPatched w = true) ->
   installRuntimeFetchPatch build window = window)
  /\ (forall w,
         window = Some w ->
         isDesktopRuntime build window = true ->
         wmFetchPatched w = false ->
         exists w',
           installRuntimeFetchPatch build window = Some w'
           /\ windowFetch w'
              = Patched (windowFetch w) (getApiBaseUrl build window)
                        (textOf w (getRemoteApiBaseUrl build))
           /\ wmFetchPatched w' = true)
  /\ (VITE_DESKTOP_RUNTIME build = Some "1" ->
      isDesktopRuntime build window = true)
  /\ (forall w,
         VITE_DESKTOP_RUNTIME build <> Some "1" ->
         window = Some w ->
         isDesktopRuntime build window = detectDesktopRuntime (probeOf w))
  /\ (forall w w',
         window = Some w ->
         installRuntimeFetchPatch build window = Some w' ->
         windowFetch w' <> windowFetch w ->
         (VITE_DESKTOP_RUNTIME build = Some "1"
          \/ detectDesktopRuntime (probeOf w) = true)
         /\ wmFetchPatched w = false)
  /\ (forall browser nativeFetch localBase remoteBase input init,
         isApiTarget (getApiTargetFromRequestInput browser input) = false ->
         runFetch browser (Patched nativeFetch localBase remoteBase) input init
         = runFetch browser nativeFetch input init)
  /\ (forall browser localBase remoteBase input init target world,
         getApiTargetFromRequestInput browser input = Some target ->
         startsWith target "/api/" = true ->
         exists rest,
           log (snd (runFetch browser (Patched Native localBase remoteBase)
                              input init world))
           = log world ++ Called (InString (localBase ++ target)) init :: rest).
Proof.
  assert (Hdetect : forall w,
             isDesktopRuntime build (Some w)
             = FORCE_DESKTOP_RUNTIME build || detectDesktopRuntime (probeOf w)).
  { intros w. unfold isDesktopRuntime.
    destruct (FORCE_DESKTOP_RUNTIME build); reflexivity. }
  split; [apply install_unchanged|].
  split.
  { intros w -> Hdesktop Hfresh. unfold installRuntimeFetchPatch.
    rewrite Hdesktop, Hfresh. simpl. eexists. split; [reflexivity|].
    split; reflexivity. }
  split.
  { intros Hflag. unfold isDesktopRuntime, FORCE_DESKTOP_RUNTIME.
    rewrite Hflag. reflexivity. }
  split.
  { intros w Hflag ->. rewrite Hdetect.
    assert (Hforce : FORCE_DESKTOP_RUNTIME build = false).
    { unfold FORCE_DESKTOP_RUNTIME.
      destruct (VITE_DESKTOP_RUNTIME build) as [flag|]; [|reflexivity].
      apply String.eqb_neq. intros ->. apply Hflag. reflexivity. }
    rewrite Hforce. reflexivity. }
  split.
  { intros w w' -> Hinstall Hchanged.
    destruct (isDesktopRuntime build (Some w)) eqn:Hdesktop.
    - destruct (wmFetchPatched w) eqn:Hpatched.
      + exfalso. apply Hchanged.
        rewrite install_unchanged in Hinstall
          by (right; right; exists w; split; [reflexivity|exact Hpatched]).
        injection Hinstall as <-. reflexivity.
      + split; [|reflexivity].
        rewrite Hdetect in Hdesktop. apply orb_prop in Hdesktop.
        destruct Hdesktop as [Hforce|Hprobe]; [left|right; exact Hprobe].
        unfold FORCE_DESKTOP_RUNTIME in Hforce.
        destruct (VITE_DESKTOP_RUNTIME build) as [flag|]; [|discriminate].
        apply String.eqb_eq in Hforce. rewrite Hforce. reflexivity.
    - exfalso. apply Hchanged.
      rewrite install_unchanged in Hinstall by (left; exact Hdesktop).
      injection Hinstall as <-. reflexivity. }
  split.
  { intros browser nativeFetch localBase remoteBase input init Hnot.
    simpl. apply patchedFetch_passes, Hnot. }
  intros browser localBase remoteBase input init target world Htarget Hapi.
  simpl. apply patchedFetch_redirects; assumption.
Qed.

Lemma fetch_patch_desktop_only_witness :
  installRuntimeFetchPatch Scenario.production (Some Scenario.browserWindow)
  = Some Scenario.browserWindow
  /\ (exists w',
         installRuntimeFetchPatch Scenario.production
                                  (Some Scenario.desktopWindow) = Some w'
         /\ windowFetch w'
            = Patched Native "http://127.0.0.1:46123" "https://worldmonitor.app"
         /\ wmFetchPatched w' = true)
  /\ (exists w',
         installRuntimeFetchPatch Browsers.forced
                                  (Some Scenario.browserWindow) = Some w'
         /\ windowFetch w'
            = Patched Native "http://127.0.0.1:46123" "https://worldmonitor.app"
         /\ wmFetchPatched w' = true)
  /\ runFetch Scenario.offline
              (Patched Native "http://127.0.0.1:46123" "https://worldmonitor.app")
              (InString "https://example.com/feed") None
     = runFetch Scenario.offline Native (InString "https://example.com/feed") None
  /\ exists rest,
      log (snd (runFetch Scenario.offline
                         (Patched Native "http://127.0.0.1:46123"
                                  "https://worldmonitor.app")
                         (InString "/api/news") None Scenario.quiet))
      = log Scenario.quiet
        ++ Called (InString "http://127.0.0.1:46123/api/news") None :: rest.
Proof.
  split; [|split; [|split; [|split]]].
  - exact (proj1 (fetch_patch_desktop_only Scenario.production
                    (Some Scenario.browserWindow))
                 (or_introl eq_refl)).
  - exact (proj1 (proj2 (fetch_patch_desktop_only Scenario.production
                           (Some Scenario.desktopWindow)))
                 Scenario.desktopWindow eq_refl eq_refl eq_refl).
  - exact (proj1 (proj2 (fetch_patch_desktop_only Browsers.forced
                           (Some Scenario.browserWindow)))
                 Scenario.browserWindow eq_refl eq_refl eq_refl).
  - exact (proj1 (proj2 (proj2 (proj2 (proj2 (proj2
             (fetch_patch_desktop_only Scenario.production None))))))
                 Scenario.offline Native _ _
                 (InString "https://example.com/feed") None eq_refl).
  - exact (proj2 (proj2 (proj2 (proj2 (proj2 (proj2
             (fetch_patch_desktop_only Scenario.production None))))))
                 Scenario.offline "http://127.0.0.1:46123"
                 "https://worldmonitor.app" (InString "/api/news") None
                 "/api/news" Scenario.quiet eq_refl eq_refl).
Defined.

End RuntimeFacts.


(** ** The humanity counters *)

Module CountersFacts.
Import TimeValue Counters.
Local Open Scope Z_scope.

Lemma YearFromTime_spec t :
  DayFromYear (YearFromTime t) <= Day t < DayFromYear (YearFromTime t + 1).
Proof.
  unfold YearFromTime. generalize (Day t). intros day.
  destruct (Z.ltb_spec day (DayFromYear (1970 + 400 * day / 146097))) as [Hlow|Hlow].
  - replace (1970 + 400 * day / 146097 - 1 + 1)
      with (1970 + 400 * day / 146097) by lia.
    split; [|exact Hlow]. revert Hlow. unfold DayFromYear.
    Z.to_euclidean_division_equations. lia.
  - destruct (Z.leb_spec (DayFromYear (1970 + 400 * day / 146097 + 1)) day)
      as [Hhigh|Hhigh].
    + split; [exact Hhigh|]. revert Hhigh. unfold DayFromYear.
      Z.to_euclidean_division_equations. lia.
    + split; assumption.
Qed.

Lemma DayFromYear_monotone y y' : y <= y' -> DayFromYear y <= DayFromYear y'.
Proof.
  intros Hle. unfold DayFromYear. Z.to_euclidean_division_equations. lia.
Qed.

(** [YearFromTime t] is the largest year that starts on or before the day
    of [t], as ECMAScript defines it. *)
Lemma YearFromTime_largest t y :
  DayFromYear y <= Day t <-> y <= YearFromTime t.
Proof.
  pose proof (YearFromTime_spec t) as [Hlow Hhigh]. split.
  - intros Hy. destruct (Z.le_gt_cases y (YearFromTime t)) as [H|H]; [exact H|].
    pose proof (DayFromYear_monotone (YearFromTime t + 1) y). lia.
  - intros Hy. pose proof (DayFromYear_monotone y (YearFromTime t) Hy). lia.
Qed.

Lemma DayFromYear_next y : DayFromYear (y + 1) = DayFromYear y + DaysInYear y.
Proof.
  unfold DayFromYear, DaysInYear.
  destruct (Z.eqb_spec (y mod 4) 0); simpl negb; cbv iota;
    [destruct (Z.eqb_spec (y mod 100) 0); simpl negb; cbv iota;
     [destruct (Z.eqb_spec (y mod 400) 0); simpl negb; cbv iota|]|];
    Z.to_euclidean_division_equations; lia.
Qed.

Lemma leapOf_days y : DaysInYear y = 365 + leapOf y.
Proof.
  unfold leapOf, DaysInYear.
  destruct (negb (y mod 4 =? 0)); [reflexivity|].
  destruct (negb (y mod 100 =? 0)); [reflexivity|].
  destruct (negb (y mod 400 =? 0)); reflexivity.
Qed.

Lemma leapOf_range y : 0 <= leapOf y <= 1.
Proof. unfold leapOf. destruct (DaysInYear y =? 366); lia. Qed.

Lemma DayWithinYear_range t :
  0 <= DayWithinYear t < 365 + InLeapYear t.
Proof.
  unfold DayWithinYear, InLeapYear.
  pose proof (YearFromTime_spec t) as H.
  rewrite DayFromYear_next, leapOf_days in H. lia.
Qed.

Lemma monthOf_range d leap : 0 <= monthOf d leap <= 11.
Proof.
  unfold monthOf.
  repeat match goal with
         | |- context [if ?c then _ else _] => destruct c
         end; lia.
Qed.

(** The tables of [MonthFromTime], [DateFromTime] and [MakeDay] fit. *)
Lemma month_tables d leap :
  monthStart leap (monthOf d leap) + dateOf (monthOf d leap) d leap - 1 = d.
Proof.
  unfold monthOf.
  repeat match goal with
         | |- context [if ?c then _ else _] => destruct c
         end; simpl; lia.
Qed.

Lemma MakeDay_roundtrip t :
  MakeDay (YearFromTime t) (MonthFromTime t) (DateFromTime t) = Day t.
Proof.
  unfold MakeDay, DateFromTime, MonthFromTime.
  pose proof (monthOf_range (DayWithinYear t) (InLeapYear t)) as Hm.
  rewrite Z.div_small, Z.mod_small, Z.add_0_r by lia.
  unfold firstDayOfMonth. fold (InLeapYear t).
  pose proof (month_tables (DayWithinYear t) (InLeapYear t)) as Htab.
  unfold DayWithinYear in *. lia.
Qed.

Lemma YearFromTime_epoch t : 0 <= t -> 1970 <= YearFromTime t.
Proof.
  intros Ht. pose proof (YearFromTime_spec t) as [_ H].
  assert (Hday : 0 <= Day t) by (apply Z.div_pos; unfold msPerDay; lia).
  destruct (Z.le_gt_cases 1970 (YearFromTime t)) as [Hle|Hgt]; [exact Hle|].
  exfalso. revert H. unfold DayFromYear.
  Z.to_euclidean_division_equations. lia.
Qed.

Lemma lastMidnightUTC_range t :
  0 <= t - lastMidnightUTC t < msPerDay.
Proof.
  unfold lastMidnightUTC, msPerDay.
  Z.to_euclidean_division_equations. lia.
Qed.

(** The midnight [getCounterValue] computes is the last midnight UTC. *)
Lemma midnightUTC_last now :
  wallClock now ->
  match DateUTC (YearFromTime now) (MonthFromTime now) (DateFromTime now) with
  | Some value => TimeClip value
  | None => None
  end = Some (lastMidnightUTC now).
Proof.
  intros [Hlow Hhigh]. unfold DateUTC.
  pose proof (YearFromTime_epoch now Hlow) as Hyear.
  replace ((0 <=? YearFromTime now) && (YearFromTime now <=? 99)) with false
    by (symmetry; apply andb_false_iff; right; apply Z.leb_gt; lia).
  rewrite MakeDay_roundtrip. unfold MakeDate.
  assert (Hmid : Day now * msPerDay + 0 = lastMidnightUTC now)
    by (unfold lastMidnightUTC, Day; lia).
  rewrite Hmid.
  pose proof (lastMidnightUTC_range now) as Hrange.
  assert (Hclip : TimeClip (lastMidnightUTC now) = Some (lastMidnightUTC now)).
  { unfold TimeClip.
    assert (0 <= lastMidnightUTC now)
      by (unfold lastMidnightUTC, msPerDay; Z.to_euclidean_division_equations; lia).
    replace (Z.abs (lastMidnightUTC now) <=? maxTime) with true; [reflexivity|].
    symmetry. apply Z.leb_le. rewrite Z.abs_eq by assumption. lia. }
  rewrite Hclip. exact Hclip.
Qed.

(** *** Signs of binary64 results

    Through the specification of the primitive operations: a result
    computed from non-negative operands is a zero, a finite number or an
    infinity with the sign bit clear, never a NaN. *)

Definition signed (s : bool) (f : spec_float) : Prop :=
  match f with
  | S754_zero s' | S754_infinity s' | S754_finite s' _ _ => s' = s
  | S754_nan => False
  end.

Lemma shr_1_nonneg mrs : 0 <= shr_m mrs -> 0 <= shr_m (shr_1 mrs).
Proof.
  destruct mrs as [m r s']. simpl.
  destruct m as [|[p|p|]|p]; simpl; lia.
Qed.

Lemma iter_shr_1_nonneg p :
  forall mrs, 0 <= shr_m mrs -> 0 <= shr_m (SpecFloat.iter_pos shr_1 p mrs).
Proof.
  induction p as [p IH|p IH|]; intros mrs Hm; simpl.
  - apply IH, IH, shr_1_nonneg, Hm.
  - apply IH, IH, Hm.
  - apply shr_1_nonneg, Hm.
Qed.

Lemma shr_fexp_nonneg m e l :
  0 <= m -> 0 <= shr_m (fst (shr_fexp prec emax m e l)).
Proof.
  intros Hm. unfold shr_fexp, shr.
  assert (Hrec : 0 <= shr_m (shr_record_of_loc m l))
    by (destruct l as [|[]]; exact Hm).
  destruct (fexp prec emax (Zdigits2 m + e) - e) as [|p|p]; simpl;
    [exact Hrec|apply iter_shr_1_nonneg, Hrec|exact Hrec].
Qed.

Lemma round_nearest_even_nonneg m l :
  0 <= m -> 0 <= round_nearest_even m l.
Proof.
  intros Hm. unfold round_nearest_even.
  destruct l as [|[]]; try lia. destruct (Z.even m); lia.
Qed.

Lemma binary_round_aux_signed sx mx ex lx :
  0 <= mx -> signed sx (binary_round_aux prec emax sx mx ex lx).
Proof.
  intros Hm. unfold binary_round_aux.
  pose proof (shr_fexp_nonneg mx ex lx Hm) as H1.
  destruct (shr_fexp prec emax mx ex lx) as [mrs' e']. simpl in H1.
  pose proof (shr_fexp_nonneg
                (round_nearest_even (shr_m mrs') (loc_of_shr_record mrs'))
                e' loc_Exact (round_nearest_even_nonneg _ _ H1)) as H2.
  destruct (shr_fexp prec emax _ e' loc_Exact) as [mrs'' e'']. simpl in H2.
  destruct (shr_m mrs'') as [|m|m]; [reflexivity| |lia].
  destruct (e'' <=? emax - prec); reflexivity.
Qed.

Lemma SFmul_signed mx ex y :
  signed false y ->
  signed false (SF64mul (S754_finite false mx ex) y).
Proof.
  destruct y as [sy|sy| |sy my ey]; simpl; try congruence.
  intros ->. apply binary_round_aux_signed. lia.
Qed.

Lemma SFdiv_signed x my ey :
  signed false x ->
  signed false (SF64div x (S754_finite false my ey)).
Proof.
  destruct x as [sx|sx| |sx mx ex]; simpl; try congruence;
    try (intros ->; reflexivity).
  intros ->. unfold SFdiv_core_binary.
  set (shifted := match _ - _ - _ with Z0 => Zpos mx | Zpos _ => _ | Zneg _ => 0 end).
  assert (Hshifted : 0 <= shifted).
  { subst shifted. destruct (_ - _ - _) as [|p|p]; [lia| |lia].
    apply Z.shiftl_nonneg. lia. }
  pose proof (Z_div_mod shifted (Zpos my) eq_refl) as Hdiv.
  destruct (Z.div_eucl shifted (Zpos my)) as [q r].
  apply binary_round_aux_signed. nia.
Qed.

Lemma of_uint63_signed n : signed false (Prim2SF (of_uint63 n)).
Proof.
  rewrite of_uint63_spec. unfold binary_normalize.
  pose proof (Uint63.to_Z_bounded n) as Hn.
  destruct (Uint63.to_Z n) as [|m|m]; [reflexivity| |lia].
  unfold binary_round.
  destruct (shl_align m 0 (fexp prec emax (Zpos (digits2_pos m) + 0)))
    as [mz ez].
  apply binary_round_aux_signed. lia.
Qed.

Lemma signed_nonneg x :
  signed false (Prim2SF x) -> (0 <=? x)%float = true.
Proof.
  rewrite leb_spec.
  change (Prim2SF 0) with (S754_zero false).
  destruct (Prim2SF x) as [s|s| |s m e]; simpl; try contradiction;
    intros ->; reflexivity.
Qed.

Lemma rate_positive metric :
  In metric COUNTER_METRICS ->
  exists m e, Prim2SF (perSecondRate metric) = S754_finite false m e.
Proof.
  intros Hin. simpl in Hin.
  repeat (destruct Hin as [<-|Hin]; [eexists; eexists; vm_compute; reflexivity|]).
  destruct Hin.
Qed.

Lemma rate_definition metric :
  In metric COUNTER_METRICS ->
  perSecondRate metric = (annualTotal metric / 31536000)%float.
Proof.
  intros Hin. simpl in Hin.
  repeat (destruct Hin as [<-|Hin]; [reflexivity|]).
  destruct Hin.
Qed.

(** C7: for every metric of COUNTER_METRICS and every wall-clock
    instant, getCounterValue(metric) is perSecondRate times the seconds
    elapsed since the last midnight UTC (the milliseconds since that
    midnight, between 0 and a day, divided by 1000), it is not negative,
    and perSecondRate is annualTotal divided by 31,536,000. *)
Theorem counter_value_wall_clock metric now :
  In metric COUNTER_METRICS ->
  wallClock now ->
  getCounterValue metric now
  = (perSecondRate metric
     * (numberOfZ (now - lastMidnightUTC now) / 1000))%float
  /\ 0 <= now - lastMidnightUTC now < msPerDay
  /\ (0 <=? getCounterValue metric now)%float = true
  /\ perSecondRate metric = (annualTotal metric / 31536000)%float.
Proof.
  intros Hin Hclock.
  assert (Hvalue : getCounterValue metric now
                   = (perSecondRate metric
                      * (numberOfZ (now - lastMidnightUTC now) / 1000))%float).
  { unfold getCounterValue. rewrite (midnightUTC_last now Hclock).
    reflexivity. }
  pose proof (lastMidnightUTC_range now) as Hrange.
  split; [exact Hvalue|]. split; [exact Hrange|].
  split; [|apply rate_definition, Hin].
  rewrite Hvalue. apply signed_nonneg.
  destruct (rate_positive metric Hin) as (m & e & Hrate).
  rewrite mul_spec, Hrate. apply SFmul_signed.
  rewrite div_spec.
  assert (H1000 : exists m' e', Prim2SF 1000 = S754_finite false m' e')
    by (eexists; eexists; vm_compute; reflexivity).
  destruct H1000 as (m' & e' & ->). apply SFdiv_signed.
  unfold numberOfZ.
  destruct (Z.ltb_spec (now - lastMidnightUTC now) 0) as [Hneg|_]; [lia|].
  apply of_uint63_signed.
Qed.

Lemma counter_value_wall_clock_witness :
  (0 <=? getCounterValue Scenario.births Scenario.instant)%float = true
  /\ getCounterValue Scenario.births Scenario.instant
     = (perSecondRate Scenario.births * (3600500 / 1000))%float.
Proof.
  pose proof (counter_value_wall_clock Scenario.births Scenario.instant
                (or_introl eq_refl)
                (conj (proj1 (Z.leb_le 0 Scenario.instant) eq_refl)
                      (proj1 (Z.leb_le Scenario.instant maxTime) eq_refl)))
    as (Hvalue & _ & Hsign & _).
  split; [exact Hsign|exact Hvalue].
Defined.

End CountersFacts.

(** ** More on the router *)

Module RouterMore.
Import JsString Router RouterSpec RouteShape RouterFacts.

Lemma split_nonempty sep s : split sep s <> [].
Proof.
  destruct s as [|c s]; simpl; [discriminate|].
  destruct (Ascii.eqb c sep); [discriminate|].
  destruct (split sep s); discriminate.
Qed.

(** Splitting distributes over a separator. *)
Lemma split_app sep (a b : string) :
  split sep (a ++ String sep b) = (split sep a ++ split sep b)%list.
Proof.
  induction a as [|c a IH].
  - simpl. rewrite Ascii.eqb_refl. reflexivity.
  - rewrite append_cons. simpl. rewrite IH.
    destruct (Ascii.eqb c sep); [reflexivity|].
    pose proof (split_nonempty sep a) as Hne.
    destruct (split sep a) as [|piece pieces]; [contradiction|reflexivity].
Qed.

Lemma splitRoutePath_app (a b : string) :
  splitRoutePath (a ++ "/" ++ b)
  = (splitRoutePath a ++ splitRoutePath b)%list.
Proof.
  unfold splitRoutePath.
  change (a ++ "/" ++ b)%string with (a ++ String "/"%char b)%string.
  rewrite split_app, List.filter_app. reflexivity.
Qed.

Lemma splitRoutePath_trailing (p : string) :
  splitRoutePath (p ++ "/") = splitRoutePath p.
Proof.
  change (p ++ "/")%string with (p ++ "/" ++ "")%string.
  rewrite splitRoutePath_app. apply app_nil_r.
Qed.

Lemma prefix_cons a s b t :
  String.prefix (String a s) (String b t)
  = if ascii_dec a b then String.prefix s t else false.
Proof. reflexivity. Qed.

Lemma startsWith_split (p q : string) :
  startsWith p q = true -> p = (q ++ slice (String.length q) p)%string.
Proof.
  unfold startsWith. revert p.
  induction q as [|a q IH]; intros p H; [destruct p; reflexivity|].
  destruct p as [|b p]; [discriminate H|].
  rewrite prefix_cons in H. destruct (ascii_dec a b) as [->|]; [|discriminate H].
  rewrite append_cons. simpl. f_equal. apply IH, H.
Qed.

(** A trailing slash neither adds nor removes the [/api] prefix. *)
Lemma startsWith_api_trailing (p : string) :
  startsWith (p ++ "/") "/api" = startsWith p "/api".
Proof.
  unfold startsWith.
  destruct p as [|c1 p]; [reflexivity|].
  rewrite append_cons, !prefix_cons.
  destruct (ascii_dec "/" c1); [|reflexivity].
  destruct p as [|c2 p]; [reflexivity|].
  rewrite append_cons, !prefix_cons.
  destruct (ascii_dec "a" c2); [|reflexivity].
  destruct p as [|c3 p]; [reflexivity|].
  rewrite append_cons, !prefix_cons.
  destruct (ascii_dec "p" c3); [|reflexivity].
  destruct p as [|c4 p]; [reflexivity|].
  rewrite append_cons, !prefix_cons.
  destruct (ascii_dec "i" c4); [|reflexivity].
  destruct p; reflexivity.
Qed.

Lemma slice_api_trailing (p : string) :
  startsWith p "/api" = true ->
  slice 4 (p ++ "/") = (slice 4 p ++ "/")%string.
Proof.
  intros H. apply startsWith_split in H.
  rewrite H at 1. rewrite string_app_assoc.
  apply (slice_app "/api").
Qed.

Lemma stripPrefix_api_trailing (p : string) :
  stripPrefix "/api" (p ++ "/") = (stripPrefix "/api" p ++ "/")%string.
Proof.
  unfold stripPrefix. rewrite startsWith_api_trailing.
  destruct (startsWith p "/api") eqn:H; [|reflexivity].
  apply slice_api_trailing, H.
Qed.

Lemma pathPartsOf_trailing (p : string) :
  pathPartsOf (p ++ "/") = pathPartsOf p.
Proof.
  unfold pathPartsOf. rewrite stripPrefix_api_trailing.
  apply splitRoutePath_trailing.
Qed.

Lemma pickFrom_same_parts x y routes :
  pathPartsOf x = pathPartsOf y -> pickFrom x routes = pickFrom y routes.
Proof.
  intros Hparts. induction routes as [|c rest IH]; simpl; [reflexivity|].
  unfold matchRoute. rewrite Hparts, IH. reflexivity.
Qed.

Lemma apiPathOf_trailing (p : string) :
  pathPartsOf (apiPathOf (p ++ "/")) = pathPartsOf (apiPathOf p).
Proof.
  unfold apiPathOf. rewrite startsWith_api_trailing.
  destruct (startsWith p "/api") eqn:H; [|apply pathPartsOf_trailing].
  rewrite (slice_api_trailing p H).
  destruct (slice 4 p) as [|c rest]; [reflexivity|].
  replace (truthy (String c rest ++ "/")) with true by reflexivity.
  simpl truthy. cbv iota. apply pathPartsOf_trailing.
Qed.

(** X1: a trailing slash on the request pathname never changes the
    module pickModule selects. *)
Theorem pickModule_trailing_slash (pathname : string) (routes : list Route) :
  pickModule (pathname ++ "/") routes = pickModule pathname routes.
Proof.
  unfold pickModule. apply pickFrom_same_parts, apiPathOf_trailing.
Qed.

(** *** Exact routes are not shadowed *)









End RouterMore.

(** ** More on request headers *)

Module HeadersMore.
Import JsString Headers HeadersFacts.

(** A stored header comes from an incoming entry that is not dropped. *)
Definition fromIncoming (nodeHeaders : NodeHeaders) (stripOrigin : bool)
           (header : string * string) : Prop :=
  exists key value,
    In (key, value) nodeHeaders
    /\ fst header = toLowerCase key
    /\ dropped stripOrigin (toLowerCase key) = false
    /\ In (snd header) (map normalizeValue (contributed value)).

Lemma setFirst_fromIncoming hs strip key v headers :
  In (key, NodeString v) hs ->
  dropped strip (toLowerCase key) = false ->
  Forall (fromIncoming hs strip) headers ->
  Forall (fromIncoming hs strip) (setFirst key (normalizeValue v) headers).
Proof.
  intros Hin Hkept. induction 1 as [|header rest Hh Hrest IH]; simpl;
    [constructor|].
  destruct (named key header) eqn:Hnamed.
  - constructor.
    + exists key, (NodeString v). unfold named in Hnamed.
      apply String.eqb_eq in Hnamed. simpl. auto.
    + apply List.Forall_forall. intros h Hh'.
      apply filter_In in Hh'. destruct Hh' as [Hh' _].
      rewrite List.Forall_forall in Hrest. apply Hrest, Hh'.
  - constructor; assumption.
Qed.

Lemma copyEntry_fromIncoming hs strip headers entry :
  In entry hs ->
  Forall (fromIncoming hs strip) headers ->
  Forall (fromIncoming hs strip) (copyEntry strip headers entry).
Proof.
  intros Hin Hall. destruct entry as [key value]. unfold copyEntry.
  assert (Hdropped : dropped strip (toLowerCase key)
                     = if String.eqb (toLowerCase key) "host" then true
                       else if strip
                               && (String.eqb (toLowerCase key) "origin"
                                   || String.eqb (toLowerCase key) "referer"
                                   || startsWith (toLowerCase key) "sec-fetch-")
                            then true else false) by reflexivity.
  destruct (String.eqb (toLowerCase key) "host"); [exact Hall|].
  destruct (strip && _); [exact Hall|].
  destruct value as [v|values|]; [| |exact Hall].
  - unfold set. destruct (has headers key).
    + apply setFirst_fromIncoming; assumption.
    + unfold append. apply List.Forall_app. split; [exact Hall|].
      constructor; [|constructor].
      exists key, (NodeString v). simpl. auto.
  - assert (Hgen : forall done todo acc,
               values = (done ++ todo)%list ->
               Forall (fromIncoming hs strip) acc ->
               Forall (fromIncoming hs strip)
                      (fold_left (fun h v => append key v h) todo acc)).
    { intros done todo. revert done.
      induction todo as [|v todo IH]; intros done acc Hsplit Hacc; simpl;
        [exact Hacc|].
      apply (IH (done ++ [v])%list).
      - rewrite <- app_assoc. exact Hsplit.
      - unfold append. apply List.Forall_app. split; [exact Hacc|].
        constructor; [|constructor].
        exists key, (NodeArray values). simpl.
        repeat split; auto. apply in_map. rewrite Hsplit.
        apply in_or_app. right. left. reflexivity. }
    apply (Hgen [] values); [reflexivity|exact Hall].
Qed.

Lemma toHeaders_fromIncoming hs strip :
  Forall (fromIncoming hs strip) (toHeaders hs strip).
Proof.
  unfold toHeaders.
  assert (Hgen : forall todo acc,
             incl todo hs ->
             Forall (fromIncoming hs strip) acc ->
             Forall (fromIncoming hs strip)
                    (fold_left (copyEntry strip) todo acc)).
  { induction todo as [|entry todo IH]; intros acc Hincl Hacc; simpl;
      [exact Hacc|].
    apply IH; [intros e He; apply Hincl; right; exact He|].
    apply copyEntry_fromIncoming; [apply Hincl; left; reflexivity|exact Hacc]. }
  apply Hgen; [apply incl_refl|constructor].
Qed.

Lemma get_same_name headers name name' :
  toLowerCase name = toLowerCase name' ->
  get headers name = get headers name'.
Proof.
  intros Heq. unfold get, valuesOf, named, separator. rewrite Heq. reflexivity.
Qed.

(** X3: toHeaders never invents a header.  For incoming headers with
    each name once, names and values ones the Headers class accepts,
    whatever is read back under a name from the list toHeaders builds is
    the value of an incoming entry of that name, up to case, that the
    options do not drop: a string without the whitespace around it, the
    values of an array joined. *)
Theorem toHeaders_only_incoming
        (nodeHeaders : NodeHeaders) (stripOrigin : bool) (name text : string) :
  accepted nodeHeaders ->
  get (toHeaders nodeHeaders stripOrigin) name = Some text ->
  exists key incoming,
    In (key, incoming) nodeHeaders
    /\ toLowerCase key = toLowerCase name
    /\ dropped stripOrigin (toLowerCase key) = false
    /\ readBack key incoming = Some text.
Proof.
  intros Haccepted Hget.
  assert (Hstored : exists header,
             In header (toHeaders nodeHeaders stripOrigin)
             /\ named name header = true).
  { unfold get, valuesOf in Hget.
    destruct (List.filter (named name) (toHeaders nodeHeaders stripOrigin))
      as [|header rest] eqn:Hfilter; [discriminate|].
    exists header. apply filter_In. rewrite Hfilter. left. reflexivity. }
  destruct Hstored as (header & Hin & Hnamed).
  pose proof (toHeaders_fromIncoming nodeHeaders stripOrigin) as Hall.
  rewrite List.Forall_forall in Hall.
  destruct (Hall _ Hin) as (key & incoming & Hk & Hname & Hkept & _).
  unfold named in Hnamed. apply String.eqb_eq in Hnamed.
  assert (Hsame : toLowerCase key = toLowerCase name) by congruence.
  exists key, incoming. repeat split; try assumption.
  rewrite <- (toHeaders_get _ _ _ _ Haccepted Hk Hkept), <- Hget.
  apply get_same_name, Hsame.
Qed.

Lemma toHeaders_only_incoming_witness :
  exists key incoming,
    In (key, incoming) Cases.looseHeaders
    /\ toLowerCase key = toLowerCase "cookie"
    /\ dropped true (toLowerCase key) = false
    /\ readBack key incoming = Some "a=1; b=2".
Proof.
  apply (toHeaders_only_incoming Cases.looseHeaders true "cookie" "a=1; b=2").
  - exact SidecarFacts.looseHeaders_accepted.
  - reflexivity.
Defined.

Lemma dropped_host strip : dropped strip "host" = true.
Proof. reflexivity. Qed.

Lemma dropped_false_other lowerKey :
  lowerKey <> "host" -> dropped false lowerKey = false.
Proof.
  intros Hne. unfold dropped. apply String.eqb_neq in Hne. rewrite Hne.
  reflexivity.
Qed.

(** X4: whatever the options, the list toHeaders builds has no Host
    header; and when stripOrigin is not set, every other incoming header
    (each name once, names and values ones the Headers class accepts),
    Origin, Referer and Sec-Fetch-* included, is read back with its
    value, without the whitespace around it, the values of an array
    joined. *)
Theorem toHeaders_without_strip (nodeHeaders : NodeHeaders) :
  (forall stripOrigin name,
      toLowerCase name = "host" ->
      has (toHeaders nodeHeaders stripOrigin) name = false)
  /\ (accepted nodeHeaders ->
      forall key value,
        In (key, value) nodeHeaders ->
        toLowerCase key <> "host" ->
        get (toHeaders nodeHeaders false) key = readBack key value).
Proof.
  split.
  - intros strip name Hhost. unfold has.
    destruct (existsb (named name) (toHeaders nodeHeaders strip)) eqn:Hex;
      [|reflexivity].
    apply existsb_exists in Hex. destruct Hex as ([n v] & Hin & Hnamed).
    unfold named in Hnamed. simpl in Hnamed. apply String.eqb_eq in Hnamed.
    pose proof (toHeaders_kept nodeHeaders strip) as Hkept.
    rewrite List.Forall_forall in Hkept.
    destruct (Hkept _ Hin) as [Hdropped _]. simpl in Hdropped.
    rewrite Hnamed, Hhost, dropped_host in Hdropped. discriminate Hdropped.
  - intros Haccepted key value Hin Hne.
    apply toHeaders_get; auto.
    apply dropped_false_other, Hne.
Qed.

Lemma toHeaders_without_strip_witness :
  get (toHeaders Scenario.browserHeaders false) "origin"
  = Some "tauri://localhost"
  /\ has (toHeaders Scenario.browserHeaders false) "Host" = false
  /\ get (toHeaders Cases.looseHeaders false) "Origin"
     = Some "tauri://localhost"
  /\ get (toHeaders Cases.looseHeaders false) "Cookie" = Some "a=1; b=2".
Proof.
  destruct (toHeaders_without_strip Scenario.browserHeaders) as [Hhost Hkeep].
  destruct (toHeaders_without_strip Cases.looseHeaders) as [_ Hloose].
  split; [|split; [|split]].
  - refine (Hkeep SidecarFacts.browserHeaders_accepted "origin"
                  (NodeString "tauri://localhost") _ _).
    + right. right. left. reflexivity.
    + discriminate.
  - apply Hhost. reflexivity.
  - refine (Hloose SidecarFacts.looseHeaders_accepted "Origin"
                   (NodeString "tauri://localhost") _ _).
    + right. right. right. right. left. reflexivity.
    + discriminate.
  - refine (Hloose SidecarFacts.looseHeaders_accepted "Cookie"
                   (NodeArray ["a=1"; "b=2"]) _ _).
    + right. right. left. reflexivity.
    + discriminate.
Defined.

End HeadersMore.

(** ** More on the sidecar *)

Module SidecarMore.
Import JsString Router Headers Effect EffectFacts Sidecar SidecarFacts Startup.

(** [m] never throws. *)
Definition resolves {A : Type} (m : M A) : Prop :=
  forall w, exists a, fst (m w) = Ok a.

Lemma resolves_ret {A : Type} (a : A) : resolves (mret a : M A).
Proof. intros w. exists a. reflexivity. Qed.

Lemma resolves_bind {A B : Type} (m : M A) (k : A -> M B) :
  resolves m -> (forall a, resolves (k a)) -> resolves (m ≫= k).
Proof.
  intros Hm Hk w. rewrite bind_run. destruct (Hm w) as [a Ha].
  destruct (m w) as [[a'|e] w1]; simpl in Ha; [|discriminate Ha].
  apply Hk.
Qed.

Lemma resolves_tryCatch {A : Type} (body : M A) (handler : Thrown -> M A) :
  (forall e, resolves (handler e)) -> resolves (tryCatch body handler).
Proof.
  intros Hk w. unfold tryCatch.
  destruct (body w) as [[a|e] w1]; [exists a; reflexivity|apply Hk].
Qed.

Section Runs.
Variable env : Env.
Variable context : Context.

Lemma resolves_tryCloudFallback requestUrl req reason :
  resolves (tryCloudFallback env context requestUrl req reason).
Proof.
  unfold tryCloudFallback. apply resolves_bind.
  - destruct (truthy reason); [|apply resolves_ret].
    intros w. exists tt. reflexivity.
  - intros _. apply resolves_tryCatch. intros e.
    apply resolves_bind; [intros w; exists tt; reflexivity|].
    intros _. apply resolves_ret.
Qed.

Lemma resolves_fallback requestUrl req reason fallback :
  resolves (cloudResponse ← tryCloudFallback env context requestUrl req reason;
            mret (orElse cloudResponse fallback)).
Proof.
  apply resolves_bind; [apply resolves_tryCloudFallback|].
  intros c. apply resolves_ret.
Qed.

Lemma resolves_dispatch requestUrl req routes :
  resolves (dispatch env context requestUrl req routes).
Proof.
  unfold dispatch.
  destruct (String.eqb (pathname requestUrl) "/api/service-status");
    [apply resolves_ret|].
  destruct (String.eqb (pathname requestUrl) "/api/local-status");
    [apply resolves_ret|].
  destruct (pickModule (pathname requestUrl) routes) as [path|];
    [|apply resolves_fallback].
  destruct (negb (truthy path) || negb (existsSync env path));
    [apply resolves_fallback|].
  apply resolves_tryCatch. intros e. apply resolves_fallback.
Qed.

(** X5: dispatch never throws: every failure of the local side or of
    the cloud ends in a Response.  So once the request URL parses, the
    listener always replies to a request for an /api/ path.  When the
    body of the Response can be read and Node accepts its status and
    headers, the reply carries that status and that body, and under each
    name what the Response holds under it: the last Set-Cookie, the
    joined values of any other name; the world is as dispatch left it.
    Otherwise the reply is status 500 with the JSON body
    {error: Internal server error}, and the failure is logged. *)
Theorem dispatch_always_answers
        (requestUrl : Url) (req : IncomingMessage) (routes : list Route)
        (w : World) :
  (exists response,
      fst (dispatch env context requestUrl req routes w) = Ok response)
  /\ (parseUrl env (rawOf req) = Ok requestUrl ->
      startsWith (pathname requestUrl) "/api/" = true ->
      exists response reply,
        fst (dispatch env context requestUrl req routes w) = Ok response
        /\ fst (listener env context routes req w) = Ok reply
        /\ (readable response ->
            sendable response ->
            replyStatus reply = status response
            /\ replyBody reply = responseBody response
            /\ (forall name,
                   replyHeaders reply !! name
                   = written (responseHeaders response) name)
            /\ snd (listener env context routes req w)
               = snd (dispatch env context requestUrl req routes w))
        /\ (~ (readable response /\ sendable response) ->
            reply
            = {| replyStatus := 500;
                 replyHeaders := {[ "content-type" := "application/json" ]};
                 replyBody :=
                   Stringified
                     (JObject [("error", JString "Internal server error")]) |}
            /\ exists error,
                log (snd (listener env context routes req w))
                = log (snd (dispatch env context requestUrl req routes w))
                  ++ [Errored "[local-api] fatal" error])).
Proof.
  destruct (resolves_dispatch requestUrl req routes w) as [response Hr].
  split; [exists response; exact Hr|].
  intros Hparse Hapi.
  destruct (dispatch env context requestUrl req routes w) as [outcome w1]
    eqn:Hdispatch.
  simpl in Hr. subst outcome. cbn [fst snd].
  assert (Hreply : exists reply,
             fst (listener env context routes req w) = Ok reply).
  { rewrite (listener_api _ _ _ _ _ _ Hparse Hapi), Hdispatch.
    destruct (responseBody response); [| |eexists; reflexivity];
      destruct (writeHead _ _ w1) as [[[]|error] w2]; eexists; reflexivity. }
  destruct Hreply as [reply Hreply].
  exists response, reply. split; [reflexivity|]. split; [exact Hreply|].
  split.
  - intros Hreadable Hsendable.
    rewrite (listener_sends _ _ _ _ _ _ _ _ Hparse Hapi Hdispatch
                            Hreadable Hsendable) in Hreply |- *.
    injection Hreply as <-. cbn [replyStatus replyBody replyHeaders snd].
    split; [reflexivity|]. split; [reflexivity|].
    split; [|reflexivity]. intros name. apply entries_lookup.
  - intros Hnot.
    destruct (listener_catches _ _ _ _ _ _ _ _ Hparse Hapi Hdispatch Hnot)
      as [error Hcaught].
    rewrite Hcaught in Hreply |- *. injection Hreply as <-.
    split; [reflexivity|]. exists error. reflexivity.
Qed.

End Runs.

Lemma dispatch_always_answers_witness :
  exists reply,
    fst (listener (Scenario.env NotFunction (Throws "ECONNREFUSED"))
                  Scenario.context Scenario.routes
                  (Scenario.request "/api/rss-proxy") Scenario.idle)
    = Ok reply
    /\ replyStatus reply = 500%Z
    /\ replyBody reply
       = Stringified
           (JObject [("error", JString "Invalid handler module: rss-proxy.js")])
    /\ replyHeaders reply !! "content-type" = Some "application/json"
    /\ replyHeaders reply !! "set-cookie" = None.
Proof.
  destruct (proj2 (dispatch_always_answers
                     (Scenario.env NotFunction (Throws "ECONNREFUSED"))
                     Scenario.context (Scenario.urlOf "/api/rss-proxy")
                     (Scenario.request "/api/rss-proxy") Scenario.routes
                     Scenario.idle)
                  eq_refl eq_refl)
    as (response & reply & Hdispatch & Hreply & Hsends & _).
  assert (Hresponse :
            response
            = json (JObject [("error",
                              JString "Invalid handler module: rss-proxy.js")])
                   500).
  { vm_compute in Hdispatch. injection Hdispatch as <-. reflexivity. }
  subst response.
  assert (Hreadable : readable
            (json (JObject [("error",
                             JString "Invalid handler module: rss-proxy.js")])
                  500))
    by (intros error; discriminate).
  assert (Hsendable : sendable
            (json (JObject [("error",
                             JString "Invalid handler module: rss-proxy.js")])
                  500))
    by (apply sendable_json; lia).
  destruct (Hsends Hreadable Hsendable) as (Hstatus & Hbody & Hheaders & _).
  exists reply. split; [exact Hreply|]. split; [exact Hstatus|].
  split; [exact Hbody|].
  split; [exact (Hheaders "content-type")|exact (Hheaders "set-cookie")].
Defined.

End SidecarMore.

(** ** One request: what reaches the handler and the cloud *)

Module SidecarRuns.
Import JsString Router Headers Effect EffectFacts Sidecar SidecarFacts SidecarMore.

Definition isInvoked (event : Event) : bool :=
  match event with Invoked _ _ => true | _ => false end.

Definition isFetched (event : Event) : bool :=
  match event with Fetched _ => true | _ => false end.

(** How often a trace calls a local handler, and the cloud. *)
Definition invocations (events : list Event) : nat :=
  length (List.filter isInvoked events).

Definition fetches (events : list Event) : nat :=
  length (List.filter isFetched events).

Lemma invocations_app a b :
  invocations (a ++ b) = (invocations a + invocations b)%nat.
Proof.
  unfold invocations. rewrite List.filter_app, List.length_app. reflexivity.
Qed.

Lemma fetches_app a b : fetches (a ++ b) = (fetches a + fetches b)%nat.
Proof.
  unfold fetches. rewrite List.filter_app, List.length_app. reflexivity.
Qed.

(** [m] only appends to the trace, at most [handlerCalls] calls of a
    handler and [cloudCalls] calls of the cloud. *)
Definition spends (handlerCalls cloudCalls : nat) {A : Type} (m : M A) : Prop :=
  forall w, exists events,
      log (snd (m w)) = log w ++ events
      /\ (invocations events <= handlerCalls)%nat
      /\ (fetches events <= cloudCalls)%nat.

Lemma spends_silent {A : Type} (m : M A) a b :
  (forall w, log (snd (m w)) = log w) -> spends a b m.
Proof.
  intros Hsame w. exists []. rewrite app_nil_r.
  split; [apply Hsame|]. split; apply Nat.le_0_l.
Qed.

Lemma spends_bind {A B : Type} (m : M A) (k : A -> M B) a b a' b' :
  spends a b m -> (forall x, spends a' b' (k x)) ->
  spends (a + a') (b + b') (m ≫= k).
Proof.
  intros Hm Hk w. rewrite bind_run.
  destruct (Hm w) as (events & Hlog & Hi & Hf).
  destruct (m w) as [[x|e] w1]; simpl in Hlog.
  - destruct (Hk x w1) as (events' & Hlog' & Hi' & Hf').
    exists (events ++ events'). rewrite Hlog', Hlog, app_assoc.
    rewrite invocations_app, fetches_app.
    split; [reflexivity|]. split; lia.
  - exists events. simpl. split; [exact Hlog|]. split; lia.
Qed.

Lemma spends_tryCatch {A : Type} (body : M A) (handler : Thrown -> M A)
      a b a' b' :
  spends a b body -> (forall e, spends a' b' (handler e)) ->
  spends (a + a') (b + b') (tryCatch body handler).
Proof.
  intros Hm Hk w. unfold tryCatch.
  destruct (Hm w) as (events & Hlog & Hi & Hf).
  destruct (body w) as [[x|e] w1]; simpl in Hlog.
  - exists events. simpl. split; [exact Hlog|]. split; lia.
  - destruct (Hk e w1) as (events' & Hlog' & Hi' & Hf').
    exists (events ++ events'). rewrite Hlog', Hlog, app_assoc.
    rewrite invocations_app, fetches_app.
    split; [reflexivity|]. split; lia.
Qed.

Lemma spends_emit event :
  spends (invocations [event]) (fetches [event]) (emit event).
Proof. intros w. exists [event]. split; [reflexivity|]. split; lia. Qed.

Section Runs.
Variable env : Env.
Variable context : Context.

Lemma importHandler_log modulePath w :
  log (snd (importHandler env modulePath w)) = log w.
Proof.
  unfold importHandler.
  destruct (moduleCache w !! modulePath); [reflexivity|].
  destruct (importModule env modulePath); reflexivity.
Qed.

Lemma spends_bodyFor req : spends 0 0 (bodyFor env req).
Proof. apply spends_silent. intros w. rewrite bodyFor_run. reflexivity. Qed.

Lemma spends_proxyToCloud requestUrl req base :
  spends 0 1 (proxyToCloud env requestUrl req base).
Proof.
  unfold proxyToCloud.
  apply (spends_bind _ _ 0 0 0 1); [apply spends_bodyFor|]. intros body.
  unfold callFetch.
  apply (spends_bind _ _ 0 1 0 0); [apply spends_emit|]. intros _.
  apply spends_silent. reflexivity.
Qed.

Lemma spends_tryCloudFallback requestUrl req reason :
  spends 0 1 (tryCloudFallback env context requestUrl req reason).
Proof.
  unfold tryCloudFallback.
  apply (spends_bind _ _ 0 0 0 1).
  - destruct (truthy reason); [apply spends_emit|].
    apply spends_silent. reflexivity.
  - intros _. apply (spends_tryCatch _ _ 0 1 0 0).
    + apply (spends_bind _ _ 0 1 0 0); [apply spends_proxyToCloud|].
      intros r. apply spends_silent. reflexivity.
    + intros e. apply (spends_bind _ _ 0 0 0 0); [apply spends_emit|].
      intros _. apply spends_silent. reflexivity.
Qed.

(** The fallback always answers; it never calls a handler and calls the
    cloud at most once. *)
Lemma spends_fallback requestUrl req reason fallback :
  spends 0 1 (cloudResponse ← tryCloudFallback env context requestUrl req reason;
              mret (orElse cloudResponse fallback)).
Proof.
  apply (spends_bind _ _ 0 1 0 0); [apply spends_tryCloudFallback|].
  intros c. apply spends_silent. reflexivity.
Qed.


(** The [try] block up to the call of the handler. *)
Lemma runLocal_reaches requestUrl req routes w modulePath handler request :
  handlerRuns env requestUrl req routes w modulePath handler request ->
  runLocal env context requestUrl req modulePath w
  = afterHandler env context requestUrl req (handler request)
      {| moduleCache := moduleCache (snd (importHandler env modulePath w));
         bodyReads := readsAfterLocal req w;
         log := log w ++ [Invoked modulePath request] |}.
Proof.
  intros (_ & _ & _ & _ & Himport & (body & Hbody & ->) & Haccepted).
  unfold runLocal. rewrite bind_run.
  pose proof (importHandler_reads env modulePath w) as Hreads.
  pose proof (importHandler_log modulePath w) as Hlog.
  destruct (importHandler env modulePath w) as [[module|e] w1];
    simpl in Himport, Hreads, Hlog; [|discriminate Himport].
  injection Himport as ->.
  rewrite bind_run, bodyFor_run. rewrite bodyFor_run in Hbody.
  simpl in Hbody. rewrite Hreads, Hbody.
  rewrite bind_run. unfold newRequest.
  change (requestAccepted env (localRequest requestUrl req body) = true)
    in Haccepted.
  change {| requestUrl := href requestUrl;
            requestMethod := method req;
            requestHeaders := toHeaders (headers req) true;
            requestBody := body |}
    with (localRequest requestUrl req body).
  rewrite Haccepted, ret_run, bind_run.
  unfold callHandler. rewrite bind_run. unfold emit, lift.
  unfold readsAfterLocal. simpl. rewrite Hreads, Hlog.
  destruct (handler (localRequest requestUrl req body)) as [[response|]|e];
    reflexivity.
Qed.

(** A handler that answers with an ok Response: the run of dispatch. *)
Lemma ok_response_run
      requestUrl req routes w modulePath handler request response :
  handlerRuns env requestUrl req routes w modulePath handler request ->
  handler request = Ok (IsResponse response) ->
  ok response = true ->
  dispatch env context requestUrl req routes w
  = (Ok response,
     {| moduleCache := moduleCache (snd (importHandler env modulePath w));
        bodyReads := readsAfterLocal req w;
        log := log w ++ [Invoked modulePath request] |}).
Proof.
  intros Hruns Hanswer Hok.
  pose proof (runLocal_reaches _ _ _ _ _ _ _ Hruns) as Hrun.
  destruct Hruns as (Hrouted & Hpick & Hpath & Hexists & Himport & _).
  rewrite dispatch_routed by exact Hrouted.
  rewrite Hpick, Hexists, (truthy_nonempty _ Hpath). simpl.
  unfold tryCatch. rewrite Hrun, Hanswer. simpl. rewrite Hok. reflexivity.
Qed.

(** X6: when the local handler answers with an ok Response (status 200
    to 299), dispatch returns that very Response.  The only outside
    effect of the request is the one call of the handler: the cloud is
    not fetched and nothing is logged, and the module is in the cache
    afterwards. *)
Theorem ok_response_stays_local
        requestUrl req routes w modulePath handler request response :
  handlerRuns env requestUrl req routes w modulePath handler request ->
  handler request = Ok (IsResponse response) ->
  ok response = true ->
  dispatch env context requestUrl req routes w
  = (Ok response,
     {| moduleCache := moduleCache (snd (importHandler env modulePath w));
        bodyReads := readsAfterLocal req w;
        log := log w ++ [Invoked modulePath request] |})
  /\ moduleCache (snd (dispatch env context requestUrl req routes w))
     !! modulePath = Some (Function handler).
Proof.
  intros Hruns Hanswer Hok.
  pose proof (ok_response_run _ _ _ _ _ _ _ _ Hruns Hanswer Hok) as Hdispatch.
  destruct Hruns as (_ & _ & _ & _ & Himport & _).
  split; [exact Hdispatch|].
  rewrite Hdispatch. simpl.
  unfold importHandler in *.
  destruct (moduleCache w !! modulePath) as [cached|] eqn:Hcached.
  - simpl in *. congruence.
  - destruct (importModule env modulePath) as [module|e]; simpl in *;
      [|discriminate Himport].
    injection Himport as ->. apply lookup_insert_eq.
Qed.

(** X7: importHandler loads a module at most once.  After a load that
    succeeded the module is in the cache under its path, the other
    entries are as before, and every later importHandler of that path
    returns the same module without importing, whatever import would do
    then.  A load that failed leaves the cache as it was, so the next
    request imports again. *)
Theorem importHandler_caches modulePath w :
  (forall module,
      fst (importHandler env modulePath w) = Ok module ->
      moduleCache (snd (importHandler env modulePath w)) !! modulePath
      = Some module
      /\ (forall other,
             other <> modulePath ->
             moduleCache (snd (importHandler env modulePath w)) !! other
             = moduleCache w !! other)
      /\ forall env',
          importHandler env' modulePath (snd (importHandler env modulePath w))
          = (Ok module, snd (importHandler env modulePath w)))
  /\ (forall e,
         fst (importHandler env modulePath w) = Throws e ->
         snd (importHandler env modulePath w) = w
         /\ moduleCache w !! modulePath = None).
Proof.
  unfold importHandler. split.
  - intros module.
    destruct (moduleCache w !! modulePath) as [cached|] eqn:Hcached.
    + simpl. intros [= ->]. split; [exact Hcached|].
      split; [reflexivity|]. intros env'. rewrite Hcached. reflexivity.
    + destruct (importModule env modulePath) as [loaded|e]; simpl;
        [|discriminate].
      intros [= ->]. split; [apply lookup_insert_eq|].
      split; [intros other Hother; apply lookup_insert_ne; congruence|].
      intros env'. rewrite lookup_insert_eq. reflexivity.
  - intros e.
    destruct (moduleCache w !! modulePath) as [cached|] eqn:Hcached;
      [discriminate|].
    destruct (importModule env modulePath) as [loaded|e']; simpl;
      [discriminate|].
    intros _. split; reflexivity.
Qed.

(** [m] calls a handler at most once, and the cloud at most once and not
    at all when it throws. *)
Definition thrifty {A : Type} (m : M A) : Prop :=
  forall w, exists events,
      log (snd (m w)) = log w ++ events
      /\ (invocations events <= 1)%nat
      /\ match fst (m w) with
         | Ok _ => (fetches events <= 1)%nat
         | Throws _ => fetches events = 0%nat
         end.

Lemma thrifty_fallback requestUrl req reason fallback w events :
  (invocations events <= 1)%nat ->
  fetches events = 0%nat ->
  exists events',
    log (snd ((cloudResponse ← tryCloudFallback env context requestUrl req reason;
               mret (orElse cloudResponse fallback)) w))
    = log w ++ events'
    /\ (invocations (events ++ events') <= 1)%nat
    /\ (fetches (events ++ events') <= 1)%nat
    /\ exists response,
        fst ((cloudResponse ← tryCloudFallback env context requestUrl req reason;
              mret (orElse cloudResponse fallback)) w) = Ok response.
Proof.
  intros Hi Hf.
  destruct (spends_fallback requestUrl req reason fallback w)
    as (events' & Hlog & Hi' & Hf').
  exists events'. rewrite invocations_app, fetches_app.
  split; [exact Hlog|]. split; [lia|]. split; [lia|].
  apply (resolves_fallback env context).
Qed.

Lemma thrifty_runLocal requestUrl req modulePath :
  thrifty (runLocal env context requestUrl req modulePath).
Proof.
  intros w. unfold runLocal. rewrite bind_run.
  pose proof (importHandler_log modulePath w) as Hlog0.
  destruct (importHandler env modulePath w) as [[[|handler]|e] w1];
    simpl in Hlog0.
  - destruct (thrifty_fallback requestUrl req
                ("invalid handler module " ++ basename env modulePath)
                (json (errorBody ("Invalid handler module: "
                                  ++ basename env modulePath)) 500) w1 [])
      as (events & Hlog & Hi & Hf & response & Hr);
      [apply Nat.le_0_l|reflexivity|].
    exists events. rewrite Hlog, Hlog0, Hr. auto.
  - rewrite bind_run, bodyFor_run.
    destruct (if isGetOrHead req then Ok None else bodyStream env (bodyReads w1))
      as [body|e].
    + rewrite bind_run. unfold newRequest.
      destruct (requestAccepted env _).
      * rewrite ret_run, bind_run. unfold callHandler. rewrite bind_run.
        unfold emit, lift. cbv beta iota.
        match goal with
        | |- context [handler ?r] =>
            destruct (handler r) as [[response|]|e]
        end.
        -- destruct (negb (ok response)).
           ++ match goal with
              | |- context [(tryCloudFallback env context requestUrl req ?reason
                               ≫= ?k) ?w2] =>
                  destruct (thrifty_fallback requestUrl req reason response w2
                              [Invoked modulePath
                                 {| requestUrl := href requestUrl;
                                    requestMethod := method req;
                                    requestHeaders := toHeaders (headers req) true;
                                    requestBody := body |}])
                    as (events & Hlog & Hi & Hf & r & Hr);
                    [apply Nat.le_refl|reflexivity|]
              end.
              eexists. rewrite Hlog, Hr. simpl log. rewrite Hlog0, <- app_assoc.
              split; [reflexivity|]. split; assumption.
           ++ eexists. simpl. rewrite Hlog0. split; [reflexivity|].
              split; [apply Nat.le_refl|apply Nat.le_0_l].
        -- match goal with
           | |- context [(tryCloudFallback env context requestUrl req ?reason
                            ≫= (fun c => mret (orElse c ?fb))) ?w2] =>
               destruct (thrifty_fallback requestUrl req reason fb w2
                           [Invoked modulePath
                              {| requestUrl := href requestUrl;
                                 requestMethod := method req;
                                 requestHeaders := toHeaders (headers req) true;
                                 requestBody := body |}])
                 as (events & Hlog & Hi & Hf & r & Hr);
                 [apply Nat.le_refl|reflexivity|]
           end.
           eexists. rewrite Hlog, Hr. simpl log. rewrite Hlog0, <- app_assoc.
           split; [reflexivity|]. split; assumption.
        -- eexists. simpl. rewrite Hlog0. split; [reflexivity|].
           split; [apply Nat.le_refl|reflexivity].
      * exists []. simpl. rewrite Hlog0, app_nil_r.
        split; [reflexivity|]. split; [apply Nat.le_0_l|reflexivity].
    + exists []. simpl. rewrite Hlog0, app_nil_r.
      split; [reflexivity|]. split; [apply Nat.le_0_l|reflexivity].
  - exists []. simpl. rewrite Hlog0, app_nil_r.
    split; [reflexivity|]. split; [apply Nat.le_0_l|reflexivity].
Qed.

(** X8: one request costs at most one call of a local handler and at
    most one fetch of the cloud: dispatch only appends to the trace, and
    what it appends holds at most one Invoked and at most one Fetched
    event, whatever the handler, the disk and the cloud do. *)
Theorem dispatch_calls_once requestUrl req routes w :
  exists events,
    log (snd (dispatch env context requestUrl req routes w)) = log w ++ events
    /\ (invocations events <= 1)%nat
    /\ (fetches events <= 1)%nat.
Proof.
  assert (Hcloud : forall reason fallback,
             exists events,
               log (snd ((cloudResponse ← tryCloudFallback env context requestUrl
                                                           req reason;
                          mret (orElse cloudResponse fallback)) w))
               = log w ++ events
               /\ (invocations events <= 1)%nat /\ (fetches events <= 1)%nat).
  { intros reason fallback.
    destruct (spends_fallback requestUrl req reason fallback w)
      as (events & Hlog & Hi & Hf).
    exists events. split; [exact Hlog|]. split; lia. }
  unfold dispatch.
  destruct (String.eqb (pathname requestUrl) "/api/service-status").
  { exists []. simpl. rewrite app_nil_r. split; [reflexivity|].
    split; apply Nat.le_0_l. }
  destruct (String.eqb (pathname requestUrl) "/api/local-status").
  { exists []. simpl. rewrite app_nil_r. split; [reflexivity|].
    split; apply Nat.le_0_l. }
  destruct (pickModule (pathname requestUrl) routes) as [path|];
    [|apply Hcloud].
  destruct (negb (truthy path) || negb (existsSync env path));
    [apply Hcloud|].
  unfold tryCatch.
  destruct (thrifty_runLocal requestUrl req path w) as (events & Hlog & Hi & Hf).
  destruct (runLocal env context requestUrl req path w) as [[response|e] w1];
    simpl in Hlog, Hf.
  - exists events. simpl. auto.
  - destruct (thrifty_fallback requestUrl req e
                (json (errorBody
                         "Local handler failed and cloud fallback unavailable")
                      502) w1 events Hi Hf)
      as (events' & Hlog' & Hi' & Hf' & _).
    exists (events ++ events'). rewrite Hlog', Hlog, app_assoc. auto.
Qed.


(** The [catch] block of [dispatch], entered before any handler ran. *)
Lemma failed_run requestUrl req error w w1 :
  log w1 = log w ->
  fst ((cloudResponse ← tryCloudFallback env context requestUrl req error;
        mret (orElse cloudResponse
                (json (errorBody
                         "Local handler failed and cloud fallback unavailable")
                      502))) w1)
  = cloudOr (proxyOutcome env context requestUrl req (bodyReads w1))
            (json (errorBody
                     "Local handler failed and cloud fallback unavailable") 502)
  /\ exists events,
      log (snd ((cloudResponse ← tryCloudFallback env context requestUrl req error;
                 mret (orElse cloudResponse
                         (json (errorBody
                                  "Local handler failed and cloud fallback unavailable")
                               502))) w1))
      = log w ++ events
      /\ invocations events = 0%nat.
Proof.
  intros Hlog. split; [apply fallback_run|].
  destruct (spends_fallback requestUrl req error
              (json (errorBody
                       "Local handler failed and cloud fallback unavailable") 502)
              w1) as (events & Hlog' & Hi & _).
  exists events. rewrite Hlog', Hlog. split; [reflexivity|lia].
Qed.

(** X9: a handler that cannot be started counts as a local failure.  When
    the import of the module throws, or the module loads but reading the
    request body throws or the Request cannot be built, dispatch answers
    with the cloud's response if the proxy call succeeds and otherwise
    with the JSON error "Local handler failed and cloud fallback
    unavailable" and status 502; no handler is called. *)
Theorem load_failure_falls_back requestUrl req routes w modulePath :
  routed requestUrl ->
  pickModule (pathname requestUrl) routes = Some modulePath ->
  modulePath <> "" ->
  existsSync env modulePath = true ->
  (forall e,
      fst (importHandler env modulePath w) = Throws e ->
      fst (dispatch env context requestUrl req routes w)
      = cloudOr (proxyOutcome env context requestUrl req (bodyReads w))
                {| status := 502;
                   responseHeaders := [("content-type", "application/json")];
                   responseBody :=
                     Stringified
                       (JObject
                          [("error",
                            JString "Local handler failed and cloud fallback unavailable")]) |}
      /\ exists events,
          log (snd (dispatch env context requestUrl req routes w))
          = log w ++ events
          /\ invocations events = 0%nat)
  /\ (forall handler,
         fst (importHandler env modulePath w) = Ok (Function handler) ->
         match fst (bodyFor env req w) with
         | Ok body =>
             requestAccepted env (localRequest requestUrl req body) = false
         | Throws _ => True
         end ->
         fst (dispatch env context requestUrl req routes w)
         = cloudOr (proxyOutcome env context requestUrl req
                                 (readsAfterLocal req w))
                   {| status := 502;
                      responseHeaders := [("content-type", "application/json")];
                      responseBody :=
                        Stringified
                          (JObject
                             [("error",
                               JString "Local handler failed and cloud fallback unavailable")]) |}
         /\ exists events,
             log (snd (dispatch env context requestUrl req routes w))
             = log w ++ events
             /\ invocations events = 0%nat).
Proof.
  intros Hrouted Hpick Hpath Hexists.
  rewrite dispatch_routed by exact Hrouted.
  rewrite Hpick, Hexists, (truthy_nonempty _ Hpath). simpl negb. simpl orb.
  cbv iota. unfold tryCatch, runLocal. rewrite bind_run.
  pose proof (importHandler_reads env modulePath w) as Hreads.
  pose proof (importHandler_log modulePath w) as Hlog.
  destruct (importHandler env modulePath w) as [[module|e0] w1];
    simpl in Hreads, Hlog; split.
  - intros e [=].
  - intros handler [= ->] Hfails.
    rewrite bind_run, bodyFor_run. rewrite bodyFor_run in Hfails.
    simpl in Hfails. rewrite Hreads.
    destruct (if isGetOrHead req then Ok None else bodyStream env (bodyReads w))
      as [body|e].
    + rewrite bind_run. unfold newRequest.
      change {| requestUrl := href requestUrl;
                requestMethod := method req;
                requestHeaders := toHeaders (headers req) true;
                requestBody := body |}
        with (localRequest requestUrl req body).
      rewrite Hfails. unfold throw.
      match goal with
      | |- context [(tryCloudFallback _ _ _ _ _ ≫= _) ?w2] =>
          destruct (failed_run requestUrl req "TypeError" w w2 Hlog)
            as [Hfst Hsnd]
      end.
      split; [|exact Hsnd]. rewrite Hfst. simpl bodyReads.
      unfold readsAfterLocal. rewrite Hreads. reflexivity.
    + match goal with
      | |- context [(tryCloudFallback _ _ _ _ _ ≫= _) ?w2] =>
          destruct (failed_run requestUrl req e w w2 Hlog) as [Hfst Hsnd]
      end.
      split; [|exact Hsnd]. rewrite Hfst. simpl bodyReads.
      unfold readsAfterLocal. rewrite Hreads. reflexivity.
  - intros e [= ->].
    destruct (failed_run requestUrl req e w w1 Hlog) as [Hfst Hsnd].
    rewrite Hreads in Hfst. split; [exact Hfst|exact Hsnd].
  - intros handler [=].
Qed.

End Runs.
End SidecarRuns.

(** ** Start-up: the configuration and the server it gives *)

Module StartupFacts.
Import JsString Router Headers Effect EffectFacts Sidecar SidecarFacts Startup.

Section Platform.
Variable path : PathModule.
Variable numberOfText : string -> Z.
Variable tree : string -> list Dirent.
Variable env : Env.
Variable process : Process.

Abbreviation config := (resolveConfig path numberOfText env process).

(** X10: a server started without an api directory on the disk has an
    empty route table, and it passes every request for a path under
    /api/ other than the two built-in endpoints on to the cloud.  When
    the proxy call succeeds (and the body of the cloud's response can be
    read, its status and headers being ones Node accepts), the reply has
    the status, the body and, name by name, the headers of the cloud's
    response; when the call throws, the reply is status 502 with the
    JSON content type and the JSON body
    {error: Local handler missing and cloud fallback unavailable}. *)
Theorem server_without_api_dir options req requestUrl w :
  existsSync env (apiDir (config options)) = false ->
  parseUrl env (rawOf req) = Ok requestUrl ->
  startsWith (pathname requestUrl) "/api/" = true ->
  routed requestUrl ->
  routesOf path tree env (config options) = []
  /\ (forall response,
         proxyOutcome env (config options) requestUrl req (bodyReads w)
         = Ok response ->
         readable response ->
         sendable response ->
         exists reply,
           fst (createLocalApiServer path numberOfText tree env process
                                     options req w)
           = Ok reply
           /\ replyStatus reply = status response
           /\ replyBody reply = responseBody response
           /\ forall name,
               replyHeaders reply !! name
               = written (responseHeaders response) name)
  /\ (forall error,
         proxyOutcome env (config options) requestUrl req (bodyReads w)
         = Throws error ->
         fst (createLocalApiServer path numberOfText tree env process
                                   options req w)
         = Ok {| replyStatus := 502;
                 replyHeaders := {[ "content-type" := "application/json" ]};
                 replyBody :=
                   Stringified
                     (JObject
                        [("error",
                          JString "Local handler missing and cloud fallback unavailable")]) |}).
Proof.
  intros Hmissing Hparse Hapi Hrouted.
  assert (Hroutes : routesOf path tree env (config options) = []).
  { unfold routesOf. rewrite Hmissing. reflexivity. }
  split; [exact Hroutes|].
  unfold createLocalApiServer. rewrite Hroutes.
  assert (Hfst : fst (dispatch env (config options) requestUrl req [] w)
                 = cloudOr (proxyOutcome env (config options) requestUrl req
                                         (bodyReads w))
                           (json (errorBody
                                    "Local handler missing and cloud fallback unavailable")
                                 502)).
  { rewrite dispatch_routed by exact Hrouted.
    assert (Hpick : pickModule (pathname requestUrl) [] = None).
    { unfold pickModule. reflexivity. }
    rewrite Hpick. apply fallback_run. }
  assert (Hpair : dispatch env (config options) requestUrl req [] w
                  = (fst (dispatch env (config options) requestUrl req [] w),
                     snd (dispatch env (config options) requestUrl req [] w)))
    by apply surjective_pairing.
  rewrite Hfst in Hpair. split.
  - intros response Hproxy Hreadable Hsendable.
    rewrite Hproxy in Hpair. cbn [cloudOr] in Hpair.
    rewrite (listener_sends env (config options) [] req w requestUrl response
                            _ Hparse Hapi Hpair Hreadable Hsendable).
    eexists. split; [reflexivity|]. cbn [replyStatus replyBody replyHeaders].
    split; [reflexivity|]. split; [reflexivity|].
    intros name. apply entries_lookup.
  - intros error Hproxy.
    rewrite Hproxy in Hpair. cbn [cloudOr] in Hpair.
    rewrite (listener_json env (config options) [] req w requestUrl _ 502 _
                           Hparse Hapi Hpair); [reflexivity|lia].
Qed.

(** X11: without an apiDir option, resolveConfig picks the api directory
    among resourceDir/api and resourceDir/_up_/api: the directory it
    returns exists exactly when one of the two exists, and it is the one
    under _up_ only when resourceDir/api does not exist.  A non-empty
    apiDir option is taken as it is, whether it exists or not. *)
Theorem resolveConfig_apiDir options :
  (optApiDir options = None \/ optApiDir options = Some "" ->
   let direct := pathJoin path (resourceDir (config options)) "api" in
   let bundled := pathJoin path (pathJoin path (resourceDir (config options)) "_up_")
                           "api" in
   (existsSync env (apiDir (config options)) = true
    <-> existsSync env direct = true \/ existsSync env bundled = true)
   /\ (existsSync env direct = true -> apiDir (config options) = direct)
   /\ (existsSync env direct = false ->
       existsSync env bundled = true -> apiDir (config options) = bundled)
   /\ (existsSync env direct = false ->
       existsSync env bundled = false -> apiDir (config options) = direct))
  /\ (forall dir,
         optApiDir options = Some dir -> dir <> "" ->
         apiDir (config options) = dir).
Proof.
  split.
  - intros Hnone. cbv zeta.
    set (direct := pathJoin path (resourceDir (config options)) "api").
    set (bundled := pathJoin path
                      (pathJoin path (resourceDir (config options)) "_up_") "api").
    assert (Hdir : apiDir (config options)
                   = nullish (findExisting env [direct; bundled]) direct).
    { unfold resolveConfig. simpl.
      destruct Hnone as [-> | ->]; reflexivity. }
    rewrite Hdir. unfold findExisting. cbn [find].
    destruct (existsSync env direct) eqn:Hdirect; cbn [nullish].
    + rewrite Hdirect.
      split; [split; [left; reflexivity|reflexivity]|].
      split; [reflexivity|]. split; discriminate.
    + destruct (existsSync env bundled) eqn:Hbundled; cbn [nullish].
      * rewrite Hbundled.
        split; [split; [right; reflexivity|reflexivity]|].
        split; [discriminate|]. split; [reflexivity|discriminate].
      * rewrite Hdirect.
        split; [split; [discriminate|intros [H|H]; discriminate H]|].
        split; [discriminate|]. split; [discriminate|reflexivity].
  - intros dir Hdir Hnonempty. unfold resolveConfig. simpl.
    rewrite Hdir, (truthy_nonempty _ Hnonempty). reflexivity.
Qed.

(** X12: resolveConfig removes one trailing slash from the remote base,
    so a base given with it and the same base given without it resolve
    to the same configuration, and the cloud target is the base followed
    by the path and the query of the request. *)
Theorem resolveConfig_remoteBase options base :
  endsWith base "/" = false ->
  config {| optPort := optPort options;
            optRemoteBase := Some (base ++ "/")%string;
            optResourceDir := optResourceDir options;
            optApiDir := optApiDir options;
            optMode := optMode options |}
  = config {| optPort := optPort options;
              optRemoteBase := Some base;
              optResourceDir := optResourceDir options;
              optApiDir := optApiDir options;
              optMode := optMode options |}
  /\ forall url req body,
      requestUrl
        (cloudCall (config {| optPort := optPort options;
                              optRemoteBase := Some (base ++ "/")%string;
                              optResourceDir := optResourceDir options;
                              optApiDir := optApiDir options;
                              optMode := optMode options |})
                   url req body)
      = (base ++ pathname url ++ search url)%string.
Proof.
  intros Hclean.
  assert (Hbase :
             remoteBase (config {| optPort := optPort options;
                                   optRemoteBase := Some (base ++ "/")%string;
                                   optResourceDir := optResourceDir options;
                                   optApiDir := optApiDir options;
                                   optMode := optMode options |}) = base).
  { unfold resolveConfig. simpl. apply RouterFacts.stripSuffix_app. }
  split.
  - unfold resolveConfig. simpl.
    rewrite RouterFacts.stripSuffix_app, (RouterFacts.stripSuffix_none _ _ Hclean). reflexivity.
  - intros url req body. unfold cloudCall. cbn [requestUrl].
    rewrite Hbase. reflexivity.
Qed.

End Platform.

End StartupFacts.

Module SidecarRunsCases.
Import JsString Router Headers Effect EffectFacts Sidecar SidecarFacts Startup.
Import SidecarRuns StartupFacts.

Lemma ok_response_stays_local_witness :
  dispatch (Scenario.env (Scenario.answers (Ok (IsResponse Scenario.cloudAnswer)))
                         (Throws "ECONNREFUSED"))
           Scenario.context (Scenario.urlOf "/api/rss-proxy")
           (Scenario.request "/api/rss-proxy") Scenario.routes Scenario.idle
  = (Ok Scenario.cloudAnswer,
     {| moduleCache :=
          moduleCache
            (snd (importHandler
                    (Scenario.env
                       (Scenario.answers (Ok (IsResponse Scenario.cloudAnswer)))
                       (Throws "ECONNREFUSED"))
                    "/app/api/rss-proxy.js" Scenario.idle));
        bodyReads := 0;
        log := [Invoked "/app/api/rss-proxy.js"
                        (localRequest (Scenario.urlOf "/api/rss-proxy")
                                      (Scenario.request "/api/rss-proxy")
                                      None)] |}).
Proof.
  exact (proj1 (ok_response_stays_local
                  (Scenario.env
                     (Scenario.answers (Ok (IsResponse Scenario.cloudAnswer)))
                     (Throws "ECONNREFUSED"))
                  Scenario.context (Scenario.urlOf "/api/rss-proxy")
                  (Scenario.request "/api/rss-proxy") Scenario.routes
                  Scenario.idle "/app/api/rss-proxy.js"
                  (fun _ => Ok (IsResponse Scenario.cloudAnswer))
                  (localRequest (Scenario.urlOf "/api/rss-proxy")
                                (Scenario.request "/api/rss-proxy") None)
                  Scenario.cloudAnswer
                  (handlerRuns_sample (Ok (IsResponse Scenario.cloudAnswer))
                                      (Throws "ECONNREFUSED"))
                  eq_refl eq_refl)).
Defined.

Lemma importHandler_caches_witness :
  importHandler Cases.brokenImport "/app/api/rss-proxy.js"
    (snd (importHandler (Scenario.env NotFunction (Throws "ECONNREFUSED"))
                        "/app/api/rss-proxy.js" Scenario.idle))
  = (Ok NotFunction,
     snd (importHandler (Scenario.env NotFunction (Throws "ECONNREFUSED"))
                        "/app/api/rss-proxy.js" Scenario.idle)).
Proof.
  exact (proj2 (proj2 (proj1 (importHandler_caches
                                (Scenario.env NotFunction (Throws "ECONNREFUSED"))
                                "/app/api/rss-proxy.js" Scenario.idle)
                             NotFunction eq_refl))
               Cases.brokenImport).
Defined.

Lemma load_failure_falls_back_witness :
  fst (dispatch Cases.brokenImport Scenario.context
                (Scenario.urlOf "/api/rss-proxy")
                (Scenario.request "/api/rss-proxy") Scenario.routes
                Scenario.idle)
  = Ok {| status := 502;
          responseHeaders := [("content-type", "application/json")];
          responseBody :=
            Stringified
              (JObject
                 [("error",
                   JString "Local handler failed and cloud fallback unavailable")]) |}.
Proof.
  assert (Hrouted : routed (Scenario.urlOf "/api/rss-proxy"))
    by (split; discriminate).
  assert (Hpick : pickModule (pathname (Scenario.urlOf "/api/rss-proxy"))
                             Scenario.routes
                  = Some "/app/api/rss-proxy.js")
    by (vm_compute; reflexivity).
  assert (Hpath : "/app/api/rss-proxy.js" <> "") by discriminate.
  assert (Hexists : existsSync Cases.brokenImport "/app/api/rss-proxy.js" = true)
    by reflexivity.
  assert (Himport : fst (importHandler Cases.brokenImport
                                       "/app/api/rss-proxy.js" Scenario.idle)
                    = Throws "SyntaxError")
    by reflexivity.
  rewrite (proj1 (proj1 (load_failure_falls_back
                           Cases.brokenImport Scenario.context
                           (Scenario.urlOf "/api/rss-proxy")
                           (Scenario.request "/api/rss-proxy") Scenario.routes
                           Scenario.idle "/app/api/rss-proxy.js"
                           Hrouted Hpick Hpath Hexists)
                        "SyntaxError" Himport)).
  reflexivity.
Defined.

Lemma server_without_api_dir_witness :
  exists reply,
    fst (createLocalApiServer Scenario.posix Cases.decimalPort Cases.noListing
                              Cases.emptyDisk Cases.bareProcess Cases.noOptions
                              (Scenario.request "/api/rss-proxy") Scenario.idle)
    = Ok reply
    /\ replyStatus reply = 200%Z
    /\ replyBody reply = Content "{}"
    /\ replyHeaders reply !! "content-type" = Some "application/json"
    /\ replyHeaders reply !! "set-cookie" = None.
Proof.
  assert (Hmissing : existsSync Cases.emptyDisk
                       (apiDir (resolveConfig Scenario.posix Cases.decimalPort
                                  Cases.emptyDisk Cases.bareProcess
                                  Cases.noOptions))
                     = false)
    by reflexivity.
  assert (Hparse : parseUrl Cases.emptyDisk
                            (rawOf (Scenario.request "/api/rss-proxy"))
                   = Ok (Scenario.urlOf "/api/rss-proxy"))
    by reflexivity.
  assert (Hapi : startsWith (pathname (Scenario.urlOf "/api/rss-proxy")) "/api/"
                 = true)
    by reflexivity.
  assert (Hrouted : routed (Scenario.urlOf "/api/rss-proxy"))
    by (split; discriminate).
  assert (Hreadable : readable Scenario.cloudAnswer)
    by (intros error; discriminate).
  assert (Hsendable : sendable Scenario.cloudAnswer).
  { split; [split; discriminate|].
    intros name value. unfold written.
    cbn [Scenario.cloudAnswer responseHeaders valuesUnder].
    destruct (String.eqb_spec "content-type" name) as [<-|_]; [|discriminate].
    intros [= <-]. split; reflexivity. }
  destruct (proj1 (proj2 (server_without_api_dir
                            Scenario.posix Cases.decimalPort Cases.noListing
                            Cases.emptyDisk Cases.bareProcess Cases.noOptions
                            (Scenario.request "/api/rss-proxy")
                            (Scenario.urlOf "/api/rss-proxy") Scenario.idle
                            Hmissing Hparse Hapi Hrouted))
                  Scenario.cloudAnswer eq_refl Hreadable Hsendable)
    as (reply & Hreply & Hstatus & Hbody & Hheaders).
  exists reply. split; [exact Hreply|]. split; [exact Hstatus|].
  split; [exact Hbody|].
  split; [exact (Hheaders "content-type")|exact (Hheaders "set-cookie")].
Defined.

Lemma resolveConfig_apiDir_witness :
  apiDir (resolveConfig Scenario.posix Cases.decimalPort Cases.emptyDisk Cases.bareProcess
                        Cases.noOptions)
  = "/app/api".
Proof.
  exact (proj2 (proj2 (proj2 (proj1 (resolveConfig_apiDir
                                       Scenario.posix Cases.decimalPort Cases.emptyDisk
                                       Cases.bareProcess Cases.noOptions)
                                    (or_introl eq_refl))))
               eq_refl eq_refl).
Defined.

Lemma resolveConfig_remoteBase_witness :
  remoteBase (resolveConfig Scenario.posix Cases.decimalPort Cases.emptyDisk
                Cases.bareProcess
                {| optPort := None;
                   optRemoteBase := Some "https://worldmonitor.app/";
                   optResourceDir := None;
                   optApiDir := None;
                   optMode := None |})
  = "https://worldmonitor.app".
Proof.
  exact (f_equal remoteBase
           (proj1 (resolveConfig_remoteBase
                     Scenario.posix Cases.decimalPort Cases.emptyDisk Cases.bareProcess
                     Cases.noOptions "https://worldmonitor.app" eq_refl))).
Defined.

End SidecarRunsCases.

(** ** The runtime fetch patch: retries, targets and outcomes *)

Module RuntimeMore.
Import JsString Effect EffectFacts Runtime RuntimeFacts RuntimeUrl.

(** X13: installing the patch twice is installing it once: the second
    call finds the flag set and leaves window.fetch alone, so the patched
    fetch never wraps itself. *)
Theorem install_idempotent (build : BuildEnv) (window : option Window) :
  installRuntimeFetchPatch build (installRuntimeFetchPatch build window)
  = installRuntimeFetchPatch build window.
Proof.
  apply install_unchanged.
  unfold installRuntimeFetchPatch.
  destruct (negb (isDesktopRuntime build window)) eqn:Hdesktop.
  - left. apply negb_true_iff in Hdesktop. exact Hdesktop.
  - destruct window as [w|]; [|right; left; reflexivity].
    right. right. destruct (wmFetchPatched w) eqn:Hpatched.
    + exists w. split; [reflexivity|exact Hpatched].
    + eexists. split; reflexivity.
Qed.

Section Fetching.
Variable browser : Browser.

(** The trace of [n] failed attempts from [attempt] on: each call is
    followed by its pause. *)
Fixpoint failedAttempts (localUrl : string) (init : option RequestInit)
         (n attempt : nat) : list Event :=
  match n with
  | O => []
  | S n' =>
      Called (InString localUrl) init
      :: Slept (125 * attempt)
      :: failedAttempts localUrl init n' (attempt + 1)
  end.

(** [init?.signal?.aborted] once [calls] calls were made. *)
Definition abortedAt (init : option RequestInit) (calls : nat) : bool :=
  match init with
  | Some i => hasSignal i && signalAborted browser calls
  | None => false
  end.

(** The first [n] calls from the world [w] on fail, and the caller has
    not aborted after any of them. *)
Definition failing (localUrl : string) (init : option RequestInit)
           (w : World) (n : nat) : Prop :=
  forall j, (j < n)%nat ->
            (exists e, network browser (calls w + j) (InString localUrl) init
                       = Throws e)
            /\ abortedAt init (calls w + j + 1) = false.

Lemma failing_step localUrl init w n :
  failing localUrl init w (S n) ->
  (exists e, network browser (calls w) (InString localUrl) init = Throws e)
  /\ abortedAt init (S (calls w)) = false
  /\ forall log',
      failing localUrl init {| calls := S (calls w); log := log' |} n.
Proof.
  intros Hfail.
  destruct (Hfail 0%nat ltac:(lia)) as [He Ha].
  rewrite Nat.add_0_r in He. rewrite Nat.add_0_r, Nat.add_1_r in Ha.
  split; [exact He|]. split; [exact Ha|].
  intros log' j Hj. simpl calls.
  destruct (Hfail (S j) ltac:(lia)) as [He' Ha'].
  replace (S (calls w) + j)%nat with (calls w + S j)%nat by lia.
  auto.
Qed.

(** The loop after [n] failed attempts, none of them the last. *)
Lemma attemptsFrom_failing localUrl init n :
  forall remaining attempt w,
    (attempt + remaining = maxAttempts + 1)%nat ->
    (n < remaining)%nat ->
    failing localUrl init w n ->
    attemptsFrom browser (callNative browser) localUrl init remaining attempt w
    = attemptsFrom browser (callNative browser) localUrl init
        (remaining - n) (attempt + n)
        {| calls := calls w + n;
           log := log w ++ failedAttempts localUrl init n attempt |}.
Proof.
  induction n as [|n IH]; intros remaining attempt w Hsum Hlt Hfail.
  - rewrite Nat.sub_0_r, !Nat.add_0_r. simpl. rewrite app_nil_r.
    destruct w; reflexivity.
  - destruct remaining as [|remaining]; [lia|].
    destruct (failing_step _ _ _ _ Hfail) as ((e & He) & Ha & Hrest).
    cbn [attemptsFrom]. unfold tryCatch at 1. unfold callNative at 1.
    rewrite He. rewrite bind_run. unfold aborted at 1. cbn [calls].
    fold (abortedAt init (S (calls w))). rewrite Ha.
    assert (Hnot : (attempt =? maxAttempts)%nat = false)
      by (apply Nat.eqb_neq; lia).
    rewrite Hnot. rewrite bind_run. unfold emit at 1.
    rewrite IH; [|lia|lia|apply Hrest].
    cbn [calls log failedAttempts].
    change (S remaining - S n)%nat with (remaining - n)%nat.
    replace (attempt + S n)%nat with (attempt + 1 + n)%nat by lia.
    replace (calls w + S n)%nat with (S (calls w) + n)%nat by lia.
    rewrite <- !app_assoc. reflexivity.
Qed.


(** The loop once the first [n] attempts failed, as one more call. *)
Lemma retry_after_failing localUrl init w n :
  (n < maxAttempts)%nat ->
  failing localUrl init w n ->
  fetchLocalWithStartupRetry browser (callNative browser) localUrl init w
  = attemptsFrom browser (callNative browser) localUrl init
      (S (maxAttempts - 1 - n)) (1 + n)
      {| calls := calls w + n;
         log := log w ++ failedAttempts localUrl init n 1 |}.
Proof.
  intros Hn Hfail. unfold fetchLocalWithStartupRetry.
  rewrite (attemptsFrom_failing localUrl init n maxAttempts 1 w);
    [|unfold maxAttempts; lia|exact Hn|exact Hfail].
  replace (maxAttempts - n)%nat with (S (maxAttempts - 1 - n))
    by (unfold maxAttempts in *; lia).
  reflexivity.
Qed.

(** X14: fetchLocalWithStartupRetry returns the first answer of the
    sidecar.  When the first n calls (n below four) fail without the
    caller aborting and the next one answers, the result is that answer,
    after n + 1 calls of the same local URL with the caller's init and a
    pause of 125 ms times the attempt number after each failed call. *)
Theorem retry_returns_first_answer localUrl init w n response :
  (n < maxAttempts)%nat ->
  failing localUrl init w n ->
  network browser (calls w + n) (InString localUrl) init = Ok response ->
  fetchLocalWithStartupRetry browser (callNative browser) localUrl init w
  = (Ok response,
     {| calls := calls w + n + 1;
        log := log w ++ failedAttempts localUrl init n 1
                     ++ [Called (InString localUrl) init] |}).
Proof.
  intros Hn Hfail Hanswer.
  rewrite (retry_after_failing _ _ _ _ Hn Hfail).
  cbn [attemptsFrom]. unfold tryCatch, callNative. cbn [calls log].
  rewrite Hanswer. rewrite <- app_assoc, Nat.add_1_r. reflexivity.
Qed.

(** X15: after four failed calls fetchLocalWithStartupRetry gives up.
    When the sidecar refuses four calls in a row and the caller does not
    abort, the function throws after exactly four calls with pauses of
    125, 250 and 375 ms between them and none after the last; what it
    throws is the last error when that is an Error and a new Error
    "Local API unavailable" otherwise. *)
Theorem retry_gives_up localUrl init w error :
  failing localUrl init w 3 ->
  network browser (calls w + 3) (InString localUrl) init = Throws error ->
  abortedAt init (calls w + 4) = false ->
  fetchLocalWithStartupRetry browser (callNative browser) localUrl init w
  = (Throws (match error with
             | ErrorObject _ => error
             | OtherValue _ => ErrorObject "Local API unavailable"
             end),
     {| calls := calls w + 4;
        log := log w ++ [Called (InString localUrl) init; Slept 125;
                         Called (InString localUrl) init; Slept 250;
                         Called (InString localUrl) init; Slept 375;
                         Called (InString localUrl) init] |}).
Proof.
  intros Hfail Hlast Halive.
  rewrite (retry_after_failing localUrl init w 3);
    [|unfold maxAttempts; lia|exact Hfail].
  cbn [attemptsFrom]. unfold tryCatch, callNative. cbn [calls log].
  rewrite Hlast. rewrite bind_run. unfold aborted. cbn [calls].
  replace (S (calls w + 3)) with (calls w + 4)%nat by lia.
  fold (abortedAt init (calls w + 4)). rewrite Halive.
  cbn [Nat.add Nat.eqb maxAttempts]. unfold throw.
  cbn [failedAttempts Nat.add Nat.mul]. rewrite <- app_assoc. reflexivity.
Qed.

(** X16: an aborted request is not retried.  When a call fails and the
    caller's signal is aborted by then, fetchLocalWithStartupRetry
    rethrows the value the call threw, unchanged even when it is not an
    Error, without a further pause or call. *)
Theorem retry_stops_on_abort localUrl init w n error :
  (n < maxAttempts)%nat ->
  failing localUrl init w n ->
  network browser (calls w + n) (InString localUrl) init = Throws error ->
  abortedAt init (calls w + n + 1) = true ->
  fetchLocalWithStartupRetry browser (callNative browser) localUrl init w
  = (Throws error,
     {| calls := calls w + n + 1;
        log := log w ++ failedAttempts localUrl init n 1
                     ++ [Called (InString localUrl) init] |}).
Proof.
  intros Hn Hfail Hlast Hgone.
  rewrite (retry_after_failing _ _ _ _ Hn Hfail).
  cbn [attemptsFrom]. unfold tryCatch, callNative. cbn [calls log].
  rewrite Hlast. rewrite bind_run. unfold aborted. cbn [calls].
  replace (S (calls w + n)) with (calls w + n + 1)%nat by lia.
  fold (abortedAt init (calls w + n + 1)). rewrite Hgone.
  unfold throw. rewrite <- app_assoc. reflexivity.
Qed.


(** *** What the patched fetch calls *)












(** The remote leg after a local answer that was not ok never throws. *)
Definition remoteLeg (remoteUrl : string) (init : option RequestInit)
           (localResponse : Response) : M Response :=
  remote ← tryCatch
             (remoteResponse ← callNative browser (InString remoteUrl) init;
              mret (if ok remoteResponse then Some remoteResponse else None))
             (fun remoteError =>
                _ ← emit (ConsoleWarn "[runtime] Remote API fallback failed");
                mret None);
  match remote with
  | Some remoteResponse => mret remoteResponse
  | None => mret localResponse
  end.

Lemma remoteLeg_run remoteUrl init localResponse w :
  remoteLeg remoteUrl init localResponse w
  = match network browser (calls w) (InString remoteUrl) init with
    | Ok remoteResponse =>
        (Ok (if ok remoteResponse then remoteResponse else localResponse),
         {| calls := S (calls w);
            log := log w ++ [Called (InString remoteUrl) init] |})
    | Throws _ =>
        (Ok localResponse,
         {| calls := S (calls w);
            log := (log w ++ [Called (InString remoteUrl) init])
                     ++ [ConsoleWarn "[runtime] Remote API fallback failed"] |})
    end.
Proof.
  unfold remoteLeg. rewrite bind_run. unfold tryCatch. rewrite bind_run.
  unfold callNative.
  destruct (network browser (calls w) (InString remoteUrl) init) as [r|e].
  - rewrite ret_run. destruct (ok r); reflexivity.
  - rewrite bind_run. unfold emit. reflexivity.
Qed.

(** The patched fetch on an /api/ target, by the outcome of the local
    leg. *)
Lemma patchedFetch_api localBase remoteBase input init target w :
  getApiTargetFromRequestInput browser input = Some target ->
  startsWith target "/api/" = true ->
  patchedFetch browser (callNative browser) localBase remoteBase input init w
  = match fetchLocalWithStartupRetry browser (callNative browser)
            (localBase ++ target) init w with
    | (Ok localResponse, w1) =>
        if ok localResponse then (Ok localResponse, w1)
        else remoteLeg (remoteBase ++ target) init localResponse w1
    | (Throws _, w1) =>
        callNative browser (InString (remoteBase ++ target)) init
          {| calls := calls w1;
             log := log w1
                      ++ [ConsoleWarn
                            "[runtime] Local API fetch failed, falling back to cloud"] |}
    end.
Proof.
  intros Htarget Hapi. unfold patchedFetch. rewrite Htarget.
  cbn [isApiTarget orEmpty]. rewrite Hapi.
  change (negb true) with false. cbv iota.
  unfold tryCatch at 1. rewrite bind_run.
  destruct (fetchLocalWithStartupRetry browser (callNative browser)
              (localBase ++ target) init w) as [[localResponse|e] w1].
  - destruct (ok localResponse) eqn:Hok; [reflexivity|].
    fold (remoteLeg (remoteBase ++ target) init localResponse).
    rewrite remoteLeg_run.
    destruct (network browser (calls w1) (InString (remoteBase ++ target)) init);
      reflexivity.
  - rewrite bind_run. unfold emit. reflexivity.
Qed.


(** X18: the outcome of the patched fetch on an /api/ target.  An ok
    answer of the sidecar is returned as it is, without any call of the
    remote.  An answer that is not ok is replaced by the remote's answer
    only when that one is ok, and a remote that throws is ignored; so
    the patched fetch never throws once the sidecar has answered.  When
    the sidecar is unreachable the result is whatever the one remote call
    gives, thrown error included. *)
Theorem patched_fetch_outcome localBase remoteBase input init target w :
  getApiTargetFromRequestInput browser input = Some target ->
  startsWith target "/api/" = true ->
  let sidecar := fetchLocalWithStartupRetry browser (callNative browser)
                   (localBase ++ target) init w in
  let remote := network browser (calls (snd sidecar))
                        (InString (remoteBase ++ target)) init in
  fst (runFetch browser (Patched Native localBase remoteBase) input init w)
  = match fst sidecar with
    | Ok localResponse =>
        Ok (if ok localResponse then localResponse
            else match remote with
                 | Ok remoteResponse =>
                     if ok remoteResponse then remoteResponse
                     else localResponse
                 | Throws _ => localResponse
                 end)
    | Throws _ => remote
    end
  /\ (forall localResponse,
         fst sidecar = Ok localResponse -> ok localResponse = true ->
         runFetch browser (Patched Native localBase remoteBase) input init w
         = sidecar).
Proof.
  intros Htarget Hapi. cbv zeta. cbn [runFetch].
  rewrite (patchedFetch_api _ _ _ _ _ _ Htarget Hapi).
  destruct (fetchLocalWithStartupRetry browser (callNative browser)
              (localBase ++ target) init w) as [[localResponse|e] w1];
    cbn [fst snd].
  - split.
    + destruct (ok localResponse); [reflexivity|].
      rewrite remoteLeg_run.
      destruct (network browser (calls w1) (InString (remoteBase ++ target)) init);
        reflexivity.
    + intros r [= <-] Hok. rewrite Hok. reflexivity.
  - split; [reflexivity|]. intros r [=].
Qed.

End Fetching.

(** *** Base URLs and runtime URLs *)

(** X19: toRuntimeUrl leaves every path that does not start with a
    slash, and every path outside the desktop runtime, as it is, and
    otherwise puts getApiBaseUrl() in front; its check for an empty base
    changes nothing.  Under the patch, fetching toRuntimeUrl(path) for an
    /api/ path behaves exactly as fetching the path itself, whenever the
    URL parser reads the path back from the local URL. *)
Theorem toRuntimeUrl_agrees_with_patch
        (build : BuildEnv) (window : option Window) (path : string) :
  toRuntimeUrl build window path
  = (if startsWith path "/" then (getApiBaseUrl build window ++ path)%string
     else path)
  /\ (isDesktopRuntime build window = false ->
      toRuntimeUrl build window path = path)
  /\ (forall browser remoteBase init,
         startsWith path "/api/" = true ->
         getApiTargetFromRequestInput
           browser (InString (toRuntimeUrl build window path))
         = Some path ->
         runFetch browser
                  (Patched Native (getApiBaseUrl build window) remoteBase)
                  (InString (toRuntimeUrl build window path)) init
         = runFetch browser
                    (Patched Native (getApiBaseUrl build window) remoteBase)
                    (InString path) init).
Proof.
  assert (Hshape : toRuntimeUrl build window path
                   = (if startsWith path "/"
                      then (getApiBaseUrl build window ++ path)%string
                      else path)).
  { unfold toRuntimeUrl. destruct (startsWith path "/"); [|reflexivity].
    cbn [negb]. destruct (getApiBaseUrl build window) as [|ch base];
      reflexivity. }
  split; [exact Hshape|]. split.
  - intros Hnot. rewrite Hshape. unfold getApiBaseUrl. rewrite Hnot.
    destruct (startsWith path "/"); reflexivity.
  - intros browser remoteBase init Hapi Hback. cbn [runFetch].
    assert (Hslash : startsWith path "/" = true).
    { destruct path as [|ch path]; [discriminate Hapi|].
      unfold startsWith in *. rewrite RouterMore.prefix_cons in Hapi.
      rewrite RouterMore.prefix_cons.
      destruct (ascii_dec "/" ch); [destruct path; reflexivity|].
      discriminate Hapi. }
    unfold patchedFetch. rewrite Hback.
    cbn [getApiTargetFromRequestInput]. rewrite Hslash.
    cbn [isApiTarget]. rewrite Hapi. reflexivity.
Qed.

(** The variant is the name of a member every object inherits from
    Object.prototype. *)
Definition inherited (variant : string) : bool :=
  existsb (String.eqb variant)
          ["constructor"; "toString"; "valueOf"; "hasOwnProperty";
           "isPrototypeOf"; "propertyIsEnumerable"; "toLocaleString";
           "__proto__"; "__defineGetter__"; "__defineSetter__";
           "__lookupGetter__"; "__lookupSetter__"].

(** X20: the base URLs.  A configured base that ends in a slash is used
    without that slash, for the sidecar in the desktop runtime and for
    the remote.  Without a configured remote base the remote host is
    https://tech.worldmonitor.app exactly for the variant tech; for a
    variant that names a member objects inherit (constructor, toString
    and the like) it is no string at all but that member, which the
    lookup in DEFAULT_REMOTE_HOSTS finds; and it is
    https://worldmonitor.app for every other variant, unknown ones
    included. *)
Theorem base_urls (build : BuildEnv) (window : option Window) :
  (forall base,
      VITE_TAURI_API_BASE_URL build = Some (base ++ "/")%string ->
      isDesktopRuntime build window = true ->
      getApiBaseUrl build window = base)
  /\ (forall base,
         VITE_TAURI_REMOTE_API_BASE_URL build = Some (base ++ "/")%string ->
         getRemoteApiBaseUrl build = Text base)
  /\ (configured (VITE_TAURI_REMOTE_API_BASE_URL build) = None ->
      getRemoteApiBaseUrl build
      = match VITE_VARIANT build with
        | Some variant =>
            if String.eqb variant "tech"
            then Text "https://tech.worldmonitor.app"
            else if inherited variant then Member variant
                 else Text "https://worldmonitor.app"
        | None => Text "https://worldmonitor.app"
        end).
Proof.
  assert (Htruthy : forall base, truthy (base ++ "/") = true)
    by (intros [|ch base]; reflexivity).
  split; [|split].
  - intros base Hbase Hdesktop. unfold getApiBaseUrl.
    rewrite Hdesktop, Hbase. cbn [negb configured]. rewrite Htruthy.
    apply RouterFacts.stripSuffix_app.
  - intros base Hbase. unfold getRemoteApiBaseUrl.
    rewrite Hbase. cbn [configured]. rewrite Htruthy.
    f_equal. apply RouterFacts.stripSuffix_app.
  - intros Hnone. unfold getRemoteApiBaseUrl. rewrite Hnone.
    destruct (VITE_VARIANT build) as [variant|]; [|reflexivity].
    cbn [configured]. destruct variant as [|ch rest]; [reflexivity|].
    cbn [truthy]. unfold DEFAULT_REMOTE_HOSTS.
    destruct (String.eqb (String ch rest) "tech"); [reflexivity|].
    destruct (String.eqb_spec (String ch rest) "full") as [->|_];
      [reflexivity|].
    destruct (String.eqb_spec (String ch rest) "world") as [->|_];
      [reflexivity|].
    assert (Hsame : existsb (String.eqb (String ch rest))
                            objectPrototypeMembers
                    = inherited (String ch rest)).
    { unfold inherited, objectPrototypeMembers. cbn [existsb].
      destruct (String.eqb (String ch rest) "constructor"),
               (String.eqb (String ch rest) "hasOwnProperty"),
               (String.eqb (String ch rest) "isPrototypeOf"),
               (String.eqb (String ch rest) "propertyIsEnumerable"),
               (String.eqb (String ch rest) "toLocaleString"),
               (String.eqb (String ch rest) "toString"),
               (String.eqb (String ch rest) "valueOf"),
               (String.eqb (String ch rest) "__proto__"),
               (String.eqb (String ch rest) "__defineGetter__"),
               (String.eqb (String ch rest) "__defineSetter__"),
               (String.eqb (String ch rest) "__lookupGetter__"),
               (String.eqb (String ch rest) "__lookupSetter__");
        reflexivity. }
    rewrite Hsame. destruct (inherited (String ch rest)); reflexivity.
Qed.

End RuntimeMore.

Module RuntimeCases.
Import JsString Effect EffectFacts Runtime RuntimeFacts RuntimeUrl RuntimeMore.

Lemma offline_failing localUrl w n :
  failing Scenario.offline localUrl None w n.
Proof. intros j _. split; [eexists; reflexivity|reflexivity]. Qed.

Lemma retry_returns_first_answer_witness :
  fetchLocalWithStartupRetry Browsers.lateSidecar
    (callNative Browsers.lateSidecar) "http://127.0.0.1:46123/api/news" None
    Scenario.quiet
  = (Ok Browsers.fine,
     {| calls := 3;
        log := [Called (InString "http://127.0.0.1:46123/api/news") None;
                Slept 125;
                Called (InString "http://127.0.0.1:46123/api/news") None;
                Slept 250;
                Called (InString "http://127.0.0.1:46123/api/news") None] |}).
Proof.
  assert (Hn : (2 < maxAttempts)%nat) by (unfold maxAttempts; lia).
  assert (Hfail : failing Browsers.lateSidecar
                          "http://127.0.0.1:46123/api/news" None
                          Scenario.quiet 2).
  { intros j Hj. destruct j as [|[|j]]; [| |lia];
      (split; [eexists; reflexivity|reflexivity]). }
  exact (retry_returns_first_answer Browsers.lateSidecar
           "http://127.0.0.1:46123/api/news" None Scenario.quiet 2
           Browsers.fine Hn Hfail eq_refl).
Defined.

Lemma retry_gives_up_witness :
  fetchLocalWithStartupRetry Scenario.offline (callNative Scenario.offline)
    "http://127.0.0.1:46123/api/news" None Scenario.quiet
  = (Throws (ErrorObject "Failed to fetch"),
     {| calls := 4;
        log := [Called (InString "http://127.0.0.1:46123/api/news") None;
                Slept 125;
                Called (InString "http://127.0.0.1:46123/api/news") None;
                Slept 250;
                Called (InString "http://127.0.0.1:46123/api/news") None;
                Slept 375;
                Called (InString "http://127.0.0.1:46123/api/news") None] |}).
Proof.
  exact (retry_gives_up Scenario.offline "http://127.0.0.1:46123/api/news"
           None Scenario.quiet (ErrorObject "Failed to fetch")
           (offline_failing _ _ 3) eq_refl eq_refl).
Defined.

Lemma retry_stops_on_abort_witness :
  fetchLocalWithStartupRetry Browsers.abortedCaller
    (callNative Browsers.abortedCaller) "http://127.0.0.1:46123/api/news"
    Browsers.withSignal Scenario.quiet
  = (Throws (OtherValue "cancelled"),
     {| calls := 1;
        log := [Called (InString "http://127.0.0.1:46123/api/news")
                       Browsers.withSignal] |}).
Proof.
  assert (Hn : (0 < maxAttempts)%nat) by (unfold maxAttempts; lia).
  assert (Hfail : failing Browsers.abortedCaller
                          "http://127.0.0.1:46123/api/news"
                          Browsers.withSignal Scenario.quiet 0)
    by (intros j Hj; lia).
  exact (retry_stops_on_abort Browsers.abortedCaller
           "http://127.0.0.1:46123/api/news" Browsers.withSignal
           Scenario.quiet 0 (OtherValue "cancelled") Hn Hfail eq_refl eq_refl).
Defined.


Lemma patched_fetch_outcome_witness :
  fst (runFetch Browsers.lateSidecar
                (Patched Native "http://127.0.0.1:46123"
                         "https://worldmonitor.app")
                (InString "/api/news") None Scenario.quiet)
  = Ok Browsers.fine.
Proof.
  rewrite (proj1 (patched_fetch_outcome Browsers.lateSidecar
                    "http://127.0.0.1:46123" "https://worldmonitor.app"
                    (InString "/api/news") None "/api/news" Scenario.quiet
                    eq_refl eq_refl)).
  reflexivity.
Defined.

Lemma toRuntimeUrl_agrees_with_patch_witness :
  runFetch Browsers.parsing
           (Patched Native "http://127.0.0.1:46123" "https://worldmonitor.app")
           (InString "http://127.0.0.1:46123/api/news") None
  = runFetch Browsers.parsing
             (Patched Native "http://127.0.0.1:46123" "https://worldmonitor.app")
             (InString "/api/news") None.
Proof.
  exact (proj2 (proj2 (toRuntimeUrl_agrees_with_patch
                         Scenario.production (Some Scenario.desktopWindow)
                         "/api/news"))
               Browsers.parsing "https://worldmonitor.app" None
               eq_refl eq_refl).
Defined.

Lemma base_urls_witness :
  getApiBaseUrl Browsers.staging None = "http://127.0.0.1:5174"
  /\ getRemoteApiBaseUrl Browsers.staging
     = Text "https://staging.worldmonitor.app"
  /\ getRemoteApiBaseUrl Browsers.misnamed = Member "constructor"
  /\ getRemoteApiBaseUrl Scenario.production = Text "https://worldmonitor.app".
Proof.
  split; [|split; [|split]].
  - exact (proj1 (base_urls Browsers.staging None)
                 "http://127.0.0.1:5174" eq_refl eq_refl).
  - exact (proj1 (proj2 (base_urls Browsers.staging None))
                 "https://staging.worldmonitor.app" eq_refl).
  - exact (proj2 (proj2 (base_urls Browsers.misnamed None)) eq_refl).
  - exact (proj2 (proj2 (base_urls Scenario.production None)) eq_refl).
Defined.

End RuntimeCases.

(** ** The counters over the day *)

Module CountersMore.
Import TimeValue Counters CountersFacts.
Local Open Scope Z_scope.

Lemma since_midnight now : now - lastMidnightUTC now = now mod msPerDay.
Proof.
  unfold lastMidnightUTC, msPerDay. Z.to_euclidean_division_equations. lia.
Qed.

Lemma counter_value_of_day metric now :
  wallClock now ->
  getCounterValue metric now
  = (perSecondRate metric * (numberOfZ (now mod msPerDay) / 1000))%float.
Proof.
  intros Hclock. unfold getCounterValue.
  rewrite (midnightUTC_last now Hclock). unfold elapsedMs.
  rewrite since_midnight. reflexivity.
Qed.

(** X21: the value of a counter depends on the time of day only: two
    instants of the system clock that are equally far from their
    midnight UTC give the same value, on whatever day they fall and for
    whatever metric. *)
Theorem counter_follows_time_of_day metric now later :
  wallClock now ->
  wallClock later ->
  now mod msPerDay = later mod msPerDay ->
  getCounterValue metric now = getCounterValue metric later.
Proof.
  intros Hnow Hlater Hsame.
  rewrite (counter_value_of_day metric now Hnow),
          (counter_value_of_day metric later Hlater), Hsame.
  reflexivity.
Qed.

(** X22: every listed counter starts the day at zero: at an instant
    that is a midnight UTC the value is 0. *)
Theorem counter_zero_at_midnight metric now :
  In metric COUNTER_METRICS ->
  wallClock now ->
  now mod msPerDay = 0 ->
  getCounterValue metric now = 0%float.
Proof.
  intros Hin Hclock Hmidnight.
  rewrite (counter_value_of_day metric now Hclock), Hmidnight.
  simpl in Hin.
  repeat (destruct Hin as [<-|Hin]; [vm_compute; reflexivity|]).
  destruct Hin.
Qed.

Lemma counter_follows_time_of_day_witness :
  getCounterValue Scenario.births Scenario.instant
  = getCounterValue Scenario.births (Scenario.instant + 7 * msPerDay).
Proof.
  assert (Hnow : wallClock Scenario.instant)
    by (unfold wallClock, Scenario.instant, maxTime; lia).
  assert (Hlater : wallClock (Scenario.instant + 7 * msPerDay))
    by (unfold wallClock, Scenario.instant, maxTime, msPerDay; lia).
  exact (counter_follows_time_of_day Scenario.births Scenario.instant
           (Scenario.instant + 7 * msPerDay) Hnow Hlater eq_refl).
Defined.

Lemma counter_zero_at_midnight_witness :
  getCounterValue Scenario.births 1793577600000 = 0%float.
Proof.
  assert (Hclock : wallClock 1793577600000)
    by (unfold wallClock, maxTime; lia).
  exact (counter_zero_at_midnight Scenario.births 1793577600000
           (or_introl eq_refl) Hclock eq_refl).
Defined.

End CountersMore.

(** ** The embed handler, alone and behind the sidecar *)

Module EmbedFacts.
Import JsString Router Headers Effect EffectFacts Sidecar SidecarFacts Embed.

Definition rejection : Response :=
  {| status := 400%Z;
     responseHeaders := [("content-type", "text/plain; charset=utf-8")];
     responseBody := Content "Missing or invalid videoId" |}.





Lemma isVideoId_truthy v : isVideoId v = true -> truthy v = true.
Proof.
  unfold isVideoId. intros H. apply andb_true_iff in H. destruct H as [H _].
  destruct v; [discriminate H|reflexivity].
Qed.


Lemma handler_status query :
  status (handler query)
  = match sanitizeVideoId (getParam query "videoId") with
    | Some _ => 200%Z
    | None => 400%Z
    end.
Proof.
  unfold handler, sanitizeVideoId.
  destruct (getParam query "videoId") as [v|]; [|reflexivity].
  destruct (isVideoId v) eqn:Hvalid; [|reflexivity].
  rewrite (isVideoId_truthy v Hvalid). reflexivity.
Qed.

Section Behind.
Variable env : Env.
Variable context : Context.
Variable queryOf : string -> Params.

(** X24: the embed handler behind the sidecar.  When the sidecar runs
    the embed module for a request, a valid videoId gives the local page
    with status 200 and the cloud is not asked; a missing or invalid
    videoId makes the handler answer 400, which the sidecar replaces by
    the cloud's response when the proxy call succeeds and returns as it
    is when it does not. *)
Theorem embed_behind_sidecar requestUrl req routes w modulePath request :
  handlerRuns env requestUrl req routes w modulePath
              (fun r => Ok (IsResponse (handler (queryOf (Sidecar.requestUrl r)))))
              request ->
  (sanitizeVideoId (getParam (queryOf (href requestUrl)) "videoId") <> None ->
   dispatch env context requestUrl req routes w
   = (Ok (handler (queryOf (href requestUrl))),
      {| moduleCache := moduleCache (snd (importHandler env modulePath w));
         bodyReads := readsAfterLocal req w;
         log := log w ++ [Invoked modulePath request] |})
   /\ status (handler (queryOf (href requestUrl))) = 200%Z)
  /\ (sanitizeVideoId (getParam (queryOf (href requestUrl)) "videoId") = None ->
      fst (dispatch env context requestUrl req routes w)
      = cloudOr (proxyOutcome env context requestUrl req
                              (readsAfterLocal req w))
                rejection).
Proof.
  intros Hruns.
  assert (Hurl : Sidecar.requestUrl request = href requestUrl).
  { destruct Hruns as (_ & _ & _ & _ & _ & (body & _ & ->) & _). reflexivity. }
  pose proof (handler_status (queryOf (href requestUrl))) as Hstatus.
  split.
  - intros Hvalid.
    destruct (sanitizeVideoId (getParam (queryOf (href requestUrl)) "videoId"))
      as [videoId|] eqn:Hid; [|congruence].
    split; [|exact Hstatus].
    apply (SidecarRuns.ok_response_run env context _ _ _ _ _ _ _ _ Hruns).
    + cbv beta. rewrite Hurl. reflexivity.
    + unfold ok. rewrite Hstatus. reflexivity.
  - intros Hinvalid.
    destruct (dispatch_handler env context _ _ _ _ _ _ _ Hruns)
      as (w' & Hreads & ->).
    cbv beta. rewrite Hurl.
    assert (Hrejected : handler (queryOf (href requestUrl)) = rejection).
    { unfold handler. rewrite Hinvalid. reflexivity. }
    rewrite Hrejected. unfold afterHandler.
    change (ok rejection) with false. cbn [negb].
    rewrite tryCatch_fallback. cbn [fst]. rewrite Hreads. reflexivity.
Qed.

End Behind.

Lemma embed_behind_sidecar_witness :
  dispatch EmbedSample.disk Scenario.context EmbedSample.watch
           EmbedSample.incoming Scenario.routes Scenario.idle
  = (Ok (handler [("videoId", "iEpJwprxDdk"); ("autoplay", "0")]),
     {| moduleCache :=
          moduleCache (snd (importHandler EmbedSample.disk
                                          "/app/api/youtube/embed.js"
                                          Scenario.idle));
        bodyReads := 0;
        log := [Invoked "/app/api/youtube/embed.js"
                        (localRequest EmbedSample.watch EmbedSample.incoming
                                      None)] |}).
Proof.
  assert (Hruns : handlerRuns EmbedSample.disk EmbedSample.watch
                    EmbedSample.incoming Scenario.routes Scenario.idle
                    "/app/api/youtube/embed.js"
                    (fun r => Ok (IsResponse
                                    (handler (EmbedSample.queryOf
                                                (Sidecar.requestUrl r)))))
                    (localRequest EmbedSample.watch EmbedSample.incoming None)).
  { split; [split; discriminate|].
    split; [vm_compute; reflexivity|].
    split; [discriminate|].
    split; [reflexivity|].
    split; [reflexivity|].
    split; [exists None; split; reflexivity|reflexivity]. }
  assert (Hvalid : sanitizeVideoId
                     (getParam (EmbedSample.queryOf (href EmbedSample.watch))
                               "videoId") <> None)
    by (vm_compute; discriminate).
  exact (proj1 (proj1 (embed_behind_sidecar
                         EmbedSample.disk Scenario.context EmbedSample.queryOf
                         EmbedSample.watch EmbedSample.incoming Scenario.routes
                         Scenario.idle "/app/api/youtube/embed.js"
                         (localRequest EmbedSample.watch EmbedSample.incoming
                                       None)
                         Hruns)
                      Hvalid)).
Defined.

End EmbedFacts.
(** ** The context hash of the country-intel cache key *)

Module CountryIntelFacts.
Import CountryIntel.
Local Open Scope Z_scope.

Lemma toInt32_shift z k : toInt32 (z + k * 2 ^ 32) = toInt32 z.
Proof.
  unfold toInt32.
  replace (z + k * 2 ^ 32 + 2 ^ 31) with (z + 2 ^ 31 + k * 2 ^ 32) by ring.
  rewrite Z_mod_plus_full. reflexivity.
Qed.

Lemma toInt32_wraps z : exists k, toInt32 z = z + k * 2 ^ 32.
Proof.
  exists (- ((z + 2 ^ 31) / 2 ^ 32)). unfold toInt32.
  pose proof (Z.div_mod (z + 2 ^ 31) (2 ^ 32) ltac:(lia)) as H. lia.
Qed.

Lemma toInt32_range z : - 2 ^ 31 <= toInt32 z < 2 ^ 31.
Proof.
  unfold toInt32.
  pose proof (Z.mod_pos_bound (z + 2 ^ 31) (2 ^ 32) ltac:(lia)). lia.
Qed.

(** One turn of the loop on a wrapped state is one turn of the
    polynomial, wrapped. *)
Lemma mix_wrapped a c : mix (toInt32 a) c = toInt32 (31 * a + c).
Proof.
  unfold mix. rewrite Z.shiftl_mul_pow2 by lia.
  destruct (toInt32_wraps a) as [k Hk].
  destruct (toInt32_wraps (toInt32 a * 2 ^ 5)) as [k' Hk'].
  rewrite Hk', Hk.
  replace ((a + k * 2 ^ 32) * 2 ^ 5 + k' * 2 ^ 32 - (a + k * 2 ^ 32) + c)
    with (31 * a + c + (31 * k + k') * 2 ^ 32) by ring.
  apply toInt32_shift.
Qed.

Lemma fold_mix str :
  forall a,
    fold_left mix str (toInt32 a)
    = toInt32 (fold_left (fun h c => 31 * h + c) str a).
Proof.
  induction str as [|c str IH]; intros a; [reflexivity|].
  simpl. rewrite mix_wrapped. apply IH.
Qed.

(** X25: hashString computes the polynomial hash with multiplier 31:
    wrapping to 32 bits at every turn of the loop gives the same state
    as wrapping once at the end, so the state is the signed 32-bit value
    of the sum of the code units times descending powers of 31. *)
Theorem hashString_is_polynomial_hash (str : list Z) :
  hashOf str = toInt32 (fold_left (fun h c => 31 * h + c) str 0)
  /\ - 2 ^ 31 <= hashOf str < 2 ^ 31
  /\ hashString str
     = toString36 (Z.abs (toInt32 (fold_left (fun h c => 31 * h + c) str 0))).
Proof.
  assert (Hstate : hashOf str
                   = toInt32 (fold_left (fun h c => 31 * h + c) str 0)).
  { unfold hashOf. change 0 with (toInt32 0) at 1. apply fold_mix. }
  split; [exact Hstate|]. split.
  - rewrite Hstate. apply toInt32_range.
  - unfold hashString. rewrite Hstate. reflexivity.
Qed.

(** *** Base 36 *)

(** The value of digits given least significant first. *)
Fixpoint valueOf (digits : list Z) : Z :=
  match digits with
  | [] => 0
  | d :: rest => d + 36 * valueOf rest
  end.

Definition digitValue (c : ascii) : Z :=
  let n := Z.of_nat (nat_of_ascii c) in
  if n <? 58 then n - 48 else n - 87.

(** The number a string of base-36 digits denotes. *)
Definition readBase36 (s : string) : Z :=
  fold_left (fun v c => 36 * v + digitValue c) (list_ascii_of_string s) 0.

Definition isBase36 (c : ascii) : bool :=
  let n := nat_of_ascii c in
  ((48 <=? n) && (n <=? 57) || (97 <=? n) && (n <=? 122))%nat.

Lemma digits36_range fuel :
  forall n, 0 <= n -> Forall (fun d => 0 <= d < 36) (digits36 fuel n).
Proof.
  induction fuel as [|fuel IH]; intros n Hn; simpl; [constructor|].
  constructor; [apply Z.mod_pos_bound; lia|].
  destruct (n / 36 =? 0); [constructor|].
  apply IH. apply Z.div_pos; lia.
Qed.

Lemma digits36_value fuel :
  forall n, 0 <= n < 36 ^ Z.of_nat fuel -> valueOf (digits36 fuel n) = n.
Proof.
  induction fuel as [|fuel IH]; intros n Hn.
  - change (36 ^ Z.of_nat 0) with 1 in Hn. simpl. lia.
  - cbn [digits36 valueOf].
    pose proof (Z.div_mod n 36 ltac:(lia)) as Hdiv.
    destruct (Z.eqb_spec (n / 36) 0) as [Hzero|Hmore].
    + simpl. lia.
    + rewrite IH; [lia|].
      rewrite Nat2Z.inj_succ, Z.pow_succ_r in Hn by lia.
      split; [apply Z.div_pos; lia|].
      apply Z.div_lt_upper_bound; lia.
Qed.

Lemma digits36_length fuel :
  forall n k, 0 <= n < 36 ^ Z.of_nat (S k) ->
              (length (digits36 fuel n) <= S k)%nat.
Proof.
  induction fuel as [|fuel IH]; intros n k Hn; simpl; [lia|].
  destruct (Z.eqb_spec (n / 36) 0) as [Hzero|Hmore]; [simpl; lia|].
  destruct k as [|k].
  - exfalso. apply Hmore. apply Z.div_small. simpl in Hn. lia.
  - apply le_n_S. apply IH.
    rewrite Nat2Z.inj_succ, Z.pow_succ_r in Hn by lia.
    split; [apply Z.div_pos; lia|].
    apply Z.div_lt_upper_bound; lia.
Qed.

(** The bits of [n] are fuel enough. *)
Lemma fuel_enough n :
  0 <= n -> n < 36 ^ Z.of_nat (S (Z.to_nat (Z.log2 n))).
Proof.
  intros Hn. rewrite Nat2Z.inj_succ, Z2Nat.id by apply Z.log2_nonneg.
  destruct (Z.eq_dec n 0) as [->|Hpos]; [simpl; lia|].
  pose proof (Z.log2_spec n ltac:(lia)) as [_ Hhigh].
  pose proof (Z.log2_nonneg n) as Hlog.
  assert (2 ^ Z.succ (Z.log2 n) <= 36 ^ Z.succ (Z.log2 n))
    by (apply Z.pow_le_mono_l; lia).
  lia.
Qed.

Lemma digitValue_digit36 d : 0 <= d < 36 -> digitValue (digit36 d) = d.
Proof.
  intros Hd. unfold digitValue, digit36.
  destruct (Z.ltb_spec d 10) as [Hlow|Hhigh];
    rewrite nat_ascii_embedding by lia.
  - destruct (Z.ltb_spec (Z.of_nat (48 + Z.to_nat d)) 58); lia.
  - destruct (Z.ltb_spec (Z.of_nat (87 + Z.to_nat d)) 58); lia.
Qed.

Lemma isBase36_digit36 d : 0 <= d < 36 -> isBase36 (digit36 d) = true.
Proof.
  intros Hd. unfold isBase36, digit36.
  destruct (Z.ltb_spec d 10) as [Hlow|Hhigh];
    rewrite nat_ascii_embedding by lia.
  - apply orb_true_iff. left. apply andb_true_iff.
    split; apply Nat.leb_le; lia.
  - apply orb_true_iff. right. apply andb_true_iff.
    split; apply Nat.leb_le; lia.
Qed.

Lemma read_digits digits :
  Forall (fun d => 0 <= d < 36) digits ->
  fold_left (fun v c => 36 * v + digitValue c) (map digit36 (rev digits)) 0
  = valueOf digits.
Proof.
  intros Hrange. rewrite <- (rev_involutive (map digit36 (rev digits))).
  rewrite <- List.fold_left_rev_right, rev_involutive, <- map_rev,
          rev_involutive.
  induction Hrange as [|d rest Hd _ IH]; [reflexivity|].
  simpl. rewrite IH, digitValue_digit36 by exact Hd. lia.
Qed.

Lemma length_string_of_list l :
  String.length (string_of_list_ascii l) = length l.
Proof. induction l as [|c l IH]; [reflexivity|]. simpl. rewrite IH. reflexivity. Qed.

Lemma substring_short s n :
  (String.length s <= n)%nat -> String.substring 0 n s = s.
Proof.
  revert n. induction s as [|c s IH]; intros n Hn; [destruct n; reflexivity|].
  destruct n as [|n]; [simpl in Hn; lia|].
  simpl. rewrite IH by (simpl in Hn; lia). reflexivity.
Qed.

Lemma toString36_reads n : 0 <= n -> readBase36 (toString36 n) = n.
Proof.
  intros Hn. unfold readBase36, toString36.
  rewrite list_ascii_of_string_of_list_ascii.
  rewrite read_digits by (apply digits36_range, Hn).
  apply digits36_value. split; [exact Hn|apply fuel_enough, Hn].
Qed.

Lemma toString36_length n k :
  0 <= n < 36 ^ Z.of_nat (S k) -> (String.length (toString36 n) <= S k)%nat.
Proof.
  intros Hn. unfold toString36.
  rewrite length_string_of_list, length_map, length_rev.
  apply digits36_length, Hn.
Qed.

Lemma toString36_digits n :
  0 <= n ->
  Forall (fun c => isBase36 c = true) (list_ascii_of_string (toString36 n)).
Proof.
  intros Hn. unfold toString36. rewrite list_ascii_of_string_of_list_ascii.
  apply List.Forall_map, List.Forall_rev.
  eapply List.Forall_impl; [|apply digits36_range, Hn].
  intros d Hd. apply isBase36_digit36, Hd.
Qed.

(** X26: the context hash is the whole hash.  hashString writes the
    magnitude of the 32-bit state in base 36: a string of at most six
    characters of [0-9a-z] that reads back as that magnitude, so the
    slice(0, 8) in the cache key never cuts anything off and the key is
    the version, the country code and the full hash. *)
Theorem contextHash_is_whole_hash (code : string) (text : list Z) :
  readBase36 (hashString text) = Z.abs (hashOf text)
  /\ (String.length (hashString text) <= 6)%nat
  /\ Forall (fun c => isBase36 c = true)
            (list_ascii_of_string (hashString text))
  /\ cacheKey code (Some text)
     = ("ci-v1:" ++ code ++ ":" ++ hashString text)%string.
Proof.
  pose proof (toInt32_range (fold_left (fun h c => 31 * h + c) text 0))
    as Hrange.
  assert (Hstate : hashOf text
                   = toInt32 (fold_left (fun h c => 31 * h + c) text 0)).
  { unfold hashOf. change 0 with (toInt32 0) at 1. apply fold_mix. }
  rewrite <- Hstate in Hrange.
  assert (Hlength : (String.length (hashString text) <= 6)%nat).
  { unfold hashString. apply (toString36_length _ 5).
    change (36 ^ Z.of_nat 6) with 2176782336. lia. }
  split; [apply toString36_reads; lia|].
  split; [exact Hlength|].
  split; [apply toString36_digits; lia|].
  unfold cacheKey, contextHash, CACHE_VERSION.
  rewrite substring_short by lia. reflexivity.
Qed.

End CountryIntelFacts.

(** ** Ties in the route table *)

Module RouterTies.
Import JsString Router RouterSpec RouterFacts.
Local Open Scope Z_scope.

(** The routes of priority [p], in the order of the list. *)
Definition ofPriority (p : Z) (routes : list Route) : list Route :=
  List.filter (fun r => routePriority (routePath r) =? p) routes.

Lemma insertSorted_ofPriority p x sorted :
  ofPriority p (insertSorted compareRoutes x sorted)
  = ofPriority p (x :: sorted).
Proof.
  induction sorted as [|y rest IH]; [reflexivity|].
  cbn [insertSorted]. unfold compareRoutes at 1.
  destruct (Z.ltb_spec 0
              (routePriority (routePath y) - routePriority (routePath x)))
    as [Hbehind|_]; [|reflexivity].
  unfold ofPriority in *. cbn [List.filter] in *. rewrite IH.
  destruct (Z.eqb_spec (routePriority (routePath x)) p) as [Hx|Hx];
    destruct (Z.eqb_spec (routePriority (routePath y)) p) as [Hy|Hy];
    try reflexivity.
  lia.
Qed.

Lemma sort_ofPriority p routes :
  ofPriority p (sort compareRoutes routes) = ofPriority p routes.
Proof.
  induction routes as [|x rest IH]; [reflexivity|].
  cbn [sort]. rewrite insertSorted_ofPriority.
  unfold ofPriority in *. cbn [List.filter]. rewrite IH. reflexivity.
Qed.

(** X27: sorting the route table is stable: the routes of any one
    priority stand in the table exactly as the directory walk pushed
    them, the same routes in the same order. *)
Theorem ties_keep_walk_order
        (path : PathModule) (root : string) (entries : list Dirent) (p : Z) :
  ofPriority p (buildRouteTable path root (Some entries))
  = ofPriority p (walk path root root entries []).
Proof. unfold buildRouteTable. apply sort_ofPriority. Qed.

End RouterTies.
(** ** Draining the request stream *)

Module SidecarDrains.
Import JsString Router Headers Effect EffectFacts Sidecar SidecarFacts.

Section Runs.
Variable env : Env.
Variable context : Context.

(** What one [readBody] guarded by the method adds to the count. *)
Definition drain (req : IncomingMessage) : nat :=
  if isGetOrHead req then 0 else 1.

Lemma readsAfterLocal_drain req w :
  readsAfterLocal req w = (bodyReads w + drain req)%nat.
Proof. unfold readsAfterLocal, drain. destruct (isGetOrHead req); lia. Qed.

Lemma fallback_reads requestUrl req reason fallback w :
  bodyReads (snd ((cloudResponse ← tryCloudFallback env context requestUrl
                                                    req reason;
                   mret (orElse cloudResponse fallback)) w))
  = (bodyReads w + drain req)%nat.
Proof.
  rewrite <- readsAfterLocal_drain.
  rewrite bind_run. unfold tryCloudFallback. rewrite bind_run.
  assert (Hwarn : exists w0,
             (if truthy reason
              then emit (Warned "[local-api] local route fallback to cloud"
                                (pathname requestUrl) reason)
              else mret ()) w = (Ok tt, w0)
             /\ bodyReads w0 = bodyReads w).
  { destruct (truthy reason); eexists; split; reflexivity. }
  destruct Hwarn as [w0 [-> Hreads]].
  unfold tryCatch, proxyToCloud. rewrite !bind_run, bodyFor_run.
  unfold readsAfterLocal. rewrite <- Hreads.
  destruct (if isGetOrHead req then Ok None else bodyStream env (bodyReads w0))
    as [body|e].
  - unfold callFetch. rewrite bind_run. unfold emit, lift.
    destruct (fetch env _) as [r|e]; reflexivity.
  - rewrite bind_run. unfold emit. reflexivity.
Qed.

Lemma runLocal_reads requestUrl req modulePath w :
  match fst (runLocal env context requestUrl req modulePath w) with
  | Ok _ =>
      (bodyReads w
       <= bodyReads (snd (runLocal env context requestUrl req modulePath w))
       <= bodyReads w + 2 * drain req)%nat
  | Throws _ =>
      (bodyReads w
       <= bodyReads (snd (runLocal env context requestUrl req modulePath w))
       <= bodyReads w + drain req)%nat
  end.
Proof.
  unfold runLocal. rewrite bind_run.
  pose proof (importHandler_reads env modulePath w) as Hreads.
  destruct (importHandler env modulePath w) as [[[|handler]|e] w1];
    simpl in Hreads.
  - pose proof (fallback_reads requestUrl req
                  ("invalid handler module " ++ basename env modulePath)
                  (json (errorBody ("Invalid handler module: "
                                    ++ basename env modulePath)) 500) w1)
      as Hfall.
    destruct (SidecarMore.resolves_fallback env context requestUrl req
                ("invalid handler module " ++ basename env modulePath)
                (json (errorBody ("Invalid handler module: "
                                  ++ basename env modulePath)) 500) w1)
      as [r Hr].
    rewrite Hr, Hfall. lia.
  - rewrite bind_run, bodyFor_run, readsAfterLocal_drain.
    destruct (if isGetOrHead req then Ok None else bodyStream env (bodyReads w1))
      as [body|e]; [|simpl; lia].
    rewrite bind_run. unfold newRequest.
    destruct (requestAccepted env _); [|simpl; lia].
    rewrite ret_run, bind_run. unfold callHandler. rewrite bind_run.
    unfold emit, lift. cbv beta iota.
    match goal with
    | |- context [handler ?r] => destruct (handler r) as [[response|]|e]
    end; [| |simpl; lia].
    + destruct (negb (ok response)); [|simpl; lia].
      match goal with
      | |- context [(tryCloudFallback env context requestUrl req ?reason
                       ≫= ?k) ?w2] =>
          pose proof (fallback_reads requestUrl req reason response w2) as Hfall;
          destruct (SidecarMore.resolves_fallback env context requestUrl req
                      reason response w2) as [r Hr]
      end.
      rewrite Hr, Hfall. simpl. lia.
    + match goal with
      | |- context [(tryCloudFallback env context requestUrl req ?reason
                       ≫= (fun c => mret (orElse c ?fb))) ?w2] =>
          pose proof (fallback_reads requestUrl req reason fb w2) as Hfall;
          destruct (SidecarMore.resolves_fallback env context requestUrl req
                      reason fb w2) as [r Hr]
      end.
      rewrite Hr, Hfall. simpl. lia.
  - simpl. lia.
Qed.

(** X28: dispatch drains the request stream at most twice, once for the
    local handler and once for the proxy call, and never for a GET or
    HEAD request. *)
Theorem dispatch_drains_twice requestUrl req routes w :
  (bodyReads w
   <= bodyReads (snd (dispatch env context requestUrl req routes w))
   <= bodyReads w + 2)%nat
  /\ (isGetOrHead req = true ->
      bodyReads (snd (dispatch env context requestUrl req routes w))
      = bodyReads w).
Proof.
  assert (Hbound :
            (bodyReads w
             <= bodyReads (snd (dispatch env context requestUrl req routes w))
             <= bodyReads w + 2 * drain req)%nat).
  { unfold dispatch.
    destruct (String.eqb (pathname requestUrl) "/api/service-status");
      [simpl; lia|].
    destruct (String.eqb (pathname requestUrl) "/api/local-status");
      [simpl; lia|].
    destruct (pickModule (pathname requestUrl) routes) as [path|];
      [|rewrite fallback_reads; lia].
    destruct (negb (truthy path) || negb (existsSync env path));
      [rewrite fallback_reads; lia|].
    unfold tryCatch.
    pose proof (runLocal_reads requestUrl req path w) as Hlocal.
    destruct (runLocal env context requestUrl req path w) as [[r|e] w1];
      simpl in Hlocal; [simpl; exact Hlocal|].
    rewrite fallback_reads. lia. }
  unfold drain in Hbound. split.
  - destruct (isGetOrHead req); lia.
  - intros Hget. rewrite Hget in Hbound. lia.
Qed.

End Runs.

End SidecarDrains.

(** ** The embedded functions on concrete inputs *)

Module Examples.
Import JsString Router RouterSpec Headers TimeValue Counters.

Example split_keeps_nonempty : splitRoutePath "/news//7/" = ["news"; "7"].
Proof. reflexivity. Qed.

Example literal_segments_match : matchRoute "rss-proxy" "/api/rss-proxy" = true.
Proof. reflexivity. Qed.

Example literal_segments_differ : matchRoute "rss-proxy" "/api/rss" = false.
Proof. reflexivity. Qed.

Example dynamic_takes_one : matchRoute "news/[id]" "/api/news/7" = true.
Proof. reflexivity. Qed.

Example dynamic_needs_one : matchRoute "news/[id]" "/api/news" = false.
Proof. reflexivity. Qed.

Example dynamic_takes_only_one : matchRoute "news/[id]" "/api/news/7/8" = false.
Proof. reflexivity. Qed.

Example catchAll_takes_many : matchRoute "news/[...rest]" "/api/news/a/b/c" = true.
Proof. reflexivity. Qed.

Example catchAll_needs_one : matchRoute "news/[...rest]" "/api/news" = false.
Proof. reflexivity. Qed.

Example optional_catchAll_takes_none : matchRoute "news/[[...rest]]" "/api/news" = true.
Proof. reflexivity. Qed.

Example midroute_catchAll_ignores_what_follows :
  matchRoute "[[...all]]/b" "/api/x" = true
  /\ matchRoute "[[...all]]/b" "/api" = false.
Proof. split; reflexivity. Qed.

Example priority_by_shape :
  routePriority "news/[id]/[...rest]/[[...more]]" = 13%Z.
Proof. reflexivity. Qed.

Example pickModule_strips_api :
  pickModule "/api/news" Scenario.routes = Some "/app/api/news/index.js".
Proof. vm_compute. reflexivity. Qed.

Example table_on_windows :
  map routePath
      (buildRouteTable Scenario.win32 "C:\app\api"
         (Some [Directory "news" [File "index.js"; File "[id].js"];
                File "_helper.js"]))
  = ["news/[id]"; "news"].
Proof. vm_compute. reflexivity. Qed.

Example headers_of_browser_request :
  toHeaders Scenario.browserHeaders true
  = [("accept", "*/*"); ("cookie", "a=1; b=2")].
Proof. reflexivity. Qed.

Example headers_store_normalized_values :
  toHeaders [("x-note", NodeString " padded value ")] false
  = [("x-note", "padded value")].
Proof. reflexivity. Qed.

Example headers_join_cookie_with_semicolon :
  get (toHeaders [("Cookie", NodeArray ["a=1"; "b=2"]);
                  ("Accept", NodeArray ["text/html"; "*/*"])] false) "cookie"
  = Some "a=1; b=2"
  /\ get (toHeaders [("Cookie", NodeArray ["a=1"; "b=2"]);
                     ("Accept", NodeArray ["text/html"; "*/*"])] false) "accept"
     = Some "text/html, */*".
Proof. split; reflexivity. Qed.

Example misnamed_variant_remote_base :
  option_map Runtime.windowFetch
             (Runtime.installRuntimeFetchPatch Browsers.misnamed
                (Some Scenario.browserWindow))
  = Some (Runtime.Patched Runtime.Native "http://127.0.0.1:46123"
                          "function Object() { [native code] }").
Proof. reflexivity. Qed.

Example reply_keeps_last_set_cookie :
  Sidecar.fromEntries
    (Sidecar.entries [("set-cookie", "a=1"); ("vary", "accept");
                      ("set-cookie", "b=2"); ("vary", "origin")])
  !! "set-cookie" = Some "b=2"
  /\ Sidecar.fromEntries
       (Sidecar.entries [("set-cookie", "a=1"); ("vary", "accept");
                         ("set-cookie", "b=2"); ("vary", "origin")])
     !! "vary" = Some "accept, origin".
Proof. split; reflexivity. Qed.

Example headers_keep_origin_without_strip :
  get (toHeaders Scenario.browserHeaders false) "Origin"
  = Some "tauri://localhost".
Proof. reflexivity. Qed.

Example leap_day_2000 :
  (YearFromTime 951782400000, MonthFromTime 951782400000,
   DateFromTime 951782400000) = (2000, 1, 29)%Z.
Proof. reflexivity. Qed.

Example Date_UTC_of_today : DateUTC 2026 10 2 = Some 1793577600000%Z.
Proof. reflexivity. Qed.

Example Date_UTC_two_digit_year : DateUTC 50 0 1 = DateUTC 1950 0 1.
Proof. reflexivity. Qed.

Example births_after_an_hour :
  getCounterValue Scenario.births Scenario.instant = 0x1.e3ccd0da34369p+13%float.
Proof. vm_compute. reflexivity. Qed.

Example tauri_window_detected :
  Runtime.isDesktopRuntime Scenario.production (Some Scenario.desktopWindow)
  = true
  /\ Runtime.isDesktopRuntime Scenario.production (Some Scenario.browserWindow)
     = false.
Proof. split; reflexivity. Qed.

End Examples.
